(** * libxl capabilities generation and cpuinfo node information

    A shallow embedding of [src/libxl/libxl_capabilities.c] (host feature
    probe, NUMA topology builder, guest architecture parser, capability
    assembler, emulator classifier) and of [linuxNodeInfoCPUPopulate] from
    [nodeinfo.c], with the properties their specification states. *)

From Stdlib Require Import ZArith NArith List String Ascii Lia Bool.
From stdpp Require Import base option list gmap strings.

Local Open Scope string_scope.
Local Open Scope list_scope.

(** ** C strings

    A [char *] is a Rocq [string]; a pointer into the middle of a string is
    the suffix that starts there. *)
Module CStr.

(** [&s[n]]: the suffix of [s] that starts [n] characters in. *)
Fixpoint offset (n : nat) (s : string) : string :=
  match n, s with
  | O, _ => s
  | S n', String _ r => offset n' r
  | S _, EmptyString => EmptyString
  end.

(** [STRPREFIX(a, b)], that is [strncmp(a, b, strlen(b)) == 0]. *)
Fixpoint STRPREFIX (a b : string) : bool :=
  match b, a with
  | EmptyString, _ => true
  | String cb rb, String ca ra => if Ascii.eqb ca cb then STRPREFIX ra rb else false
  | String _ _, EmptyString => false
  end.

(** [strstr(hay, needle) != NULL]. *)
Fixpoint strstr (hay needle : string) : bool :=
  STRPREFIX hay needle ||
  match hay with
  | EmptyString => false
  | String _ r => strstr r needle
  end.

(** [s += strspn(s, " ")]: skip the leading delimiters. *)
Fixpoint skip_delim (s : string) : string :=
  match s with
  | String c r => if Ascii.eqb c " " then skip_delim r else s
  | EmptyString => EmptyString
  end.

(** Cut at the first delimiter ([strpbrk]): the token before it, and
    what follows it (the new [saveptr]). *)
Fixpoint cut_token (s : string) : string * string :=
  match s with
  | EmptyString => (EmptyString, EmptyString)
  | String c r =>
      if Ascii.eqb c " " then (EmptyString, r)
      else let '(t, rest) := cut_token r in (String c t, rest)
  end.

(** [strtok_r(str, " ", &saveptr)]: [None] is the NULL return at the end
    of the string; otherwise the token and the new [saveptr]. *)
Definition strtok_r (s : string) : option (string * string) :=
  match skip_delim s with
  | EmptyString => None
  | s' => Some (cut_token s')
  end.

End CStr.

(** ** POSIX extended regular expressions, as far as [XEN_CAP_REGEX] uses them *)
Module Regex.

Inductive regex : Type :=
| Lit (s : string)                (* a literal string *)
| Digits1                         (* [[:digit:]]+ *)
| Seq (a b : regex)
| Alt (a b : regex)               (* a|b *)
| Opt (a : regex)                 (* a? *)
| Group (n : nat) (a : regex).    (* the n-th parenthesised group *)

(** [regmatch_t]: [-1] in both fields when the group did not take part. *)
Record regmatch_t : Type := { rm_so : Z; rm_eo : Z }.

Definition no_match : regmatch_t := {| rm_so := -1; rm_eo := -1 |}.

Definition is_digit (c : ascii) : bool :=
  let n := nat_of_ascii c in (48 <=? n)%nat && (n <=? 57)%nat.

(** A partial match: the input still to read, its offset in the token,
    and the groups closed so far (latest first). *)
Definition cursor : Type := string * nat * list (nat * regmatch_t).

(** Every non-empty run of digits at the head of [s]. *)
Fixpoint digit_runs (s : string) (pos : nat) (gs : list (nat * regmatch_t))
  : list cursor :=
  match s with
  | String c r =>
      if is_digit c then (r, S pos, gs) :: digit_runs r (S pos) gs else []
  | EmptyString => []
  end.

(** All the ways [r] matches a prefix of the input at the cursor. *)
Fixpoint matches (r : regex) (cur : cursor) : list cursor :=
  let '(s, pos, gs) := cur in
  match r with
  | Lit l =>
      if CStr.STRPREFIX s l
      then [(CStr.offset (String.length l) s, (pos + String.length l)%nat, gs)]
      else []
  | Digits1 => digit_runs s pos gs
  | Seq a b => flat_map (matches b) (matches a cur)
  | Alt a b => matches a cur ++ matches b cur
  | Opt a => matches a cur ++ [cur]
  | Group n a =>
      map (fun '(s', pos', gs') =>
             (s', pos',
              (n, {| rm_so := Z.of_nat pos; rm_eo := Z.of_nat pos' |}) :: gs'))
          (matches a cur)
  end.

(** The longest of the matches found at one start offset. *)
Fixpoint longest (best : option cursor) (l : list cursor) : option cursor :=
  match l with
  | [] => best
  | c :: l' =>
      match best with
      | Some b => if (b.1.2 <? c.1.2)%nat then longest (Some c) l' else longest best l'
      | None => longest (Some c) l'
      end
  end.

Fixpoint group_lookup (n : nat) (gs : list (nat * regmatch_t)) : regmatch_t :=
  match gs with
  | [] => no_match
  | (m, g) :: gs' => if (m =? n)%nat then g else group_lookup n gs'
  end.

(** Search for the leftmost start offset at which [r] matches. *)
Fixpoint search (r : regex) (s : string) (pos : nat) : option (nat * cursor) :=
  match longest None (matches r (s, pos, [])) with
  | Some c => Some (pos, c)
  | None =>
      match s with
      | String _ s' => search r s' (S pos)
      | EmptyString => None
      end
  end.

(** [regexec(&regex, token, nmatch, subs, 0)]: [None] is [REG_NOMATCH];
    otherwise the [subs] array, entry 0 the whole match, entry [k] the
    [k]-th group. *)
Definition regexec (r : regex) (token : string) (nmatch : nat)
  : option (list regmatch_t) :=
  match search r token 0 with
  | None => None
  | Some (start, (_, stop, gs)) =>
      Some (map (fun k =>
                   match k with
                   | O => {| rm_so := Z.of_nat start; rm_eo := Z.of_nat stop |}
                   | _ => group_lookup k gs
                   end)
                (seq 0 nmatch))
  end.

End Regex.

(** ** Results of C code

    [Ok] a normal result; [Fail] the function reports failure ([-1] or
    [NULL]); [Undefined] an array was accessed outside its bounds;
    [OutOfFuel] the model's loop bound was too small (never the case with
    the bounds used below: every round of a loop consumes input). *)
Inductive res (A : Type) : Type :=
| Ok (a : A)
| Fail
| Undefined
| OutOfFuel.
Arguments Ok {A} a.
Arguments Fail {A}.
Arguments Undefined {A}.
Arguments OutOfFuel {A}.

(** ** virArch and the domain enumerations

    Declared in headers outside this file; only the tags the code names.
    [VIR_ARCH_NONE] is the zero that [memset] leaves in unused entries. *)
Inductive virArch : Type :=
| VIR_ARCH_NONE
| VIR_ARCH_AARCH64
| VIR_ARCH_ARMV7L
| VIR_ARCH_I686
| VIR_ARCH_ITANIUM
| VIR_ARCH_PPC64
| VIR_ARCH_X86_64.

Global Instance virArch_eq_dec : EqDecision virArch.
Proof. solve_decision. Defined.

Inductive virDomainOSType : Type :=
| VIR_DOMAIN_OSTYPE_HVM
| VIR_DOMAIN_OSTYPE_LINUX
| VIR_DOMAIN_OSTYPE_XEN
| VIR_DOMAIN_OSTYPE_UML
| VIR_DOMAIN_OSTYPE_EXE.

Global Instance virDomainOSType_eq_dec : EqDecision virDomainOSType.
Proof. solve_decision. Defined.

Inductive virDomainVirtType : Type :=
| VIR_DOMAIN_VIRT_XEN.

(** ** The guest architecture parser: the token loop *)
Module GuestArchs.
Import CStr Regex.

(** [struct guest_arch] *)
Record guest_arch : Type := {
  ga_arch : virArch;
  ga_bits : Z;
  ga_hvm : bool;
  ga_pae : bool;
  ga_nonpae : bool;
  ga_ia64_be : bool
}.

(** An entry after [memset(guest_archs, 0, sizeof(guest_archs))]. *)
Definition zero_guest_arch : guest_arch :=
  {| ga_arch := VIR_ARCH_NONE; ga_bits := 0; ga_hvm := false;
     ga_pae := false; ga_nonpae := false; ga_ia64_be := false |}.

(** [ARRAY_CARDINALITY(guest_archs)], the size of
    [struct guest_arch guest_archs[32]]. *)
Definition ARRAY_CARDINALITY_guest_archs : nat := 32.

(** [XEN_CAP_REGEX]:
    (xen|hvm)-[[:digit:]]+\.[[:digit:]]+-(aarch64|armv7l|x86_32|x86_64|ia64|powerpc64)(p|be)? *)
Definition XEN_CAP_REGEX : regex :=
  Seq (Group 1 (Alt (Lit "xen") (Lit "hvm")))
 (Seq (Lit "-")
 (Seq Digits1
 (Seq (Lit ".")
 (Seq Digits1
 (Seq (Lit "-")
 (Seq (Group 2 (Alt (Lit "aarch64") (Alt (Lit "armv7l") (Alt (Lit "x86_32")
               (Alt (Lit "x86_64") (Alt (Lit "ia64") (Lit "powerpc64")))))))
      (Opt (Group 3 (Alt (Lit "p") (Lit "be")))))))))).

(** What one token says: the (arch, hvm) tuple and the three flags. *)
Record decoded : Type := {
  d_arch : virArch;
  d_hvm : bool;
  d_pae : bool;
  d_nonpae : bool;
  d_ia64_be : bool
}.

(** [&token[subs[k].rm_so]] *)
Definition sub_at (token : string) (subs : list regmatch_t) (k : nat) : string :=
  offset (Z.to_nat (rm_so (nth k subs no_match))) token.

(** Lines 264-292: match the token and read the groups. [None] when the
    token does not match, or on the final [else continue]. *)
Definition decode_token (token : string) : option decoded :=
  match regexec XEN_CAP_REGEX token 4 with
  | None => None
  | Some subs =>
      let hvm := STRPREFIX (sub_at token subs 1) "hvm" in
      let has3 := negb (rm_so (nth 3 subs no_match) =? -1)%Z in
      let mk arch pae nonpae ia64_be :=
        Some {| d_arch := arch; d_hvm := hvm; d_pae := pae;
                d_nonpae := nonpae; d_ia64_be := ia64_be |} in
      if STRPREFIX (sub_at token subs 2) "x86_32" then
        if has3 && STRPREFIX (sub_at token subs 3) "p"
        then mk VIR_ARCH_I686 true false false
        else mk VIR_ARCH_I686 false true false
      else if STRPREFIX (sub_at token subs 2) "x86_64" then
        mk VIR_ARCH_X86_64 false false false
      else if STRPREFIX (sub_at token subs 2) "ia64" then
        if has3 && STRPREFIX (sub_at token subs 3) "be"
        then mk VIR_ARCH_ITANIUM false false true
        else mk VIR_ARCH_ITANIUM false false false
      else if STRPREFIX (sub_at token subs 2) "powerpc64" then
        mk VIR_ARCH_PPC64 false false false
      else if STRPREFIX (sub_at token subs 2) "armv7l" then
        mk VIR_ARCH_ARMV7L false false false
      else if STRPREFIX (sub_at token subs 2) "aarch64" then
        mk VIR_ARCH_AARCH64 false false false
      else None
  end.

(** The locals of the loop: the array, the count, and a ghost counter of
    how often the branch of lines 302-303 ("Too many arch flavours") ran. *)
Record parse_state : Type := {
  guest_archs : list guest_arch;
  nr_guest_archs : nat;
  too_many : nat
}.

Definition init_state : parse_state :=
  {| guest_archs := replicate ARRAY_CARDINALITY_guest_archs zero_guest_arch;
     nr_guest_archs := 0;
     too_many := 0 |}.

Definition same_tuple (g : guest_arch) (arch : virArch) (hvm : bool) : bool :=
  bool_decide (ga_arch g = arch) && Bool.eqb (ga_hvm g) hvm.

(** Lines 295-299: [for (i = 0; i < nr_guest_archs; i++) if (...) break;]
    from index [i] with [steps] iterations left. *)
Fixpoint search_tuple (archs : list guest_arch) (arch : virArch) (hvm : bool)
    (i steps : nat) : res nat :=
  match steps with
  | O => Ok i
  | S steps' =>
      match archs !! i with
      | None => Undefined
      | Some g =>
          if same_tuple g arch hvm then Ok i
          else search_tuple archs arch hvm (S i) steps'
      end
  end.

(** Lines 308-320: the stores into [guest_archs[i]]. *)
Definition store (g : guest_arch) (d : decoded) : guest_arch :=
  {| ga_arch := d_arch d;
     ga_bits := ga_bits g;
     ga_hvm := d_hvm d;
     ga_pae := if d_pae d then d_pae d else ga_pae g;
     ga_nonpae := if d_nonpae d then d_nonpae d else ga_nonpae g;
     ga_ia64_be := if d_ia64_be d then d_ia64_be d else ga_ia64_be g |}.

(** Lines 264-321: the body of the loop for one token. *)
Definition token_body (st : parse_state) (token : string) : res parse_state :=
  match decode_token token with
  | None => Ok st
  | Some d =>
      match search_tuple (guest_archs st) (d_arch d) (d_hvm d) 0 (nr_guest_archs st) with
      | Ok i =>
          if (ARRAY_CARDINALITY_guest_archs <=? i)%nat then
            Ok {| guest_archs := guest_archs st;
                  nr_guest_archs := nr_guest_archs st;
                  too_many := S (too_many st) |}
          else
            match guest_archs st !! i with
            | None => Undefined
            | Some g =>
                Ok {| guest_archs := <[i := store g d]> (guest_archs st);
                      nr_guest_archs :=
                        if (i =? nr_guest_archs st)%nat
                        then S (nr_guest_archs st) else nr_guest_archs st;
                      too_many := too_many st |}
            end
      | Fail => Fail
      | Undefined => Undefined
      | OutOfFuel => OutOfFuel
      end
  end.

(** Lines 260-322: the loop. [str] is what [strtok_r] continues from
    ([ver_info->capabilities] at first, [saveptr] afterwards). *)
Fixpoint token_loop (fuel : nat) (str : string) (st : parse_state)
  : res parse_state :=
  match fuel with
  | O => OutOfFuel
  | S fuel' =>
      if (nr_guest_archs st <? ARRAY_CARDINALITY_guest_archs)%nat then
        match strtok_r str with
        | None => Ok st
        | Some (token, saveptr) =>
            match token_body st token with
            | Ok st' => token_loop fuel' saveptr st'
            | r => r
            end
        end
      else Ok st
  end.

(** The loop on a whole capabilities string: every token takes at least
    one character, so the length bounds the number of rounds. *)
Definition parse_capabilities (capabilities : string) : res parse_state :=
  token_loop (S (String.length capabilities)) capabilities init_state.

(** The retained profiles: entries [0 .. nr_guest_archs - 1]. *)
Definition retained (st : parse_state) : list guest_arch :=
  take (nr_guest_archs st) (guest_archs st).

(** *** The merge policy in the words of the specification

    The tokens of the string, then, on the list of profiles: look up the
    profile of the token's (arch, hvm) tuple and OR the flags into it; if
    there is none, add one, unless 32 profiles exist already, in which
    case the tuple is dropped. *)
Fixpoint tokens_upto (fuel : nat) (str : string) : list string :=
  match fuel with
  | O => []
  | S fuel' =>
      match strtok_r str with
      | None => []
      | Some (token, saveptr) => token :: tokens_upto fuel' saveptr
      end
  end.

Definition tokens (capabilities : string) : list string :=
  tokens_upto (S (String.length capabilities)) capabilities.

Definition tuple (g : guest_arch) : virArch * bool := (ga_arch g, ga_hvm g).

Definition new_profile (d : decoded) : guest_arch :=
  {| ga_arch := d_arch d; ga_bits := 0; ga_hvm := d_hvm d; ga_pae := d_pae d;
     ga_nonpae := d_nonpae d; ga_ia64_be := d_ia64_be d |}.

Definition or_flags (g : guest_arch) (d : decoded) : guest_arch :=
  {| ga_arch := ga_arch g; ga_bits := ga_bits g; ga_hvm := ga_hvm g;
     ga_pae := ga_pae g || d_pae d;
     ga_nonpae := ga_nonpae g || d_nonpae d;
     ga_ia64_be := ga_ia64_be g || d_ia64_be d |}.

(** Merge into the first profile with the tuple of [d]; [None] when no
    profile has it. *)
Fixpoint merge_existing (profiles : list guest_arch) (d : decoded)
  : option (list guest_arch) :=
  match profiles with
  | [] => None
  | g :: rest =>
      if bool_decide (tuple g = (d_arch d, d_hvm d))
      then Some (or_flags g d :: rest)
      else cons g <$> merge_existing rest d
  end.

Definition spec_bound : nat := 32.

Definition spec_merge (profiles : list guest_arch) (d : decoded) : list guest_arch :=
  match merge_existing profiles d with
  | Some merged => merged
  | None =>
      if (length profiles <? spec_bound)%nat
      then profiles ++ [new_profile d]
      else profiles
  end.

Definition spec_step (profiles : list guest_arch) (token : string) : list guest_arch :=
  match decode_token token with
  | Some d => spec_merge profiles d
  | None => profiles
  end.

Definition spec_profiles (capabilities : string) : list guest_arch :=
  fold_left spec_step (tokens capabilities) [].

(** The array holds the profiles [ps] in its first entries and zeros
    behind them. *)
Definition represents (st : parse_state) (ps : list guest_arch) : Prop :=
  guest_archs st =
    ps ++ replicate (ARRAY_CARDINALITY_guest_archs - length ps) zero_guest_arch /\
  nr_guest_archs st = length ps /\
  length ps <= ARRAY_CARDINALITY_guest_archs.

(** The profile [g] has the tuple of [d] and every flag that [d] sets. *)
Definition covers (g : guest_arch) (d : decoded) : Prop :=
  tuple g = (d_arch d, d_hvm d) /\
  (d_pae d = true -> ga_pae g = true) /\
  (d_nonpae d = true -> ga_nonpae g = true) /\
  (d_ia64_be d = true -> ga_ia64_be g = true).

(** Every (arch, hvm) tuple there is. *)
Definition all_tuples : list (virArch * bool) :=
  flat_map (fun a => [(a, false); (a, true)])
    [VIR_ARCH_NONE; VIR_ARCH_AARCH64; VIR_ARCH_ARMV7L; VIR_ARCH_I686;
     VIR_ARCH_ITANIUM; VIR_ARCH_PPC64; VIR_ARCH_X86_64].

End GuestArchs.

(** ** The capability object and its builder interface

    The object and the operations of [conf/capabilities.c] that
    [libxl_capabilities.c] calls, after the specification's data model. *)
Module Caps.

(** [virBitmap]: bit [i] is element [i]. *)
Abbreviation virBitmap := (list bool).

(** Modelled from the spec: [virBitmapNew(size)] of [util/virbitmap.c];
    all bits clear. *)
Definition virBitmapNew (size : nat) : virBitmap := replicate size false.

(** Modelled from the spec: [virBitmapSetBit] of [util/virbitmap.c]; it
    sets bit [b], and does nothing (returns -1) when [b] is outside the
    map. *)
Definition virBitmapSetBit (bm : virBitmap) (b : nat) : virBitmap :=
  <[b := true]> bm.

Definition virBitmapIsSet (bm : virBitmap) (b : nat) : Prop :=
  bm !! b = Some true.

(** CpuInfo *)
Record virCapsHostNUMACellCPU : Type := {
  cpu_id : nat;
  socket_id : N;
  core_id : N;
  siblings : virBitmap
}.

(** NumaCell *)
Record virCapsHostNUMACell : Type := {
  cell_num : nat;
  cell_mem : N;
  cell_cpus : list virCapsHostNUMACellCPU
}.

Record virCapsGuestFeature : Type := {
  feat_name : string;
  feat_defaultOn : bool;
  feat_toggle : bool
}.

(** GuestCapability *)
Record virCapsGuest : Type := {
  g_ostype : virDomainOSType;
  g_arch : virArch;
  g_emulator : string;
  g_loader : option string;
  g_machines : list string;
  g_domains : list virDomainVirtType;
  g_features : list virCapsGuestFeature
}.

(** Capabilities *)
Record virCaps : Type := {
  host_arch : virArch;
  suspend_supported : bool;
  resume_supported : bool;
  host_features : list string;
  host_netprefix : option string;
  host_numaCell : list virCapsHostNUMACell;
  guests : list virCapsGuest
}.

Definition set_host_features (f : list string) (c : virCaps) : virCaps :=
  {| host_arch := host_arch c; suspend_supported := suspend_supported c;
     resume_supported := resume_supported c; host_features := f;
     host_netprefix := host_netprefix c; host_numaCell := host_numaCell c;
     guests := guests c |}.

Definition set_host_netprefix (p : option string) (c : virCaps) : virCaps :=
  {| host_arch := host_arch c; suspend_supported := suspend_supported c;
     resume_supported := resume_supported c; host_features := host_features c;
     host_netprefix := p; host_numaCell := host_numaCell c;
     guests := guests c |}.

Definition set_host_numaCell (n : list virCapsHostNUMACell) (c : virCaps) : virCaps :=
  {| host_arch := host_arch c; suspend_supported := suspend_supported c;
     resume_supported := resume_supported c; host_features := host_features c;
     host_netprefix := host_netprefix c; host_numaCell := n;
     guests := guests c |}.

Definition set_guests (g : list virCapsGuest) (c : virCaps) : virCaps :=
  {| host_arch := host_arch c; suspend_supported := suspend_supported c;
     resume_supported := resume_supported c; host_features := host_features c;
     host_netprefix := host_netprefix c; host_numaCell := host_numaCell c;
     guests := g |}.

Definition guest_add_domain (d : virDomainVirtType) (g : virCapsGuest) : virCapsGuest :=
  {| g_ostype := g_ostype g; g_arch := g_arch g; g_emulator := g_emulator g;
     g_loader := g_loader g; g_machines := g_machines g;
     g_domains := g_domains g ++ [d]; g_features := g_features g |}.

Definition guest_add_feature (f : virCapsGuestFeature) (g : virCapsGuest) : virCapsGuest :=
  {| g_ostype := g_ostype g; g_arch := g_arch g; g_emulator := g_emulator g;
     g_loader := g_loader g; g_machines := g_machines g;
     g_domains := g_domains g; g_features := g_features g ++ [f] |}.

(** *** The builder's state and its monad

    A builder works on the one capability object it was handed and may
    see any of its allocating calls fail. [faults] is the oracle for
    that: each allocating call takes the head ([true]: this call fails);
    when the list is used up every call succeeds. [errors] is the log of
    the messages passed to [virReportError]. *)
Record bstate : Type := {
  caps : virCaps;
  faults : list bool;
  errors : list string
}.

Definition M (A : Type) : Type := bstate -> res A * bstate.

Definition ret {A} (a : A) : M A := fun s => (Ok a, s).

Definition bind {A B} (m : M A) (k : A -> M B) : M B :=
  fun s =>
    match m s with
    | (Ok a, s') => k a s'
    | (Fail, s') => (Fail, s')
    | (Undefined, s') => (Undefined, s')
    | (OutOfFuel, s') => (OutOfFuel, s')
    end.

Definition fail {A} : M A := fun s => (Fail, s).
Definition undefined {A} : M A := fun s => (Undefined, s).

(** An allocating call: consult the oracle. *)
Definition alloc : M unit :=
  fun s =>
    match faults s with
    | [] => (Ok tt, s)
    | true :: f => (Fail, {| caps := caps s; faults := f; errors := errors s |})
    | false :: f => (Ok tt, {| caps := caps s; faults := f; errors := errors s |})
    end.

Definition modify (f : virCaps -> virCaps) : M unit :=
  fun s => (Ok tt, {| caps := f (caps s); faults := faults s; errors := errors s |}).


Definition get : M virCaps := fun s => (Ok (caps s), s).

(** A pure computation with its own outcome. *)
Definition lift {A} (r : res A) : M A := fun s => (r, s).

(** An allocating call whose failure the caller reports. *)
Definition alloc_or_report (msg : string) : M unit :=
  fun s =>
    match alloc s with
    | (Fail, s') =>
        (Fail, {| caps := caps s'; faults := faults s'; errors := errors s' ++ [msg] |})
    | r => r
    end.

(** [virReportError(VIR_ERR_INTERNAL_ERROR, "%s", _(msg))] *)
Definition virReportError (msg : string) : M unit :=
  fun s =>
    (Ok tt, {| caps := caps s; faults := faults s; errors := errors s ++ [msg] |}).

Global Instance M_ret : MRet M := @ret.
Global Instance M_bind : MBind M := fun A B k m => bind m k.

(** Modelled from the spec: [virCapabilitiesAddHostFeature] of
    [conf/capabilities.c]; it adds a tag to the HostFeatureSet. *)
Definition virCapabilitiesAddHostFeature (name : string) : M unit :=
  alloc ;; modify (fun c => set_host_features (host_features c ++ [name]) c).

(** Modelled from the spec: [virCapabilitiesSetNetPrefix] of
    [conf/capabilities.c]; it sets the network-interface-naming prefix. *)
Definition virCapabilitiesSetNetPrefix (prefix : string) : M unit :=
  alloc ;; modify (set_host_netprefix (Some prefix)).

(** Modelled from the spec: [virCapabilitiesAddHostNUMACell] of
    [conf/capabilities.c]; it appends the NumaCell [{id, memoryKB, cpus}],
    taking over the first [ncpus] entries of the CPU list. *)
Definition virCapabilitiesAddHostNUMACell (num : nat) (mem : N) (ncpus : nat)
    (cpus : list virCapsHostNUMACellCPU) : M unit :=
  alloc ;;
  modify (fun c =>
    set_host_numaCell
      (host_numaCell c ++
       [{| cell_num := num; cell_mem := mem; cell_cpus := take ncpus cpus |}]) c).

(** Modelled from the spec: [virCapabilitiesFreeNUMAInfo] of
    [conf/capabilities.c]; it releases every NUMA cell attached to the
    object. *)
Definition virCapabilitiesFreeNUMAInfo (c : virCaps) : virCaps :=
  set_host_numaCell [] c.

(** Modelled from the spec: [virCapabilitiesAllocMachines] of
    [conf/capabilities.c]; it copies the machine-type names. *)
Definition virCapabilitiesAllocMachines (names : list string) (n : nat)
  : M (list string) :=
  alloc ;; ret (take n names).

(** Modelled from the spec: [virCapabilitiesAddGuest] of
    [conf/capabilities.c]; it appends a GuestCapability without domain
    types or features and returns it (here: its index among the guests). *)
Definition virCapabilitiesAddGuest (ostype : virDomainOSType) (arch : virArch)
    (emulator : string) (loader : option string) (nmachines : nat)
    (machines : list string) : M nat :=
  alloc ;;
  c ← get ;
  modify (set_guests
            (guests c ++
             [{| g_ostype := ostype; g_arch := arch; g_emulator := emulator;
                 g_loader := loader; g_machines := take nmachines machines;
                 g_domains := []; g_features := [] |}])) ;;
  ret (length (guests c)).

(** An update through the guest pointer [guest]. *)
Definition update_guest (guest : nat) (f : virCapsGuest -> virCapsGuest) : M unit :=
  c ← get ;
  match guests c !! guest with
  | None => undefined
  | Some g => modify (set_guests (<[guest := f g]> (guests c)))
  end.

(** Modelled from the spec: [virCapabilitiesAddGuestDomain] of
    [conf/capabilities.c]; it adds a domain type to the guest. *)
Definition virCapabilitiesAddGuestDomain (guest : nat) (hvtype : virDomainVirtType)
  : M unit :=
  alloc ;; update_guest guest (guest_add_domain hvtype).

(** Modelled from the spec: [virCapabilitiesAddGuestFeature] of
    [conf/capabilities.c]; it adds the feature
    [{name, default-on, toggleable}] to the guest. *)
Definition virCapabilitiesAddGuestFeature (guest : nat) (name : string)
    (defaultOn toggle : bool) : M unit :=
  alloc ;;
  update_guest guest
    (guest_add_feature
       {| feat_name := name; feat_defaultOn := defaultOn; feat_toggle := toggle |}).

End Caps.

(** ** libxl_capabilities.c *)
Module Libxl.
Import CStr Regex GuestArchs Caps.

(** *** What the toolstack answers *)

(** [libxl_physinfo]: [hw_cap] is the array of 32-bit capability words. *)
Record libxl_physinfo : Type := { hw_cap : list N }.

(** [libxl_numainfo]: the node's memory size. *)
Record libxl_numainfo : Type := { size : N }.

(** [libxl_cputopology] *)
Record libxl_cputopology : Type := { core : N; socket : N; node : N }.

(** [libxl_version_info]: [capabilities] may be NULL. *)
Record libxl_version_info : Type := { capabilities : option string }.

(** The context, as the answers its queries give: [None] is a failed
    query (a non-zero return or a NULL pointer); the length of a list is
    the count the query reports with it. *)
Record libxl_ctx : Type := {
  libxl_get_physinfo : option libxl_physinfo;
  libxl_get_numainfo : option (list libxl_numainfo);
  libxl_get_cpu_topology : option (list libxl_cputopology);
  libxl_get_version_info : option libxl_version_info
}.

(** Constants of [libxl.h] and of the build configuration ([config.h]). *)
Record build_config : Type := {
  LIBXL_CPUTOPOLOGY_INVALID_ENTRY : N;
  LIBXL_NUMAINFO_INVALID_ENTRY : N;
  LIBXL_GENERATED_PREFIX_XEN : string;
  LIBXL_EXECBIN_DIR : string;
  LIBXL_FIRMWARE_DIR : string;
  LIBXL_HAVE_NO_SUSPEND_RESUME : bool;
  virArchFromHost : virArch
}.

Definition LIBXL_X86_FEATURE_PAE_MASK : N := 0x40.

Inductive libxl_device_model_version : Type :=
| LIBXL_DEVICE_MODEL_VERSION_QEMU_XEN_TRADITIONAL
| LIBXL_DEVICE_MODEL_VERSION_QEMU_XEN.

Definition LIBXL_QEMU_DM_STR : string := "Options specific to the Xen version:".

Section Builders.
Context (cfg : build_config).

(** *** libxlCapsInitHost *)
Definition libxlCapsInitHost (ctx : libxl_ctx) : M unit :=
  match libxl_get_physinfo ctx with
  | None =>
      virReportError "Failed to get node physical info from libxenlight" ;;
      fail
  | Some phy_info =>
      match hw_cap phy_info !! 0%nat with
      | None => undefined
      | Some w =>
          let host_pae := N.land w LIBXL_X86_FEATURE_PAE_MASK in
          (if negb (host_pae =? 0)%N
           then virCapabilitiesAddHostFeature "pae"
           else ret tt) ;;
          virCapabilitiesSetNetPrefix (LIBXL_GENERATED_PREFIX_XEN cfg)
      end
  end.

(** *** libxlCapsInitNuma *)

(** The two scratch arrays: [cpus] (one CPU list per node) and
    [nr_cpus_node] (its length). *)
Definition scratch : Type := list (list virCapsHostNUMACellCPU) * list nat.

(** Lines 120-146, from CPU index [i] on: [topo] is [cpu_topo[i..]]. *)
Fixpoint prepare_cpus (topo : list libxl_cputopology) (i nr_cpus : nat)
    (arrs : scratch) : M scratch :=
  match topo with
  | [] => ret arrs
  | t :: rest =>
      if (core t =? LIBXL_CPUTOPOLOGY_INVALID_ENTRY cfg)%N
      then prepare_cpus rest (S i) nr_cpus arrs
      else
        let n := N.to_nat (node t) in
        match arrs.2 !! n, arrs.1 !! n with
        | Some k, Some row =>
            (* nr_cpus_node[node]++, then VIR_ALLOC or VIR_REALLOC_N *)
            alloc ;;
            (* virBitmapNew(nr_cpus), with virReportOOMError() when it fails *)
            alloc_or_report "out of memory" ;;
            (* the new last entry, cpus[node][nr_cpus_node[node]-1] *)
            prepare_cpus rest (S i) nr_cpus
              (<[n := row ++ [{| cpu_id := i; socket_id := socket t;
                                 core_id := core t;
                                 siblings := virBitmapNew nr_cpus |}]]> arrs.1,
               <[n := S k]> arrs.2)
        | _, _ => undefined
        end
  end.

Definition set_sibling (c : virCapsHostNUMACellCPU) (i : nat)
  : virCapsHostNUMACellCPU :=
  {| cpu_id := cpu_id c; socket_id := socket_id c; core_id := core_id c;
     siblings := virBitmapSetBit (siblings c) i |}.

(** Lines 156-160: [for (j = 0; j < nr_cpus_node[node]; j++)] from
    index [j] with [steps] iterations left. *)
Fixpoint mark_row (row : list virCapsHostNUMACellCPU) (t : libxl_cputopology)
    (i j steps : nat) : res (list virCapsHostNUMACellCPU) :=
  match steps with
  | O => Ok row
  | S steps' =>
      match row !! j with
      | None => Undefined
      | Some c =>
          mark_row
            (if (socket_id c =? socket t)%N && (core_id c =? core t)%N
             then <[j := set_sibling c i]> row else row)
            t i (S j) steps'
      end
  end.

(** Lines 149-161, from CPU index [i] on. *)
Fixpoint populate_siblings (topo : list libxl_cputopology) (i : nat)
    (arrs : scratch) : res scratch :=
  match topo with
  | [] => Ok arrs
  | t :: rest =>
      if (core t =? LIBXL_CPUTOPOLOGY_INVALID_ENTRY cfg)%N
      then populate_siblings rest (S i) arrs
      else
        let n := N.to_nat (node t) in
        match arrs.2 !! n, arrs.1 !! n with
        | Some k, Some row =>
            match mark_row row t i 0 k with
            | Ok row' => populate_siblings rest (S i) (<[n := row']> arrs.1, arrs.2)
            | Fail => Fail
            | Undefined => Undefined
            | OutOfFuel => OutOfFuel
            end
        | _, _ => Undefined
        end
  end.

(** Lines 163-179, from node index [i] on: [numa] is [numa_info[i..]]. *)
Fixpoint add_cells (numa : list libxl_numainfo) (i : nat) (arrs : scratch)
  : M unit :=
  match numa with
  | [] => ret tt
  | n :: rest =>
      if (size n =? LIBXL_NUMAINFO_INVALID_ENTRY cfg)%N
      then add_cells rest (S i) arrs
      else
        match arrs.2 !! i, arrs.1 !! i with
        | Some k, Some row =>
            virCapabilitiesAddHostNUMACell i (size n / 1024)%N k row ;;
            add_cells rest (S i) arrs
        | _, _ => undefined
        end
  end.

(** Lines 99-181: everything before the [cleanup] label. *)
Definition libxlCapsInitNuma_body (ctx : libxl_ctx) : M unit :=
  match libxl_get_numainfo ctx with
  | None | Some [] => virReportError "libxl_get_numainfo failed" ;; fail
  | Some numa_info =>
      let nr_nodes := length numa_info in
      match libxl_get_cpu_topology ctx with
      | None | Some [] => virReportError "libxl_get_cpu_topology failed" ;; fail
      | Some cpu_topo =>
          let nr_cpus := length cpu_topo in
          (* VIR_ALLOC_N(cpus, nr_nodes) *)
          alloc ;;
          (* VIR_ALLOC_N(nr_cpus_node, nr_nodes) *)
          alloc ;;
          arrs ← prepare_cpus cpu_topo 0 nr_cpus
                   (replicate nr_nodes [], replicate nr_nodes 0%nat) ;
          arrs' ← lift (populate_siblings cpu_topo 0 arrs) ;
          add_cells numa_info 0 arrs'
      end
  end.

(** The whole function: on failure the [cleanup] code releases the
    object's NUMA cells. *)
Definition libxlCapsInitNuma (ctx : libxl_ctx) : M unit :=
  fun s =>
    match libxlCapsInitNuma_body ctx s with
    | (Fail, s') =>
        (Fail, {| caps := virCapabilitiesFreeNUMAInfo (caps s');
                  faults := faults s'; errors := errors s' |})
    | r => r
    end.

(** What the three loops compute, in closed form. *)

(** The core field is not the sentinel. *)
Definition valid_core (t : libxl_cputopology) : bool :=
  negb (core t =? LIBXL_CPUTOPOLOGY_INVALID_ENTRY cfg)%N.

(** The CPU of index [i] belongs to node [n]. *)
Definition on_node (n : nat) (t : libxl_cputopology) : bool :=
  valid_core t && (N.to_nat (node t) =? n)%nat.

Definition new_cpu (i nr_cpus : nat) (t : libxl_cputopology)
  : virCapsHostNUMACellCPU :=
  {| cpu_id := i; socket_id := socket t; core_id := core t;
     siblings := virBitmapNew nr_cpus |}.

(** The CPU list of node [n] after the first loop, for [cpu_topo[i..]]. *)
Fixpoint row_of (topo : list libxl_cputopology) (i nr_cpus n : nat)
  : list virCapsHostNUMACellCPU :=
  match topo with
  | [] => []
  | t :: rest =>
      (if on_node n t then [new_cpu i nr_cpus t] else []) ++
      row_of rest (S i) nr_cpus n
  end.

(** One step of the inner loop of the second pass. *)
Definition mark (t : libxl_cputopology) (i : nat) (c : virCapsHostNUMACellCPU)
  : virCapsHostNUMACellCPU :=
  if (socket_id c =? socket t)%N && (core_id c =? core t)%N
  then set_sibling c i else c.

(** What the second loop does to one entry of node [n]. *)
Fixpoint sib_fold (topo : list libxl_cputopology) (i n : nat)
    (c : virCapsHostNUMACellCPU) : virCapsHostNUMACellCPU :=
  match topo with
  | [] => c
  | t :: rest => sib_fold rest (S i) n (if on_node n t then mark t i c else c)
  end.

(** The CPU list of node [n] when the cells are emitted. *)
Definition node_cpus (topo : list libxl_cputopology) (n : nat)
  : list virCapsHostNUMACellCPU :=
  map (sib_fold topo 0 n) (row_of topo 0 (length topo) n).

(** The cells of the third loop, for [numa_info[i..]]. *)
Fixpoint emitted (numa : list libxl_numainfo) (i : nat)
    (topo : list libxl_cputopology) : list virCapsHostNUMACell :=
  match numa with
  | [] => []
  | n :: rest =>
      (if (size n =? LIBXL_NUMAINFO_INVALID_ENTRY cfg)%N then []
       else [{| cell_num := i; cell_mem := (size n / 1024)%N;
                cell_cpus := node_cpus topo i |}]) ++
      emitted rest (S i) topo
  end.

(** *** libxlCapsInitGuests *)

(** Lines 355-374 and 376-393 add a feature only when its flag is set. *)
Definition feature_if (b : bool) (guest : nat) (name : string)
    (defaultOn toggle : bool) : M unit :=
  if b then virCapabilitiesAddGuestFeature guest name defaultOn toggle
  else ret tt.

(** Lines 326-393: the body of the second loop for [guest_archs[i]]. *)
Definition add_guest (ga : guest_arch) : M unit :=
  let xen_machines := [if ga_hvm ga then "xenfv" else "xenpv"] in
  machines ← virCapabilitiesAllocMachines xen_machines 1 ;
  guest ← virCapabilitiesAddGuest
            (if ga_hvm ga then VIR_DOMAIN_OSTYPE_HVM else VIR_DOMAIN_OSTYPE_XEN)
            (ga_arch ga)
            (LIBXL_EXECBIN_DIR cfg +:+ "/qemu-system-i386")
            (if ga_hvm ga
             then Some (LIBXL_FIRMWARE_DIR cfg +:+ "/hvmloader") else None)
            1 machines ;
  virCapabilitiesAddGuestDomain guest VIR_DOMAIN_VIRT_XEN ;;
  feature_if (ga_pae ga) guest "pae" true false ;;
  feature_if (ga_nonpae ga) guest "nonpae" true false ;;
  feature_if (ga_ia64_be ga) guest "ia64_be" true false ;;
  if ga_hvm ga then
    virCapabilitiesAddGuestFeature guest "acpi" true true ;;
    virCapabilitiesAddGuestFeature guest "apic" true false ;;
    virCapabilitiesAddGuestFeature guest "hap" true true
  else ret tt.

(** Lines 325-394: [for (i = 0; i < nr_guest_archs; ++i)] from index
    [i] with [steps] iterations left. *)
Fixpoint add_guests (archs : list guest_arch) (i steps : nat) : M unit :=
  match steps with
  | O => ret tt
  | S steps' =>
      match archs !! i with
      | None => undefined
      | Some ga => add_guest ga ;; add_guests archs (S i) steps'
      end
  end.

(** The whole function. [regcomp] of the constant pattern succeeds. *)
Definition libxlCapsInitGuests (ctx : libxl_ctx) : M unit :=
  match libxl_get_version_info ctx with
  | None =>
      virReportError "Failed to get version info from libxenlight" ;;
      fail
  | Some ver_info =>
      match capabilities ver_info with
      | None =>
          virReportError "Failed to get capabilities from libxenlight" ;;
          fail
      | Some str =>
          st ← lift (parse_capabilities str) ;
          add_guests (guest_archs st) 0 (nr_guest_archs st)
      end
  end.

(** The emission rule in the words of the specification: the
    GuestCapability of one retained profile. *)
Definition spec_feature (name : string) (toggle : bool) : virCapsGuestFeature :=
  {| feat_name := name; feat_defaultOn := true; feat_toggle := toggle |}.

Definition spec_features (ga : guest_arch) : list virCapsGuestFeature :=
  (if ga_pae ga then [spec_feature "pae" false] else []) ++
  (if ga_nonpae ga then [spec_feature "nonpae" false] else []) ++
  (if ga_ia64_be ga then [spec_feature "ia64_be" false] else []) ++
  (if ga_hvm ga
   then [spec_feature "acpi" true; spec_feature "apic" false; spec_feature "hap" true]
   else []).

Definition spec_guest (ga : guest_arch) : virCapsGuest :=
  {| g_ostype := if ga_hvm ga then VIR_DOMAIN_OSTYPE_HVM else VIR_DOMAIN_OSTYPE_XEN;
     g_arch := ga_arch ga;
     g_emulator := LIBXL_EXECBIN_DIR cfg +:+ "/qemu-system-i386";
     g_loader := if ga_hvm ga
                 then Some (LIBXL_FIRMWARE_DIR cfg +:+ "/hvmloader") else None;
     g_machines := [if ga_hvm ga then "xenfv" else "xenpv"];
     g_domains := [VIR_DOMAIN_VIRT_XEN];
     g_features := spec_features ga |}.

(** *** libxlMakeCapabilities

    The capability object is a reference-counted [virObject] on the
    heap; the builders work on it through the pointer. *)
Record virObject : Type := { refs : nat; obj : virCaps }.

(** The heap of objects, the allocation oracle and the error log. *)
Record world : Type := {
  heap : gmap nat virObject;
  pending : list bool;
  errlog : list string
}.

(** Modelled from the spec: [virCapabilitiesNew] of
    [conf/capabilities.c]; it creates an empty object seeded with the host
    architecture and the two booleans, or returns NULL when the allocation
    fails. *)
Definition virCapabilitiesNew (arch : virArch) (suspend resume : bool)
    (w : world) : option nat * world :=
  match pending w with
  | true :: f => (None, {| heap := heap w; pending := f; errlog := errlog w |})
  | f =>
      let p := fresh (dom (heap w)) in
      (Some p,
       {| heap :=
            <[p := {| refs := 1;
                      obj := {| host_arch := arch;
                                suspend_supported := suspend;
                                resume_supported := resume;
                                host_features := [];
                                host_netprefix := None;
                                host_numaCell := [];
                                guests := [] |} |}]> (heap w);
          pending := tail f;
          errlog := errlog w |})
  end.

(** Modelled from the spec: [virObjectUnref] of [util/virobject.c]; it
    drops one reference and releases the object (with everything attached
    to it) when that was the last one. *)
Definition virObjectUnref (p : nat) (w : world) : world :=
  match heap w !! p with
  | None => w
  | Some o =>
      {| heap := if (refs o =? 1)%nat then delete p (heap w)
                 else <[p := {| refs := pred (refs o); obj := obj o |}]> (heap w);
         pending := pending w;
         errlog := errlog w |}
  end.

(** A builder run on the object that [p] points to. *)
Definition on_object (p : nat) (m : M unit) (w : world) : res unit * world :=
  match heap w !! p with
  | None => (Undefined, w)
  | Some o =>
      let '(r, s) := m {| caps := obj o; faults := pending w; errors := errlog w |} in
      (r, {| heap := <[p := {| refs := refs o; obj := caps s |}]> (heap w);
             pending := faults s;
             errlog := errors s |})
  end.

(** [Ok p] is the returned object, [Fail] the NULL return. *)
Definition libxlMakeCapabilities (ctx : libxl_ctx) (w : world) : res nat * world :=
  let sr := negb (LIBXL_HAVE_NO_SUSPEND_RESUME cfg) in
  match virCapabilitiesNew (virArchFromHost cfg) sr sr w with
  | (None, w0) => (Fail, w0)
  | (Some caps, w0) =>
      let error (r : res unit) (w' : world) : res nat * world :=
        match r with
        | Fail => (Fail, virObjectUnref caps w')
        | Undefined => (Undefined, w')
        | _ => (OutOfFuel, w')
        end in
      match on_object caps (libxlCapsInitHost ctx) w0 with
      | (Ok _, w1) =>
          match on_object caps (libxlCapsInitNuma ctx) w1 with
          | (Ok _, w2) =>
              match on_object caps (libxlCapsInitGuests ctx) w2 with
              | (Ok _, w3) => (Ok caps, w3)
              | (r, w3) => error r w3
              end
          | (r, w2) => error r w2
          end
      | (r, w1) => error r w1
      end
  end.

(** The object that [virCapabilitiesNew] creates for this build. *)
Definition new_caps : virCaps :=
  {| host_arch := virArchFromHost cfg;
     suspend_supported := negb (LIBXL_HAVE_NO_SUSPEND_RESUME cfg);
     resume_supported := negb (LIBXL_HAVE_NO_SUSPEND_RESUME cfg);
     host_features := []; host_netprefix := None; host_numaCell := [];
     guests := [] |}.

(** The world around a builder's state, with the given heap. *)
Definition world_of (h : gmap nat virObject) (s : bstate) : world :=
  {| heap := h; pending := faults s; errlog := errors s |}.

End Builders.

(** *** libxlDomainGetEmulatorType *)

(** The fields of [virDomainDef] the function reads. *)
Record virDomainDef : Type := {
  os_type : virDomainOSType;
  emulator : option string
}.

(** The file system and process layer: [virFileExists], and
    [virCommandRun] with the output buffer set ([None]: the run failed,
    by a spawn error or a non-zero exit status). *)
Record os_env : Type := {
  virFileExists : string -> bool;
  virCommandRun : string -> list string -> option string
}.

Definition libxlDomainGetEmulatorType (env : os_env) (def : virDomainDef)
  : libxl_device_model_version :=
  let ret := LIBXL_DEVICE_MODEL_VERSION_QEMU_XEN in
  if bool_decide (os_type def = VIR_DOMAIN_OSTYPE_HVM) then
    match emulator def with
    | Some path =>
        if negb (virFileExists env path) then ret
        else
          match virCommandRun env path ["-help"] with
          | None => ret
          | Some output =>
              if strstr output LIBXL_QEMU_DM_STR
              then LIBXL_DEVICE_MODEL_VERSION_QEMU_XEN_TRADITIONAL
              else ret
          end
    | None => ret
    end
  else ret.

End Libxl.

(** ** nodeinfo.c: linuxNodeInfoCPUPopulate *)
Module NodeInfo.

(** The counters of [virNodeInfo] that the function sets. The structure is
    declared in [libvirt.h]; the counters are taken as natural numbers. *)
Record virNodeInfo : Type := {
  cpus : N;
  mhz : N;
  nodes : N;
  sockets : N;
  cores : N;
  threads : N
}.

Definition NUL : ascii := Ascii.zero.

Definition chars (s : string) : list ascii := list_ascii_of_string s.

(** [sizeof(line)] for [char line[1024]]. *)
Definition sizeof_line : nat := 1024.

(** [c_isspace] of gnulib's [c-ctype.h]: space, \t, \n, \v, \f, \r. *)
Definition c_isspace (c : ascii) : bool :=
  let n := nat_of_ascii c in
  (n =? 32)%nat || ((9 <=? n)%nat && (n <=? 13)%nat).

(** What [fgets] takes from the stream: at most [n] characters, ending
    after the first newline. *)
Fixpoint read_chunk (n : nat) (f : list ascii) : list ascii * list ascii :=
  match n, f with
  | S n', c :: r =>
      if Ascii.eqb c "010" then ([c], r)
      else let '(l, r') := read_chunk n' r in (c :: l, r')
  | _, _ => ([], f)
  end.

(** [fgets(line, size, f)]: [None] is the NULL return at the end of the
    stream; otherwise [line] with the chunk and its terminator stored at
    the front (the rest of the array keeps what it held), and the rest of
    the stream. *)
Definition fgets (line : list ascii) (size : nat) (f : list ascii)
  : option (list ascii * list ascii) :=
  match f with
  | [] => None
  | _ =>
      let '(chunk, rest) := read_chunk (size - 1) f in
      Some (chunk ++ NUL :: drop (S (length chunk)) line, rest)
  end.

(** The characters of [l] up to the terminator; [None] when there is no
    terminator in [l]. *)
Fixpoint until_nul (l : list ascii) : option (list ascii) :=
  match l with
  | [] => None
  | c :: r => if Ascii.eqb c NUL then Some [] else (cons c) <$> until_nul r
  end.

(** The C string at [line + k]; [Undefined] when it runs off the array. *)
Definition cstr (line : list ascii) (k : nat) : res (list ascii) :=
  match until_nul (drop k line) with
  | Some s => Ok s
  | None => Undefined
  end.

(** [STRPREFIX(buf, lit)] on a C string. *)
Fixpoint STRPREFIX (buf lit : list ascii) : bool :=
  match lit, buf with
  | [], _ => true
  | cl :: rl, cb :: rb => if Ascii.eqb cb cl then STRPREFIX rb rl else false
  | _ :: _, [] => false
  end.

(** [while ( *buf && c_isspace( *buf)) buf++;] *)
Fixpoint skip_space (buf : list ascii) : list ascii :=
  match buf with
  | c :: r => if c_isspace c then skip_space r else buf
  | [] => []
  end.

(** [*buf]: the end of a C string reads as the terminator. *)
Definition deref (buf : list ascii) : ascii := hd NUL buf.

Section Populate.

(** [virStrToLong_ui(s, &p, 10, &result)] of [util.c]: [None] is the -1
    return; otherwise the value and the string at [p]. *)
Variable virStrToLong_ui : list ascii -> option (N * list ascii).

(** The locals: the structure being filled and the [line] array. *)
Record pstate : Type := { nodeinfo : virNodeInfo; line : list ascii }.

Definition set_cpus (v : N) (ni : virNodeInfo) : virNodeInfo :=
  {| cpus := v; mhz := mhz ni; nodes := nodes ni; sockets := sockets ni;
     cores := cores ni; threads := threads ni |}.

Definition set_mhz (v : N) (ni : virNodeInfo) : virNodeInfo :=
  {| cpus := cpus ni; mhz := v; nodes := nodes ni; sockets := sockets ni;
     cores := cores ni; threads := threads ni |}.

Definition set_cores (v : N) (ni : virNodeInfo) : virNodeInfo :=
  {| cpus := cpus ni; mhz := mhz ni; nodes := nodes ni; sockets := sockets ni;
     cores := v; threads := threads ni |}.

Definition set_sockets (v : N) (ni : virNodeInfo) : virNodeInfo :=
  {| cpus := cpus ni; mhz := mhz ni; nodes := nodes ni; sockets := v;
     cores := cores ni; threads := threads ni |}.

(** Lines 67-111: the body of the loop, for the line just read. *)
Definition line_body (ni : virNodeInfo) (line : list ascii) : res virNodeInfo :=
  match cstr line 0 with
  | Ok buf =>
      if STRPREFIX buf (chars "processor") then
        (* buf += 9 *)
        let buf := skip_space (drop 9 buf) in
        if negb (Ascii.eqb (deref buf) ":") then Fail
        else Ok (set_cpus (cpus ni + 1) ni)
      else if STRPREFIX buf (chars "cpu MHz") then
        (* buf += 9, which may lie beyond the terminator of this line *)
        match cstr line 9 with
        | Ok buf =>
            let buf := skip_space buf in
            if negb (Ascii.eqb (deref buf) ":") || Ascii.eqb (deref (tail buf)) NUL
            then Fail
            else
              match virStrToLong_ui (tail buf) with
              | Some (ui, p) =>
                  if Ascii.eqb (deref p) NUL || Ascii.eqb (deref p) "."
                     || c_isspace (deref p)
                  then Ok (set_mhz ui ni) else Ok ni
              | None => Ok ni
              end
        | Fail => Fail
        | Undefined => Undefined
        | OutOfFuel => OutOfFuel
        end
      else if STRPREFIX buf (chars "cpu cores") then
        (* buf += 9 *)
        let buf := skip_space (drop 9 buf) in
        if negb (Ascii.eqb (deref buf) ":") || Ascii.eqb (deref (tail buf)) NUL
        then Fail
        else
          match virStrToLong_ui (tail buf) with
          | Some (id, p) =>
              if (Ascii.eqb (deref p) NUL || c_isspace (deref p))
                 && (cores ni <? id)%N
              then Ok (set_cores id ni) else Ok ni
          | None => Ok ni
          end
      else Ok ni
  | Fail => Fail
  | Undefined => Undefined
  | OutOfFuel => OutOfFuel
  end.

(** Lines 66-112: [while (fgets(line, sizeof(line), cpuinfo) != NULL)]. *)
Fixpoint read_loop (fuel : nat) (cpuinfo : list ascii) (st : pstate)
  : res virNodeInfo :=
  match fuel with
  | O => OutOfFuel
  | S fuel' =>
      match fgets (line st) sizeof_line cpuinfo with
      | None => Ok (nodeinfo st)
      | Some (line', rest) =>
          match line_body (nodeinfo st) line' with
          | Ok ni => read_loop fuel' rest {| nodeinfo := ni; line := line' |}
          | r => r
          end
      end
  end.

(** The whole function, on the stream [cpuinfo]. [line0] is what the
    [line] array holds on entry. Every [fgets] takes at least one
    character, so the length of the stream bounds the number of rounds. *)
Definition linuxNodeInfoCPUPopulate (line0 : list ascii) (cpuinfo : list ascii)
  : res virNodeInfo :=
  let ni := {| cpus := 0; mhz := 0; nodes := 1; sockets := 1; cores := 1;
               threads := 1 |} in
  match read_loop (S (length cpuinfo)) cpuinfo {| nodeinfo := ni; line := line0 |} with
  | Ok ni =>
      if (cpus ni =? 0)%N then Fail
      else Ok (set_sockets (cpus ni / cores ni)%N ni)
  | r => r
  end.

(** *** The lines of a stream, and what they say

    The chunks that successive [fgets] calls deliver, each as the C string
    the code sees (cut at its first terminator). *)
Fixpoint chunks_upto (fuel : nat) (cpuinfo : list ascii) : list (list ascii) :=
  match fuel with
  | O => []
  | S fuel' =>
      match cpuinfo with
      | [] => []
      | _ =>
          let '(chunk, rest) := read_chunk (sizeof_line - 1) cpuinfo in
          default [] (until_nul (chunk ++ [NUL])) :: chunks_upto fuel' rest
      end
  end.

Definition lines (cpuinfo : list ascii) : list (list ascii) :=
  chunks_upto (S (length cpuinfo)) cpuinfo.

(** A "processor" line. *)
Definition is_processor_line (l : list ascii) : bool :=
  STRPREFIX l (chars "processor").

(** The number of "processor" lines. *)
Definition processor_lines (ls : list (list ascii)) : N :=
  N.of_nat (length (List.filter is_processor_line ls)).

(** The value of a "cpu cores" line: the number after the colon, when
    [virStrToLong_ui] reads one that ends the line or is followed by
    white space. *)
Definition cpu_cores_value (l : list ascii) : option N :=
  if STRPREFIX l (chars "cpu cores") then
    match virStrToLong_ui (tail (skip_space (drop 9 l))) with
    | Some (id, p) =>
        if Ascii.eqb (deref p) NUL || c_isspace (deref p) then Some id else None
    | None => None
    end
  else None.

(** The largest "cpu cores" value of the lines, and at least [floor]. *)
Definition max_cores (floor : N) (ls : list (list ascii)) : N :=
  fold_left (fun m l => match cpu_cores_value l with
                        | Some id => N.max m id
                        | None => m
                        end) ls floor.

End Populate.
End NodeInfo.


(** ** Sample inputs *)
Module Examples.
Import Caps Libxl NodeInfo.

Definition cfg : build_config :=
  {| LIBXL_CPUTOPOLOGY_INVALID_ENTRY := 4294967295;
     LIBXL_NUMAINFO_INVALID_ENTRY := 4294967295;
     LIBXL_GENERATED_PREFIX_XEN := "vif";
     LIBXL_EXECBIN_DIR := "/usr/lib/xen/bin";
     LIBXL_FIRMWARE_DIR := "/usr/lib/xen/boot";
     LIBXL_HAVE_NO_SUSPEND_RESUME := false;
     virArchFromHost := VIR_ARCH_X86_64 |}.

Definition ver : libxl_version_info :=
  {| capabilities := Some "xen-3.0-x86_32p xen-3.0-x86_32 hvm-3.0-x86_64" |}.

Definition ver_no_capabilities : libxl_version_info :=
  {| capabilities := None |}.

Definition ver_no_match : libxl_version_info :=
  {| capabilities := Some "  xen-3.0 hvm-x86_64 " |}.

Definition phy : libxl_physinfo := {| hw_cap := [0x40%N; 0%N] |}.

(** Three nodes, the second without memory; six CPUs, the fifth offline. *)
Definition numa : list libxl_numainfo :=
  [ {| size := 2048 |}; {| size := 4294967295 |}; {| size := 4096 |} ].

Definition topo : list libxl_cputopology :=
  [ {| core := 0; socket := 0; node := 0 |};
    {| core := 0; socket := 0; node := 0 |};
    {| core := 1; socket := 0; node := 0 |};
    {| core := 0; socket := 0; node := 1 |};
    {| core := 4294967295; socket := 0; node := 2 |};
    {| core := 0; socket := 0; node := 2 |} ].

Definition ctx_with (v : libxl_version_info) : libxl_ctx :=
  {| libxl_get_physinfo := Some phy;
     libxl_get_numainfo := Some numa;
     libxl_get_cpu_topology := Some topo;
     libxl_get_version_info := Some v |}.

Definition ctx : libxl_ctx := ctx_with ver.

Definition start : bstate :=
  {| caps := new_caps cfg; faults := []; errors := [] |}.

Definition empty_world : world :=
  {| heap := ∅; pending := []; errlog := [] |}.

(** The states a build passes through when the toolstack has no
    capabilities string: after the host probe, after the NUMA builder,
    and after the parser has failed. *)
Definition after_host : bstate :=
  Eval vm_compute in
    (libxlCapsInitHost cfg (ctx_with ver_no_capabilities) start).2.

Definition after_numa : bstate :=
  Eval vm_compute in
    (libxlCapsInitNuma cfg (ctx_with ver_no_capabilities) after_host).2.

Definition after_guests : bstate :=
  Eval vm_compute in
    (libxlCapsInitGuests cfg (ctx_with ver_no_capabilities) after_numa).2.

Definition hvm_def : virDomainDef :=
  {| os_type := VIR_DOMAIN_OSTYPE_HVM; emulator := Some "/usr/lib/xen/bin/qemu-dm" |}.

Definition env : os_env :=
  {| virFileExists := fun _ => true;
     virCommandRun := fun _ _ =>
       Some "QEMU PC emulator version 0.10.2
Options specific to the Xen version:
-vcpus set CPU number of guest platform
" |}.

(** A reader of one decimal digit, standing in for [virStrToLong_ui]. *)
Definition one_digit (s : list ascii) : option (N * list ascii) :=
  match skip_space s with
  | c :: r =>
      let n := nat_of_ascii c in
      if (48 <=? n)%nat && (n <=? 57)%nat then Some (N.of_nat (n - 48), r) else None
  | [] => None
  end.

Definition cpuinfo : list ascii :=
  chars "processor	: 0
cpu MHz		: 2
cpu cores	: 4
processor	: 1
cpu cores	: 2
".

End Examples.
(** ** Further notions for the parser *)
Module ParserNotions.
Import CStr Regex GuestArchs.

(** Every group [n] of [r] encloses an expression that only matches
    strings with the property [P n]. *)
Fixpoint groups_match (P : nat -> string -> Prop) (r : regex) : Prop :=
  match r with
  | Lit _ | Digits1 => True
  | Seq a b | Alt a b => groups_match P a /\ groups_match P b
  | Opt a => groups_match P a
  | Group n a =>
      (forall cur c, In c (matches a cur) -> P n cur.1.1) /\ groups_match P a
  end.

(** Group [n] takes part in every match of [r]. *)
Fixpoint has_group (n : nat) (r : regex) : bool :=
  match r with
  | Lit _ | Digits1 | Opt _ => false
  | Seq a b => has_group n a || has_group n b
  | Alt a b => has_group n a && has_group n b
  | Group m a => (m =? n)%nat || has_group n a
  end.

(** What the groups of [XEN_CAP_REGEX] enclose. *)
Definition xen_cap_group (n : nat) (s : string) : Prop :=
  match n with
  | 1 => STRPREFIX s "xen" = true \/ STRPREFIX s "hvm" = true
  | 2 => STRPREFIX s "aarch64" = true \/ STRPREFIX s "armv7l" = true \/
         STRPREFIX s "x86_32" = true \/ STRPREFIX s "x86_64" = true \/
         STRPREFIX s "ia64" = true \/ STRPREFIX s "powerpc64" = true
  | 3 => STRPREFIX s "p" = true \/ STRPREFIX s "be" = true
  | _ => True
  end.

(** The tokens, each followed by one space. *)
Fixpoint join_tokens (toks : list string) : string :=
  match toks with
  | [] => ""
  | t :: rest => t +:+ " " +:+ join_tokens rest
  end.

Fixpoint has_space (s : string) : bool :=
  match s with
  | EmptyString => false
  | String c r => Ascii.eqb c " " || has_space r
  end.

(** What a token can be: not empty, no space inside. *)
Definition is_token (t : string) : Prop := t <> "" /\ has_space t = false.

(** What the flags of a profile say about its architecture. *)
Definition profile_ok (g : guest_arch) : Prop :=
  ga_arch g <> VIR_ARCH_NONE /\
  ga_bits g = 0%Z /\
  (ga_arch g = VIR_ARCH_I686 -> ga_pae g = true \/ ga_nonpae g = true) /\
  (ga_pae g = true \/ ga_nonpae g = true -> ga_arch g = VIR_ARCH_I686) /\
  (ga_ia64_be g = true -> ga_arch g = VIR_ARCH_ITANIUM).

End ParserNotions.

(** ** Where the flags of a profile come from *)
Module ProfileNotions.
Import CStr Regex GuestArchs.

(** Some token of [toks] decodes to the tuple of [g] and satisfies [sets]. *)
Definition some_token (toks : list string) (g : guest_arch)
    (sets : decoded -> Prop) : Prop :=
  exists token d, In token toks /\ decode_token token = Some d /\
    tuple g = (d_arch d, d_hvm d) /\ sets d.

(** The profile [g] holds nothing that no token of [toks] said. *)
Definition from_tokens (toks : list string) (g : guest_arch) : Prop :=
  some_token toks g (fun _ => True) /\
  (ga_pae g = true -> some_token toks g (fun d => d_pae d = true)) /\
  (ga_nonpae g = true -> some_token toks g (fun d => d_nonpae d = true)) /\
  (ga_ia64_be g = true -> some_token toks g (fun d => d_ia64_be d = true)).

(** The profile [g] is what the tokens of [toks] with its tuple say
    together: nothing more, nothing less. *)
Definition says (toks : list string) (g : guest_arch) : Prop :=
  from_tokens toks g /\ ga_bits g = 0%Z /\
  forall token d, In token toks -> decode_token token = Some d ->
    tuple g = (d_arch d, d_hvm d) -> covers g d.

End ProfileNotions.

(** ** The calls made through the guest pointer *)
Module BuilderNotions.
Import Caps.

(** On an object whose guests are [pre] followed by [g], the builder [m]
    either succeeds, leaving [f g] in the place of [g], or fails, leaving
    some guest there; nothing else of the object changes. *)
Definition updates_last (pre : list virCapsGuest)
    (f : virCapsGuest -> virCapsGuest) (m : M unit) : Prop :=
  forall s g r s', guests (caps s) = pre ++ [g] -> m s = (r, s') ->
    (r = Ok tt /\ caps s' = set_guests (pre ++ [f g]) (caps s)) \/
    (r = Fail /\ exists g', caps s' = set_guests (pre ++ [g']) (caps s)).

(** What identifies a guest in the capabilities: its OS type and its
    architecture. *)
Definition guest_key (g : virCapsGuest) : virDomainOSType * virArch :=
  (g_ostype g, g_arch g).

End BuilderNotions.

(** ** What a NUMA builder may change *)
Module NumaNotions.
Import Caps Libxl.

(** The builder [m] changes nothing of the object but its NUMA cells, and
    its loops end. *)
Definition keeps_but_cells {A} (m : M A) : Prop :=
  forall s,
    (forall l, set_host_numaCell l (caps (m s).2) = set_host_numaCell l (caps s)) /\
    (m s).1 <> OutOfFuel.

(** The CPU indices that the topology places on node [n], in order. *)
Definition cpus_on_node (cfg : build_config) (topo : list libxl_cputopology)
    (n : nat) : list nat :=
  List.filter
    (fun i => match topo !! i with
              | Some t => on_node cfg n t
              | None => false
              end)
    (seq 0 (length topo)).

End NumaNotions.

(** ** More example inputs *)
Module MoreExamples.
Import Caps Libxl.

(** A topology that places CPU 1 on a node that [numa] does not have. *)
Definition topo_outside : list libxl_cputopology :=
  [ {| core := 0; socket := 0; node := 0 |};
    {| core := 0; socket := 0; node := 7 |} ].

Definition ctx_outside : libxl_ctx :=
  {| libxl_get_physinfo := Some Examples.phy;
     libxl_get_numainfo := Some Examples.numa;
     libxl_get_cpu_topology := Some topo_outside;
     libxl_get_version_info := Some Examples.ver |}.

End MoreExamples.

(** ** The lines of /proc/cpuinfo, one by one *)
Module CpuinfoNotions.
Import NodeInfo.

Section Lines.
Variable virStrToLong_ui : list ascii -> option (N * list ascii).

(** After the key and white space stands a colon. *)
Definition colon_after_key (l : list ascii) : bool :=
  Ascii.eqb (deref (skip_space (drop 9 l))) ":".

(** Something follows that colon. *)
Definition value_after_colon (l : list ascii) : bool :=
  negb (Ascii.eqb (deref (tail (skip_space (drop 9 l)))) NUL).

(** The line does not take one of the [return -1] of lines 76, 89 and
    105. *)
Definition line_ok (l : list ascii) : bool :=
  if STRPREFIX l (chars "processor") then colon_after_key l
  else if STRPREFIX l (chars "cpu MHz") || STRPREFIX l (chars "cpu cores")
       then colon_after_key l && value_after_colon l
       else true.

(** The value of a "cpu MHz" line: the number after the colon, when
    [virStrToLong_ui] reads one that ends the line or is followed by a
    point or white space. *)
Definition mhz_value (l : list ascii) : option N :=
  if STRPREFIX l (chars "cpu MHz") then
    match virStrToLong_ui (tail (skip_space (drop 9 l))) with
    | Some (ui, p) =>
        if Ascii.eqb (deref p) NUL || Ascii.eqb (deref p) "." || c_isspace (deref p)
        then Some ui else None
    | None => None
    end
  else None.

(** The last "cpu MHz" value of the lines, [floor] when there is none. *)
Definition last_mhz (floor : N) (ls : list (list ascii)) : N :=
  fold_left (fun m l => match mhz_value l with
                        | Some v => v
                        | None => m
                        end) ls floor.

(** What a line that is accepted does to the counters. *)
Definition line_step (ni : virNodeInfo) (l : list ascii) : virNodeInfo :=
  {| cpus := cpus ni + (if is_processor_line l then 1 else 0);
     mhz := match mhz_value l with
            | Some v => v
            | None => mhz ni
            end;
     nodes := nodes ni;
     sockets := sockets ni;
     cores := match cpu_cores_value virStrToLong_ui l with
              | Some id => N.max (cores ni) id
              | None => cores ni
              end;
     threads := threads ni |}.

(** Lines 83-94: the "cpu MHz" branch from its [while] on, [buf] being
    the string at the pointer after [buf += 9]. *)
Definition mhz_after (ni : virNodeInfo) (buf : list ascii) : res virNodeInfo :=
  let buf := skip_space buf in
  if negb (Ascii.eqb (deref buf) ":") || Ascii.eqb (deref (tail buf)) NUL
  then Fail
  else
    match virStrToLong_ui (tail buf) with
    | Some (ui, p) =>
        if Ascii.eqb (deref p) NUL || Ascii.eqb (deref p) "."
           || c_isspace (deref p)
        then Ok (set_mhz ui ni) else Ok ni
    | None => Ok ni
    end.

End Lines.
End CpuinfoNotions.

(** ** nodeinfo.c: virCapsInitNUMA *)
Module NodeNuma.

(** The build and the libnuma library, as the answers its calls give.
    [numa_node_to_cpus node bytes] is the content that the call leaves in
    the buffer of [bytes] bytes, as 64-bit words; [None] is a negative
    return. [numa_max_node()] answers the same at every call. *)
Record libnuma : Type := {
  HAVE_NUMACTL : bool;
  NUMA_MAX_N_CPUS : nat;
  numa_available : bool;
  numa_max_node : Z;
  numa_node_to_cpus : nat -> nat -> option (list N)
}.

(** [n_bits( *mask)] for [uint64_t *mask]. *)
Definition n_bits : nat := 64.

(** [MASK_CPU_ISSET(mask, cpu)]; [Undefined] when the word lies outside
    the mask. *)
Definition MASK_CPU_ISSET (mask : list N) (cpu : nat) : res bool :=
  match mask !! (cpu / n_bits) with
  | Some w => Ok (negb (N.land (N.shiftr w (N.of_nat (cpu mod n_bits))) 1 =? 0)%N)
  | None => Undefined
  end.

(** Lines 215-217: [for (ncpus = 0, i = 0 ; i < max_n_cpus ; i++)], from
    index [i] with [steps] iterations left. *)
Fixpoint count_cpus (mask : list N) (i steps ncpus : nat) : res nat :=
  match steps with
  | O => Ok ncpus
  | S steps' =>
      match MASK_CPU_ISSET mask i with
      | Ok b => count_cpus mask (S i) steps' (if b then S ncpus else ncpus)
      | Fail => Fail
      | Undefined => Undefined
      | OutOfFuel => OutOfFuel
      end
  end.

(** Lines 222-224: the second loop, which stores [cpus[ncpus++] = i]. *)
Fixpoint fill_cpus (mask : list N) (i steps : nat) (cpus : list nat) (ncpus : nat)
  : res (list nat * nat) :=
  match steps with
  | O => Ok (cpus, ncpus)
  | S steps' =>
      match MASK_CPU_ISSET mask i with
      | Ok true =>
          if (ncpus <? length cpus)%nat
          then fill_cpus mask (S i) steps' (<[ncpus := i]> cpus) (S ncpus)
          else Undefined
      | Ok false => fill_cpus mask (S i) steps' cpus ncpus
      | Fail => Fail
      | Undefined => Undefined
      | OutOfFuel => OutOfFuel
      end
  end.

(** The calls [virCapabilitiesAddHostNUMACell(caps, n, ncpus, cpus)] that
    returned success, in order, and the allocation oracle: each
    allocating call ([VIR_ALLOC_N] and the cell call itself) takes the
    head, [true] meaning that it fails. *)
Record nstate : Type := {
  cells : list (nat * nat * list nat);
  nfaults : list bool
}.

(** An allocating call: [true] when it succeeds. *)
Definition nalloc (s : nstate) : bool * nstate :=
  match nfaults s with
  | [] => (true, s)
  | b :: f => (negb b, {| cells := cells s; nfaults := f |})
  end.

(** Lines 209-233: [for (n = 0 ; n <= numa_max_node() ; n++)], from node
    [n] with [steps] iterations left. *)
Fixpoint node_loop (lib : libnuma) (mask_n_bytes n steps : nat) (s : nstate)
  : res unit * nstate :=
  match steps with
  | O => (Ok tt, s)
  | S steps' =>
      match numa_node_to_cpus lib n mask_n_bytes with
      | None => (Fail, s)
      | Some mask =>
          match count_cpus mask 0 (NUMA_MAX_N_CPUS lib) 0 with
          | Ok ncpus =>
              (* VIR_ALLOC_N(cpus, ncpus) *)
              let '(ok, s1) := nalloc s in
              if ok then
                match fill_cpus mask 0 (NUMA_MAX_N_CPUS lib) (replicate ncpus 0) 0 with
                | Ok (cpus, ncpus') =>
                    let '(ok', s2) := nalloc s1 in
                    if ok'
                    then node_loop lib mask_n_bytes (S n) steps'
                           {| cells := cells s2 ++ [(n, ncpus', cpus)];
                              nfaults := nfaults s2 |}
                    else (Fail, s2)
                | Fail => (Fail, s1)
                | Undefined => (Undefined, s1)
                | OutOfFuel => (OutOfFuel, s1)
                end
              else (Fail, s1)
          | Fail => (Fail, s)
          | Undefined => (Undefined, s)
          | OutOfFuel => (OutOfFuel, s)
          end
      end
  end.

(** The whole function: [Ok tt] is the return of 0, [Fail] that of -1. *)
Definition virCapsInitNUMA (lib : libnuma) (s : nstate) : res unit * nstate :=
  if negb (HAVE_NUMACTL lib) then (Ok tt, s)
  else if negb (numa_available lib) then (Ok tt, s)
  else
    let mask_n_bytes := NUMA_MAX_N_CPUS lib / 8 in
    (* VIR_ALLOC_N(mask, mask_n_bytes / sizeof *mask) *)
    let '(ok, s1) := nalloc s in
    if ok
    then node_loop lib mask_n_bytes 0 (Z.to_nat (numa_max_node lib + 1)) s1
    else (Fail, s1).

(** The CPUs that a mask names, below [max], in order. *)
Definition mask_bit (mask : list N) (cpu : nat) : bool :=
  N.testbit (mask !!! (cpu / n_bits)) (N.of_nat (cpu mod n_bits)).

Definition mask_cpus (mask : list N) (max : nat) : list nat :=
  List.filter (mask_bit mask) (seq 0 max).

(** The cell call for node [n]. *)
Definition cell_call (lib : libnuma) (n : nat) : nat * nat * list nat :=
  let cpus := mask_cpus (default [] (numa_node_to_cpus lib n (NUMA_MAX_N_CPUS lib / 8)))
                (NUMA_MAX_N_CPUS lib) in
  (n, length cpus, cpus).

(** The library fills the buffer it is given and no more. *)
Definition fills_buffer (lib : libnuma) : Prop :=
  forall n bytes mask,
    numa_node_to_cpus lib n bytes = Some mask -> length mask = bytes / 8.

End NodeNuma.

Module NumaExamples.
Import NodeNuma.

(** Two nodes, CPUs 0, 1 and 65 on the first, CPU 2 on the second. *)
Definition lib : libnuma :=
  {| HAVE_NUMACTL := true;
     NUMA_MAX_N_CPUS := 128;
     numa_available := true;
     numa_max_node := 1;
     numa_node_to_cpus := fun n bytes =>
       Some (resize (bytes / 8) 0%N (match n with
                                    | O => [3%N; 2%N]
                                    | _ => [4%N]
                                    end)) |}.

(** The same with a CPU limit that is no multiple of 64. *)
Definition lib_100 : libnuma :=
  {| HAVE_NUMACTL := true;
     NUMA_MAX_N_CPUS := 100;
     numa_available := true;
     numa_max_node := 1;
     numa_node_to_cpus := numa_node_to_cpus lib |}.

Definition no_cells : nstate := {| cells := []; nfaults := [] |}.

End NumaExamples.

(** ** nodeinfo.c: virNodeInfoPopulate *)
Module NodePopulate.
Import NodeInfo.

(** The build and the operating system, as the answers its calls give:
    [uname] is [info.machine] ([None]: the call failed), [fopen_cpuinfo]
    the content of /proc/cpuinfo ([None]: [fopen] returned NULL),
    [physmem_kb] the value that [physmem_total () / 1024] stores, and
    [stack] what the [line] array of [linuxNodeInfoCPUPopulate] holds on
    entry. [sizeof_model] is the size of the [model] array, declared in
    [libvirt.h]. *)
Record node_env : Type := {
  HAVE_UNAME : bool;
  linux : bool;
  sizeof_model : nat;
  uname : option (list ascii);
  fopen_cpuinfo : option (list ascii);
  physmem_kb : N;
  stack : list ascii
}.

(** [virNodeInfo] with the two fields that this function sets itself. *)
Record node_info : Type := {
  model : list ascii;
  memory : N;
  counts : virNodeInfo
}.

(** [strncpy(dst, src, n)], [src] the characters of a C string: [n]
    characters are stored, terminators once [src] is used up. *)
Fixpoint strncpy (dst src : list ascii) (n : nat) : list ascii :=
  match n, dst with
  | O, _ => dst
  | S n', d :: dst' =>
      match src with
      | [] => NUL :: strncpy dst' [] n'
      | c :: src' => c :: strncpy dst' src' n'
      end
  | S _, [] => []
  end.

Section Populate.
Variable virStrToLong_ui : list ascii -> option (N * list ascii).
Variable env : node_env.

(** Lines 135-151. *)
Definition set_model (ni : node_info) : res node_info :=
  if HAVE_UNAME env then
    match uname env with
    | None => Fail
    | Some machine =>
        Ok {| model := <[sizeof_model env - 1 := NUL]>
                         (strncpy (model ni) machine (sizeof_model env - 1));
              memory := memory ni; counts := counts ni |}
    end
  else Ok {| model := <[0 := NUL]> (model ni);
             memory := memory ni; counts := counts ni |}.

(** The whole function; [Ok] is the return of 0 with the structure as
    filled, [Fail] that of -1 (what the structure holds then is left
    open). *)
Definition virNodeInfoPopulate (ni : node_info) : res node_info :=
  match set_model ni with
  | Ok ni1 =>
      if linux env then
        match fopen_cpuinfo env with
        | None => Fail
        | Some cpuinfo =>
            match linuxNodeInfoCPUPopulate virStrToLong_ui (stack env) cpuinfo with
            | Ok c =>
                Ok {| model := model ni1; memory := physmem_kb env; counts := c |}
            | Fail => Fail
            | Undefined => Undefined
            | OutOfFuel => OutOfFuel
            end
        end
      else Fail
  | r => r
  end.

End Populate.

(** An x86_64 machine with the sample /proc/cpuinfo. *)
Definition sample_env : node_env :=
  {| HAVE_UNAME := true; linux := true; sizeof_model := 32;
     uname := Some (chars "x86_64");
     fopen_cpuinfo := Some Examples.cpuinfo;
     physmem_kb := 8388608;
     stack := replicate 1024 "x"%char |}.

Definition blank_info : node_info :=
  {| model := replicate 32 "?"%char; memory := 0;
     counts := {| cpus := 0; mhz := 0; nodes := 0; sockets := 0; cores := 0;
                  threads := 0 |} |}.

End NodePopulate.

(** * Properties *)

(** ** The token loop *)
Module GuestArchsFacts.
Import CStr Regex GuestArchs.

Lemma skip_delim_length (s : string) :
  String.length (skip_delim s) <= String.length s.
Proof.
  induction s as [|c r IH]; simpl; [lia|].
  destruct (Ascii.eqb c " "); simpl; lia.
Qed.

Lemma cut_token_length (s : string) :
  String.length (cut_token s).2 <= Nat.pred (String.length s).
Proof.
  induction s as [|c r IH]; simpl; [lia|].
  destruct (Ascii.eqb c " "); simpl; [lia|].
  destruct (cut_token r) as [t rest]; simpl in *. lia.
Qed.

(** Every token takes at least one character off the string. *)
Lemma strtok_r_shorter (s token saveptr : string) :
  strtok_r s = Some (token, saveptr) ->
  String.length saveptr < String.length s.
Proof.
  unfold strtok_r. intros H.
  pose proof (skip_delim_length s) as Hs.
  destruct (skip_delim s) as [|c r] eqn:E; [discriminate|].
  assert (H' : cut_token (String c r) = (token, saveptr)) by congruence.
  pose proof (cut_token_length (String c r)) as Hc.
  rewrite H' in Hc. simpl in *. lia.
Qed.

(** The fuel of [tokens] is enough: more of it finds no more tokens. *)
Lemma tokens_upto_enough (fuel : nat) (s : string) :
  String.length s < fuel -> tokens_upto fuel s = tokens s.
Proof.
  unfold tokens.
  assert (G : forall f1 f2 s, String.length s < f1 -> String.length s < f2 ->
              tokens_upto f1 s = tokens_upto f2 s).
  { clear. induction f1 as [|f1 IH]; intros f2 s H1 H2; [lia|].
    destruct f2 as [|f2]; [lia|]. simpl.
    destruct (strtok_r s) as [[t r]|] eqn:E; [|reflexivity].
    apply strtok_r_shorter in E. f_equal. apply IH; lia. }
  intros H. apply G; lia.
Qed.

(** [regexec] searches: a token matches when the pattern occurs anywhere
    in it, and the suffix group is read only as "p" or "be". *)
Example decode_token_inside :
  decode_token "zzhvm-13.10-ia64bex" =
    Some {| d_arch := VIR_ARCH_ITANIUM; d_hvm := true; d_pae := false;
            d_nonpae := false; d_ia64_be := true |}.
Proof. reflexivity. Qed.

Example decode_token_x86_32be :
  decode_token "xen-3.0-x86_32be" =
    Some {| d_arch := VIR_ARCH_I686; d_hvm := false; d_pae := false;
            d_nonpae := true; d_ia64_be := false |}.
Proof. reflexivity. Qed.

Example decode_token_no_version : decode_token "xen-3.-x86_32" = None.
Proof. reflexivity. Qed.

Example strtok_r_skips_spaces : strtok_r "  ab  cd " = Some ("ab", " cd ").
Proof. reflexivity. Qed.

(** *** The search loop *)
Lemma search_tuple_spec (archs : list guest_arch) (arch : virArch) (hvm : bool)
    (steps i0 : nat) :
  i0 + steps <= length archs ->
  exists i, search_tuple archs arch hvm i0 steps = Ok i /\
    i0 <= i <= i0 + steps /\
    (forall j g, i0 <= j < i -> archs !! j = Some g -> same_tuple g arch hvm = false) /\
    (i < i0 + steps -> exists g, archs !! i = Some g /\ same_tuple g arch hvm = true).
Proof.
  revert i0. induction steps as [|steps IH]; intros i0 Hlen; simpl.
  - exists i0. repeat split; intros; lia.
  - destruct (lookup_lt_is_Some_2 archs i0) as [g Hg]; [lia|].
    rewrite Hg. destruct (same_tuple g arch hvm) eqn:E.
    + exists i0. repeat split; intros; try lia. eauto.
    + destruct (IH (S i0)) as (i & Hs & Hr & Hbefore & Hat); [lia|].
      exists i. split; [done|]. split; [lia|]. split.
      * intros j g' Hj Hg'. destruct (decide (j = i0)) as [->|Hne].
        -- congruence.
        -- apply (Hbefore j); [lia|done].
      * intros; apply Hat; lia.
Qed.

(** *** One round of the loop never reaches the "too many" branch

    Under the loop condition [nr_guest_archs < 32] the index found is at
    most [nr_guest_archs], so it is inside the array. *)
Lemma token_body_in_bounds (st : parse_state) (token : string) :
  length (guest_archs st) = ARRAY_CARDINALITY_guest_archs ->
  nr_guest_archs st < ARRAY_CARDINALITY_guest_archs ->
  exists st', token_body st token = Ok st' /\
    too_many st' = too_many st /\
    length (guest_archs st') = ARRAY_CARDINALITY_guest_archs /\
    nr_guest_archs st <= nr_guest_archs st' <= ARRAY_CARDINALITY_guest_archs.
Proof.
  intros Hlen Hnr. unfold token_body.
  destruct (decode_token token) as [d|]; [|exists st; repeat split; lia].
  destruct (search_tuple_spec (guest_archs st) (d_arch d) (d_hvm d)
              (nr_guest_archs st) 0) as (i & -> & Hi & _ & _); [lia|].
  destruct (Nat.leb_spec ARRAY_CARDINALITY_guest_archs i) as [Hge|Hlt]; [lia|].
  destruct (lookup_lt_is_Some_2 (guest_archs st) i) as [g Hg]; [lia|].
  rewrite Hg. eexists. split; [reflexivity|]. simpl.
  rewrite length_insert. repeat split; try done;
    destruct (Nat.eqb_spec i (nr_guest_archs st)); lia.
Qed.

Lemma token_loop_in_bounds (fuel : nat) (str : string) (st : parse_state) :
  String.length str < fuel ->
  length (guest_archs st) = ARRAY_CARDINALITY_guest_archs ->
  nr_guest_archs st <= ARRAY_CARDINALITY_guest_archs ->
  exists st', token_loop fuel str st = Ok st' /\
    too_many st' = too_many st /\
    length (guest_archs st') = ARRAY_CARDINALITY_guest_archs /\
    nr_guest_archs st' <= ARRAY_CARDINALITY_guest_archs.
Proof.
  revert str st. induction fuel as [|fuel IH]; intros str st Hf Hlen Hnr; [lia|].
  simpl.
  destruct (Nat.ltb_spec (nr_guest_archs st) ARRAY_CARDINALITY_guest_archs)
    as [Hlt|Hge]; [|exists st; done].
  destruct (strtok_r str) as [[token saveptr]|] eqn:E; [|exists st; done].
  destruct (token_body_in_bounds st token Hlen Hlt) as (st1 & -> & Ht & Hl & Hn).
  apply strtok_r_shorter in E.
  destruct (IH saveptr st1) as (st' & -> & ? & ? & ?); [lia|done|lia|].
  exists st'. repeat split; try done. congruence.
Qed.

(** *** The loop against the merge policy *)
Lemma same_tuple_decide (g : guest_arch) (d : decoded) :
  same_tuple g (d_arch d) (d_hvm d) = bool_decide (tuple g = (d_arch d, d_hvm d)).
Proof.
  unfold same_tuple, tuple.
  destruct (decide (ga_arch g = d_arch d)) as [Ha|Ha].
  - rewrite (bool_decide_eq_true_2 _ Ha). simpl.
    destruct (ga_hvm g) eqn:E1, (d_hvm d) eqn:E2; simpl;
      symmetry; first [apply bool_decide_eq_true_2; congruence
                      |apply bool_decide_eq_false_2; congruence].
  - rewrite (bool_decide_eq_false_2 _ Ha). simpl.
    symmetry. apply bool_decide_eq_false_2. congruence.
Qed.

Lemma store_same_tuple (g : guest_arch) (d : decoded) :
  tuple g = (d_arch d, d_hvm d) -> store g d = or_flags g d.
Proof.
  unfold tuple, store, or_flags. intros [= Ha Hh]. rewrite Ha, Hh.
  destruct (d_pae d), (d_nonpae d), (d_ia64_be d);
    rewrite ?orb_true_r, ?orb_false_r; reflexivity.
Qed.

Lemma store_zero (d : decoded) : store zero_guest_arch d = new_profile d.
Proof.
  unfold store, new_profile. simpl.
  destruct (d_pae d), (d_nonpae d), (d_ia64_be d); reflexivity.
Qed.

Lemma merge_existing_length (ps merged : list guest_arch) (d : decoded) :
  merge_existing ps d = Some merged -> length merged = length ps.
Proof.
  revert merged. induction ps as [|g ps IH]; intros merged; simpl; [done|].
  case_bool_decide.
  - intros [= <-]. reflexivity.
  - destruct (merge_existing ps d) as [m|]; simpl; [|done].
    intros [= <-]. simpl. f_equal. by apply IH.
Qed.

Lemma merge_existing_tuples (ps merged : list guest_arch) (d : decoded) :
  merge_existing ps d = Some merged -> map tuple merged = map tuple ps.
Proof.
  revert merged. induction ps as [|g ps IH]; intros merged; simpl; [done|].
  case_bool_decide.
  - intros [= <-]. reflexivity.
  - destruct (merge_existing ps d) as [m|]; simpl; [|done].
    intros [= <-]. simpl. f_equal. by apply IH.
Qed.

Lemma merge_existing_None (ps : list guest_arch) (d : decoded) :
  merge_existing ps d = None -> ~ In (d_arch d, d_hvm d) (map tuple ps).
Proof.
  induction ps as [|g ps IH]; simpl; [tauto|].
  case_bool_decide; [done|].
  destruct (merge_existing ps d) as [m|]; simpl; [done|].
  intros _ [Heq|Hin]; [done|]. by apply IH.
Qed.

(** The search loop finds the profile that [merge_existing] merges into,
    and the store at that index is the merge. *)
Lemma search_tuple_found (pre ps rest merged : list guest_arch) (d : decoded) :
  merge_existing ps d = Some merged ->
  exists i g,
    search_tuple (pre ++ ps ++ rest) (d_arch d) (d_hvm d) (length pre) (length ps) = Ok i /\
    i < length pre + length ps /\
    (pre ++ ps ++ rest) !! i = Some g /\
    <[i := store g d]> (pre ++ ps ++ rest) = pre ++ merged ++ rest.
Proof.
  revert pre merged. induction ps as [|g ps IH]; intros pre merged; simpl; [done|].
  rewrite lookup_app_r, Nat.sub_diag by lia. simpl.
  rewrite same_tuple_decide. case_bool_decide as Ht.
  - intros [= <-]. exists (length pre), g. repeat split; [lia| |].
    + rewrite lookup_app_r, Nat.sub_diag by lia. reflexivity.
    + rewrite insert_app_r_alt, Nat.sub_diag by lia. simpl.
      by rewrite store_same_tuple.
  - destruct (merge_existing ps d) as [m|] eqn:E; simpl; [|done].
    intros [= <-].
    destruct (IH (pre ++ [g]) m eq_refl) as (i & g' & Hs & Hi & Hl & Hins).
    rewrite length_app in Hs, Hi. simpl in Hs, Hi.
    rewrite Nat.add_1_r in Hs. rewrite <- !app_assoc in Hs, Hl, Hins. simpl in *.
    exists i, g'. repeat split; [done|lia|done|].
    rewrite Hins, <- app_assoc. reflexivity.
Qed.

Lemma search_tuple_absent (pre ps rest : list guest_arch) (d : decoded) :
  merge_existing ps d = None ->
  search_tuple (pre ++ ps ++ rest) (d_arch d) (d_hvm d) (length pre) (length ps)
    = Ok (length pre + length ps).
Proof.
  revert pre. induction ps as [|g ps IH]; intros pre; simpl.
  - intros _. f_equal. lia.
  - rewrite lookup_app_r, Nat.sub_diag by lia. simpl.
    rewrite same_tuple_decide. case_bool_decide as Ht; [done|].
    destruct (merge_existing ps d) as [m|] eqn:E; simpl; [done|]. intros _.
    specialize (IH (pre ++ [g]) eq_refl).
    rewrite length_app in IH. simpl in IH.
    rewrite Nat.add_1_r, <- app_assoc in IH. simpl in IH.
    rewrite IH. f_equal. lia.
Qed.

(** One round of the loop is one step of the policy, as long as the array
    is not full. *)
Lemma token_body_refines (st : parse_state) (ps : list guest_arch) (token : string) :
  represents st ps ->
  length ps < ARRAY_CARDINALITY_guest_archs ->
  exists st', token_body st token = Ok st' /\
    represents st' (spec_step ps token) /\
    too_many st' = too_many st.
Proof.
  intros (Harr & Hnr & Hle) Hlt. unfold token_body, spec_step.
  destruct (decode_token token) as [d|]; [|exists st; done].
  unfold spec_merge. rewrite Harr, Hnr.
  set (rest := replicate (ARRAY_CARDINALITY_guest_archs - length ps) zero_guest_arch).
  destruct (merge_existing ps d) as [merged|] eqn:E.
  - destruct (search_tuple_found [] ps rest merged d E) as (i & g & Hs & Hi & Hl & Hins).
    simpl in Hs, Hi, Hl, Hins. rewrite Hs.
    destruct (Nat.leb_spec ARRAY_CARDINALITY_guest_archs i) as [?|_]; [lia|].
    rewrite Hl, Hins. eexists. split; [reflexivity|].
    pose proof (merge_existing_length _ _ _ E) as Hml.
    split; [|done]. unfold represents; simpl. rewrite Hml.
    destruct (Nat.eqb_spec i (length ps)); [lia|]. done.
  - pose proof (search_tuple_absent [] ps rest d E) as Hs. simpl in Hs. rewrite Hs.
    destruct (Nat.leb_spec ARRAY_CARDINALITY_guest_archs (length ps)) as [?|_]; [lia|].
    assert (Hrest : rest = zero_guest_arch ::
              replicate (ARRAY_CARDINALITY_guest_archs - S (length ps)) zero_guest_arch).
    { unfold rest.
      replace (ARRAY_CARDINALITY_guest_archs - length ps)
        with (S (ARRAY_CARDINALITY_guest_archs - S (length ps))) by lia.
      reflexivity. }
    rewrite Hrest.
    rewrite lookup_app_r, Nat.sub_diag by lia. simpl.
    rewrite insert_app_r_alt, Nat.sub_diag by lia. simpl.
    rewrite Nat.eqb_refl, store_zero.
    destruct (Nat.ltb_spec (length ps) spec_bound) as [_|?];
      [|unfold spec_bound, ARRAY_CARDINALITY_guest_archs in *; lia].
    eexists. split; [reflexivity|]. split; [|done].
    unfold represents; simpl. rewrite length_app. simpl.
    rewrite Nat.add_1_r, <- app_assoc. simpl. repeat split; lia.
Qed.

(** The policy keeps the tuples distinct. *)
Lemma spec_step_NoDup (ps : list guest_arch) (token : string) :
  NoDup (map tuple ps) -> NoDup (map tuple (spec_step ps token)).
Proof.
  intros Hnd. unfold spec_step. destruct (decode_token token) as [d|]; [|done].
  unfold spec_merge. destruct (merge_existing ps d) as [merged|] eqn:E.
  - by rewrite (merge_existing_tuples _ _ _ E).
  - destruct (length ps <? spec_bound)%nat; [|done].
    rewrite map_app. simpl. apply NoDup_app. repeat split; [done| |].
    + intros x Hin Hx. apply list_elem_of_In in Hin.
      apply list_elem_of_singleton in Hx. subst x.
      by apply (merge_existing_None _ _ E).
    + apply NoDup_singleton.
Qed.

(** There are 14 tuples, so distinct tuples never fill the array. *)
Lemma NoDup_tuples_length (ps : list guest_arch) :
  NoDup (map tuple ps) -> length ps <= 14.
Proof.
  intros Hnd. rewrite <- (length_map tuple ps).
  change 14 with (length all_tuples).
  apply NoDup_incl_length; [by apply NoDup_ListNoDup|].
  intros [a h] _. destruct a, h; vm_compute; tauto.
Qed.

Lemma token_loop_refines (fuel : nat) (str : string) (st : parse_state)
    (ps : list guest_arch) :
  String.length str < fuel ->
  represents st ps ->
  NoDup (map tuple ps) ->
  exists st', token_loop fuel str st = Ok st' /\
    represents st' (fold_left spec_step (tokens_upto fuel str) ps) /\
    NoDup (map tuple (fold_left spec_step (tokens_upto fuel str) ps)) /\
    too_many st' = too_many st.
Proof.
  revert str st ps. induction fuel as [|fuel IH]; intros str st ps Hf Hrep Hnd; [lia|].
  simpl. pose proof (NoDup_tuples_length ps Hnd) as H14.
  destruct Hrep as (Harr & Hnr & Hle).
  destruct (Nat.ltb_spec (nr_guest_archs st) ARRAY_CARDINALITY_guest_archs)
    as [Hlt|Hge]; [|unfold ARRAY_CARDINALITY_guest_archs in *; lia].
  destruct (strtok_r str) as [[token saveptr]|] eqn:E; [|exists st; done].
  destruct (token_body_refines st ps token) as (st1 & -> & Hrep1 & Ht1);
    [done|lia|].
  apply strtok_r_shorter in E.
  destruct (IH saveptr st1 (spec_step ps token)) as (st' & -> & ? & ? & ?);
    [lia|done|by apply spec_step_NoDup|].
  exists st'. simpl. split; [done|]. split; [done|]. split; [done|]. congruence.
Qed.

(** With the array full the loop condition fails at once: no further token
    is read, whether its tuple is retained or not. *)
Lemma token_loop_full_stops (fuel : nat) (str : string) (st : parse_state) :
  nr_guest_archs st = ARRAY_CARDINALITY_guest_archs ->
  token_loop (S fuel) str st = Ok st.
Proof. intros H. simpl. rewrite H. reflexivity. Qed.

Lemma represents_retained (st : parse_state) (ps : list guest_arch) :
  represents st ps -> retained st = ps.
Proof.
  intros (Harr & Hnr & _). unfold retained. rewrite Harr, Hnr.
  by rewrite take_app_length.
Qed.

(** *** Flags once set stay set *)
Lemma covers_or_flags (g : guest_arch) (d d' : decoded) :
  covers g d -> covers (or_flags g d') d.
Proof.
  intros (Ht & Hp & Hn & Hb). unfold covers, or_flags, tuple in *. simpl.
  repeat split; [done|..]; intros H; rewrite ?Hp, ?Hn, ?Hb by done; reflexivity.
Qed.

Lemma merge_existing_covers_old (ps merged : list guest_arch) (d d0 : decoded)
    (g : guest_arch) :
  merge_existing ps d = Some merged -> In g ps -> covers g d0 ->
  exists g', In g' merged /\ covers g' d0.
Proof.
  revert merged. induction ps as [|h ps IH]; intros merged; simpl; [done|].
  case_bool_decide.
  - intros [= <-] [->|Hin] Hc.
    + exists (or_flags g d). split; [by left|by apply covers_or_flags].
    + exists g. split; [by right|done].
  - destruct (merge_existing ps d) as [m|]; simpl; [|done].
    intros [= <-] [->|Hin] Hc.
    + exists g. split; [by left|done].
    + destruct (IH m eq_refl Hin Hc) as (g' & ? & ?). exists g'. split; [by right|done].
Qed.

Lemma merge_existing_covers_new (ps merged : list guest_arch) (d : decoded) :
  merge_existing ps d = Some merged -> exists g, In g merged /\ covers g d.
Proof.
  revert merged. induction ps as [|h ps IH]; intros merged; simpl; [done|].
  case_bool_decide as Ht.
  - intros [= <-]. exists (or_flags h d). split; [by left|].
    unfold covers, or_flags, tuple in *. simpl.
    repeat split; [done|..]; intros ->; apply orb_true_r.
  - destruct (merge_existing ps d) as [m|]; simpl; [|done].
    intros [= <-]. destruct (IH m eq_refl) as (g & ? & ?).
    exists g. split; [by right|done].
Qed.

Lemma spec_step_keeps (ps : list guest_arch) (token : string) (d0 : decoded)
    (g : guest_arch) :
  In g ps -> covers g d0 -> exists g', In g' (spec_step ps token) /\ covers g' d0.
Proof.
  intros Hin Hc. unfold spec_step. destruct (decode_token token) as [d|]; [|eauto].
  unfold spec_merge. destruct (merge_existing ps d) as [merged|] eqn:E.
  - by apply (merge_existing_covers_old ps merged d d0 g).
  - exists g. split; [|done]. destruct (length ps <? spec_bound)%nat; [|done].
    apply in_or_app. by left.
Qed.

Lemma spec_step_takes (ps : list guest_arch) (token : string) (d : decoded) :
  length ps < spec_bound -> decode_token token = Some d ->
  exists g, In g (spec_step ps token) /\ covers g d.
Proof.
  intros Hlt Hd. unfold spec_step. rewrite Hd. unfold spec_merge.
  destruct (merge_existing ps d) as [merged|] eqn:E.
  - by apply (merge_existing_covers_new ps).
  - destruct (Nat.ltb_spec (length ps) spec_bound) as [_|?]; [|lia].
    exists (new_profile d). split; [apply in_or_app; right; by left|].
    unfold covers, new_profile, tuple. simpl. done.
Qed.

Lemma fold_spec_step_keeps (toks : list string) (ps : list guest_arch)
    (d0 : decoded) (g : guest_arch) :
  In g ps -> covers g d0 ->
  exists g', In g' (fold_left spec_step toks ps) /\ covers g' d0.
Proof.
  revert ps g. induction toks as [|t toks IH]; intros ps g Hin Hc; simpl; [eauto|].
  destruct (spec_step_keeps ps t d0 g Hin Hc) as (g1 & Hin1 & Hc1). eauto.
Qed.

Lemma fold_spec_step_takes (toks : list string) (ps : list guest_arch)
    (token : string) (d : decoded) :
  NoDup (map tuple ps) -> In token toks -> decode_token token = Some d ->
  exists g, In g (fold_left spec_step toks ps) /\ covers g d.
Proof.
  revert ps. induction toks as [|t toks IH]; intros ps Hnd Hin Hd; simpl; [done|].
  destruct Hin as [->|Hin].
  - pose proof (NoDup_tuples_length ps Hnd) as H14.
    destruct (spec_step_takes ps token d) as (g & Hg & Hc);
      [unfold spec_bound; lia|done|].
    by apply (fold_spec_step_keeps toks _ d g).
  - apply IH; [by apply spec_step_NoDup|done|done].
Qed.

(** The policy's bound is never reached: 14 tuples exist. *)
Lemma spec_profiles_below_bound (capabilities : string) :
  length (spec_profiles capabilities) <= 14.
Proof.
  apply NoDup_tuples_length. unfold spec_profiles.
  generalize (tokens capabilities). intros toks.
  assert (G : forall ps, NoDup (map tuple ps) ->
                NoDup (map tuple (fold_left spec_step toks ps))).
  { induction toks as [|t toks IH]; intros ps Hnd; simpl; [done|].
    apply IH. by apply spec_step_NoDup. }
  apply G. constructor.
Qed.

Lemma init_state_represents : represents init_state [].
Proof. unfold represents. simpl. repeat split. lia. Qed.

(** The loop on a whole string ends, with the profiles of the policy. *)
Lemma parse_capabilities_refines (capabilities : string) :
  exists st, parse_capabilities capabilities = Ok st /\
    represents st (spec_profiles capabilities) /\
    too_many st = 0.
Proof.
  destruct (token_loop_refines (S (String.length capabilities)) capabilities
              init_state []) as (st & Hst & Hrep & _ & Ht);
    [lia|apply init_state_represents|constructor|].
  exists st. done.
Qed.

(** C2: for every capabilities string the loop ends with the profiles that
    the specification's merge policy yields (look up by (arch, hvm), OR the
    flags into a profile that exists, add a new one while fewer than 32
    exist, drop the tuple otherwise); at most 32 profiles are retained,
    their tuples are distinct, and every token that decodes has a retained
    profile with its tuple and its flags. *)
Theorem parser_follows_merge_policy (capabilities : string) :
  exists st, parse_capabilities capabilities = Ok st /\
    retained st = spec_profiles capabilities /\
    length (retained st) <= 32 /\
    NoDup (map tuple (retained st)) /\
    (forall token d, In token (tokens capabilities) ->
       decode_token token = Some d ->
       exists g, In g (retained st) /\ covers g d).
Proof.
  destruct (parse_capabilities_refines capabilities) as (st & Hst & Hrep & _).
  exists st. split; [done|].
  rewrite (represents_retained st _ Hrep). split; [done|].
  destruct (token_loop_refines (S (String.length capabilities)) capabilities
              init_state []) as (st' & _ & _ & Hnd & _);
    [lia|apply init_state_represents|constructor|].
  fold (tokens capabilities) in Hnd. fold (spec_profiles capabilities) in Hnd.
  split; [pose proof (spec_profiles_below_bound capabilities); lia|].
  split; [done|].
  intros token d Hin Hd. unfold spec_profiles.
  apply (fold_spec_step_takes _ [] token d); [constructor|done|done].
Qed.

(** C9: from any state with the 32-entry array and at most 32 retained
    profiles, the rest of the token loop ends normally: no access to
    [guest_archs] is out of bounds, the count stays at most 32, and the
    branch of lines 302-303 that drops a tuple is never taken (its ghost
    counter does not move), because the loop condition admits a token only
    while fewer than 32 profiles are retained. *)
Theorem token_loop_stays_in_bounds (fuel : nat) (str : string) (st : parse_state) :
  String.length str < fuel ->
  length (guest_archs st) = ARRAY_CARDINALITY_guest_archs ->
  nr_guest_archs st <= ARRAY_CARDINALITY_guest_archs ->
  exists st', token_loop fuel str st = Ok st' /\
    too_many st' = too_many st /\
    length (guest_archs st') = ARRAY_CARDINALITY_guest_archs /\
    nr_guest_archs st' <= ARRAY_CARDINALITY_guest_archs.
Proof. apply token_loop_in_bounds. Qed.

Lemma token_loop_stays_in_bounds_witness :
  exists st',
    token_loop 46 "xen-3.0-x86_32p xen-3.0-x86_32 hvm-3.0-x86_64" init_state = Ok st' /\
    too_many st' = too_many init_state /\
    length (guest_archs st') = ARRAY_CARDINALITY_guest_archs /\
    nr_guest_archs st' <= ARRAY_CARDINALITY_guest_archs.
Proof.
  apply (token_loop_stays_in_bounds 46
           "xen-3.0-x86_32p xen-3.0-x86_32 hvm-3.0-x86_64" init_state).
  - vm_compute. lia.
  - reflexivity.
  - vm_compute. lia.
Defined.

(** The string of a usual x86 host: four profiles, the two x86_32 HVM
    tokens merged into one. *)
Example parse_usual_x86_host :
  option_map (map (fun g => (tuple g, ga_pae g, ga_nonpae g)))
    (match parse_capabilities
             "xen-3.0-x86_64 xen-3.0-x86_32p hvm-3.0-x86_32 hvm-3.0-x86_32p hvm-3.0-x86_64"
     with Ok st => Some (retained st) | _ => None end) =
  Some [ ((VIR_ARCH_X86_64, false), false, false);
         ((VIR_ARCH_I686, false), true, false);
         ((VIR_ARCH_I686, true), true, true);
         ((VIR_ARCH_X86_64, true), false, false) ].
Proof. vm_compute. reflexivity. Qed.

Lemma parser_follows_merge_policy_witness :
  exists st,
    parse_capabilities "xen-3.0-x86_32p zz hvm-3.0-ia64be xen-3.0-x86_32" = Ok st /\
    length (retained st) = 2.
Proof.
  destruct (parser_follows_merge_policy
              "xen-3.0-x86_32p zz hvm-3.0-ia64be xen-3.0-x86_32")
    as (st & Hst & Hret & _).
  exists st. split; [exact Hst|]. rewrite Hret. vm_compute. reflexivity.
Defined.

End GuestArchsFacts.

(** ** The builder monad *)
Module CapsFacts.
Import Caps.

Lemma bind_unfold {A B} (m : M A) (k : A -> M B) (s : bstate) :
  (m ≫= k) s =
    match m s with
    | (Ok a, s') => k a s'
    | (Fail, s') => (Fail, s')
    | (Undefined, s') => (Undefined, s')
    | (OutOfFuel, s') => (OutOfFuel, s')
    end.
Proof. reflexivity. Qed.

Lemma bind_Ok {A B} (m : M A) (k : A -> M B) (s s' : bstate) (b : B) :
  (m ≫= k) s = (Ok b, s') ->
  exists a s1, m s = (Ok a, s1) /\ k a s1 = (Ok b, s').
Proof.
  rewrite bind_unfold. destruct (m s) as [[a| | |] s1]; try discriminate. eauto.
Qed.

Lemma bind_run {A B} (m : M A) (k : A -> M B) (s s1 : bstate) (a : A) :
  m s = (Ok a, s1) -> (m ≫= k) s = k a s1.
Proof. intros H. rewrite bind_unfold, H. reflexivity. Qed.

Lemma bstate_eta (s : bstate) :
  {| caps := caps s; faults := faults s; errors := errors s |} = s.
Proof. by destruct s. Qed.

(** Without faults pending, an allocating call succeeds and changes nothing. *)
Lemma alloc_no_faults (s : bstate) : faults s = [] -> alloc s = (Ok tt, s).
Proof. unfold alloc. by intros ->. Qed.

(** An allocating call never touches the object or the log. *)
Lemma alloc_Ok (s s' : bstate) (u : unit) :
  alloc s = (Ok u, s') ->
  caps s' = caps s /\ errors s' = errors s /\
  (faults s = [] /\ faults s' = [] \/ faults s = false :: faults s').
Proof.
  unfold alloc. destruct s as [c f e]; simpl.
  destruct f as [|[] f]; intros H; try discriminate;
    injection H as ? H; subst s'; simpl; auto.
Qed.

Lemma alloc_or_report_Ok (msg : string) (s s' : bstate) (u : unit) :
  alloc_or_report msg s = (Ok u, s') -> alloc s = (Ok u, s').
Proof.
  unfold alloc_or_report. destruct (alloc s) as [[[]| | |] s1]; try discriminate; done.
Qed.

End CapsFacts.

(** ** libxl_capabilities.c *)
Module LibxlFacts.
Import CStr Regex GuestArchs Caps Libxl CapsFacts GuestArchsFacts.

Section Host.
Context (cfg : build_config).

(** Bit 6 of the word is the bit that [LIBXL_X86_FEATURE_PAE_MASK] selects. *)
Lemma pae_mask_testbit (w : N) :
  negb (N.land w LIBXL_X86_FEATURE_PAE_MASK =? 0)%N = N.testbit w 6.
Proof.
  unfold LIBXL_X86_FEATURE_PAE_MASK. change 64%N with (2 ^ 6)%N.
  destruct (N.testbit w 6) eqn:E.
  - apply negb_true_iff, N.eqb_neq. intros H.
    assert (N.testbit (N.land w (2 ^ 6)) 6 = true)
      by (rewrite N.land_spec, E, N.pow2_bits_true; reflexivity).
    rewrite H in *. by rewrite N.bits_0 in *.
  - apply negb_false_iff, N.eqb_eq. apply N.bits_inj. intros k.
    rewrite N.land_spec, N.bits_0.
    destruct (N.eq_dec k 6%N) as [->|Hk].
    + rewrite E. reflexivity.
    + rewrite N.pow2_bits_false by congruence. apply andb_false_r.
Qed.

(** C8: the host feature probe reads word 0 of the capability bitmask; on
    an object without the tag, a probe that succeeds leaves "pae" in the
    host feature set exactly when bit 6 (mask 0x40) of that word is set;
    when the bit is clear the tag is absent whatever the outcome; and
    with no allocation failing the probe does succeed. *)
Theorem host_probe_pae (ctx : libxl_ctx) (phy : libxl_physinfo) (w : N)
    (rest : list N) (s : bstate) :
  libxl_get_physinfo ctx = Some phy ->
  hw_cap phy = w :: rest ->
  ~ In "pae" (host_features (caps s)) ->
  let '(r, s') := libxlCapsInitHost cfg ctx s in
  (r = Ok tt -> (In "pae" (host_features (caps s')) <-> N.testbit w 6 = true)) /\
  (N.testbit w 6 = false -> ~ In "pae" (host_features (caps s'))) /\
  (faults s = [] -> r = Ok tt).
Proof.
  intros Hphy Hw Hno. unfold libxlCapsInitHost. rewrite Hphy, Hw. simpl.
  rewrite pae_mask_testbit. destruct s as [c f e]. simpl in Hno.
  destruct (N.testbit w 6) eqn:E.
  - unfold virCapabilitiesAddHostFeature, virCapabilitiesSetNetPrefix.
    destruct f as [|[] [|[] f]]; vm_compute; (split; [|split]);
      try discriminate; try tauto; intros _;
      (split; [reflexivity|intros _; apply in_or_app; right; by left]).
  - unfold virCapabilitiesSetNetPrefix.
    destruct f as [|[] f]; vm_compute; (split; [|split]);
      try discriminate; try tauto; intros _; split; (tauto || discriminate).
Qed.

End Host.

Lemma host_probe_pae_witness :
  let '(r, s') := libxlCapsInitHost Examples.cfg Examples.ctx Examples.start in
  (r = Ok tt -> (In "pae" (host_features (caps s')) <-> N.testbit 0x40 6 = true)) /\
  (N.testbit 0x40 6 = false -> ~ In "pae" (host_features (caps s'))) /\
  (faults Examples.start = [] -> r = Ok tt).
Proof.
  apply (host_probe_pae Examples.cfg Examples.ctx Examples.phy 0x40%N [0%N]
           Examples.start).
  - reflexivity.
  - reflexivity.
  - simpl. tauto.
Defined.

Section Guests.
Context (cfg : build_config).

(** With no allocation failing, the second loop's body adds the guest of
    the emission rule. *)
Lemma add_guest_no_faults (ga : guest_arch) (s : bstate) :
  faults s = [] ->
  add_guest cfg ga s =
    (Ok tt, {| caps := set_guests (guests (caps s) ++ [spec_guest cfg ga]) (caps s);
               faults := []; errors := errors s |}).
Proof.
  destruct s as [c f e]. simpl. intros ->.
  destruct ga as [arch bits hvm pae nonpae be].
  unfold add_guest, spec_guest, spec_features, feature_if,
    virCapabilitiesAllocMachines, virCapabilitiesAddGuest,
    virCapabilitiesAddGuestDomain, virCapabilitiesAddGuestFeature, update_guest,
    mbind, M_bind, bind, ret, alloc, get, modify, undefined.
  destruct hvm, pae, nonpae, be;
    cbn -[String.append];
    repeat (rewrite list_lookup_middle by reflexivity;
            cbn -[String.append];
            rewrite insert_app_r_alt, Nat.sub_diag by lia;
            cbn -[String.append]);
    reflexivity.
Qed.

Lemma add_guests_no_faults (archs : list guest_arch) (steps i : nat) (s : bstate) :
  faults s = [] ->
  i + steps <= length archs ->
  add_guests cfg archs i steps s =
    (Ok tt, {| caps := set_guests (guests (caps s) ++
                                   map (spec_guest cfg) (take steps (drop i archs)))
                         (caps s);
               faults := []; errors := errors s |}).
Proof.
  revert i s. induction steps as [|steps IH]; intros i s Hf Hlen; simpl.
  - rewrite app_nil_r.
    destruct s as [c f e]; simpl in *; subst. by destruct c.
  - destruct (lookup_lt_is_Some_2 archs i) as [ga Hga]; [lia|].
    rewrite Hga. rewrite bind_unfold, (add_guest_no_faults ga s Hf).
    rewrite IH by (simpl; (done || lia)). simpl.
    rewrite (drop_S archs ga i Hga). simpl.
    rewrite <- app_assoc. reflexivity.
Qed.

(** With no allocation failing, the parser adds the guests of the retained
    profiles, in their order. *)
Lemma libxlCapsInitGuests_no_faults (ctx : libxl_ctx) (ver : libxl_version_info)
    (str : string) (s : bstate) :
  libxl_get_version_info ctx = Some ver ->
  capabilities ver = Some str ->
  faults s = [] ->
  libxlCapsInitGuests cfg ctx s =
    (Ok tt, {| caps := set_guests (guests (caps s) ++
                                   map (spec_guest cfg) (spec_profiles str)) (caps s);
               faults := []; errors := errors s |}).
Proof.
  intros Hv Hc Hf. unfold libxlCapsInitGuests. rewrite Hv, Hc.
  destruct (parse_capabilities_refines str) as (st & Hst & Hrep & _).
  rewrite bind_unfold. unfold lift. rewrite Hst.
  pose proof (represents_retained st _ Hrep) as Hret.
  destruct Hrep as (Harr & Hnr & Hle).
  rewrite add_guests_no_faults; [|done|].
  - rewrite drop_0. unfold retained in Hret. by rewrite Hret.
  - rewrite Harr, Hnr, length_app. lia.
Qed.

Lemma fold_spec_step_no_match (toks : list string) (ps : list guest_arch) :
  Forall (fun token => regexec XEN_CAP_REGEX token 4 = None) toks ->
  fold_left spec_step toks ps = ps.
Proof.
  induction 1 as [|t toks Ht _ IH]; simpl; [done|].
  unfold spec_step at 2, decode_token. by rewrite Ht.
Qed.

Lemma append_hvmloader_nonempty (dir : string) : dir +:+ "/hvmloader" <> "".
Proof. by destruct dir. Qed.

(** C1: on "xen-3.0-x86_32p xen-3.0-x86_32 hvm-3.0-x86_64" the token loop
    retains two profiles, (x86_32, PV) with pae and nonpae both set, then
    (x86_64, HVM); with no allocation failing the parser adds exactly two
    guests in that order: the PV one with the features "pae" and "nonpae",
    the HVM one with "acpi", "apic" and "hap" and a non-empty loader. *)
Theorem parse_three_tokens (ctx : libxl_ctx) (ver : libxl_version_info) (s : bstate) :
  libxl_get_version_info ctx = Some ver ->
  capabilities ver = Some "xen-3.0-x86_32p xen-3.0-x86_32 hvm-3.0-x86_64" ->
  faults s = [] ->
  (exists st,
     parse_capabilities "xen-3.0-x86_32p xen-3.0-x86_32 hvm-3.0-x86_64" = Ok st /\
     retained st =
       [ {| ga_arch := VIR_ARCH_I686; ga_bits := 0; ga_hvm := false;
            ga_pae := true; ga_nonpae := true; ga_ia64_be := false |};
         {| ga_arch := VIR_ARCH_X86_64; ga_bits := 0; ga_hvm := true;
            ga_pae := false; ga_nonpae := false; ga_ia64_be := false |} ]) /\
  exists s' loader,
    libxlCapsInitGuests cfg ctx s = (Ok tt, s') /\
    loader <> "" /\
    guests (caps s') = guests (caps s) ++
      [ {| g_ostype := VIR_DOMAIN_OSTYPE_XEN; g_arch := VIR_ARCH_I686;
           g_emulator := LIBXL_EXECBIN_DIR cfg +:+ "/qemu-system-i386";
           g_loader := None; g_machines := ["xenpv"];
           g_domains := [VIR_DOMAIN_VIRT_XEN];
           g_features :=
             [ {| feat_name := "pae"; feat_defaultOn := true; feat_toggle := false |};
               {| feat_name := "nonpae"; feat_defaultOn := true; feat_toggle := false |} ] |};
        {| g_ostype := VIR_DOMAIN_OSTYPE_HVM; g_arch := VIR_ARCH_X86_64;
           g_emulator := LIBXL_EXECBIN_DIR cfg +:+ "/qemu-system-i386";
           g_loader := Some loader; g_machines := ["xenfv"];
           g_domains := [VIR_DOMAIN_VIRT_XEN];
           g_features :=
             [ {| feat_name := "acpi"; feat_defaultOn := true; feat_toggle := true |};
               {| feat_name := "apic"; feat_defaultOn := true; feat_toggle := false |};
               {| feat_name := "hap"; feat_defaultOn := true; feat_toggle := true |} ] |} ].
Proof.
  intros Hv Hc Hf. split.
  - eexists. split; vm_compute; reflexivity.
  - eexists. exists (LIBXL_FIRMWARE_DIR cfg +:+ "/hvmloader").
    split; [apply (libxlCapsInitGuests_no_faults ctx ver _ s Hv Hc Hf)|].
    split; [apply append_hvmloader_nonempty|].
    simpl. f_equal.
Qed.


End Guests.

Lemma parse_three_tokens_witness :
  exists s',
    libxlCapsInitGuests Examples.cfg Examples.ctx Examples.start = (Ok tt, s') /\
    length (guests (caps s')) = 2.
Proof.
  destruct (parse_three_tokens Examples.cfg Examples.ctx Examples.ver Examples.start)
    as (_ & s' & loader & Hrun & _ & Hg); [reflexivity..|].
  exists s'. split; [exact Hrun|]. rewrite Hg. reflexivity.
Defined.


Section Assembler.
Context (cfg : build_config).

Lemma on_object_fresh (h : gmap nat virObject) (p : nat) (m : M unit)
    (s : bstate) :
  on_object p m (world_of (<[p := {| refs := 1; obj := caps s |}]> h) s) =
    let '(r, s') := m s in
    (r, world_of (<[p := {| refs := 1; obj := caps s' |}]> h) s').
Proof.
  unfold on_object, world_of. simpl. rewrite lookup_insert_eq. simpl.
  rewrite bstate_eta. destruct (m s) as [r s']. by rewrite insert_insert_eq.
Qed.

Lemma unref_fresh (h : gmap nat virObject) (p : nat) (s : bstate) :
  h !! p = None ->
  virObjectUnref p (world_of (<[p := {| refs := 1; obj := caps s |}]> h) s) =
    world_of h s.
Proof.
  intros Hp. unfold virObjectUnref, world_of. simpl.
  rewrite lookup_insert_eq. simpl. by rewrite delete_insert_id.
Qed.

(** C6: the assembler runs the host feature probe, the NUMA topology
    builder and the guest architecture parser, in this order, on a fresh
    object. When one of them fails it returns NULL and the object is
    gone from the heap, with everything the earlier steps attached to it
    (the heap is the one before the call); when all three succeed it
    returns the object, which holds what the three steps built. *)
Theorem make_capabilities_all_or_nothing (ctx : libxl_ctx) (w : world)
    (r1 r2 r3 : res unit) (s1 s2 s3 : bstate) :
  head (pending w) <> Some true ->
  libxlCapsInitHost cfg ctx
    {| caps := new_caps cfg; faults := tail (pending w); errors := errlog w |} = (r1, s1) ->
  libxlCapsInitNuma cfg ctx s1 = (r2, s2) ->
  libxlCapsInitGuests cfg ctx s2 = (r3, s3) ->
  let p := fresh (dom (heap w)) in
  heap w !! p = None /\
  (r1 = Fail -> libxlMakeCapabilities cfg ctx w = (Fail, world_of (heap w) s1)) /\
  (r1 = Ok tt -> r2 = Fail ->
   libxlMakeCapabilities cfg ctx w = (Fail, world_of (heap w) s2)) /\
  (r1 = Ok tt -> r2 = Ok tt -> r3 = Fail ->
   libxlMakeCapabilities cfg ctx w = (Fail, world_of (heap w) s3)) /\
  (r1 = Ok tt -> r2 = Ok tt -> r3 = Ok tt ->
   libxlMakeCapabilities cfg ctx w =
     (Ok p, world_of (<[p := {| refs := 1; obj := caps s3 |}]> (heap w)) s3)).
Proof.
  intros Hnew H1 H2 H3 p.
  assert (Hp : heap w !! p = None).
  { apply not_elem_of_dom. apply is_fresh. }
  split; [done|].
  set (s0 := {| caps := new_caps cfg; faults := tail (pending w); errors := errlog w |}) in *.
  assert (Hnew' : virCapabilitiesNew (virArchFromHost cfg)
                    (negb (LIBXL_HAVE_NO_SUSPEND_RESUME cfg))
                    (negb (LIBXL_HAVE_NO_SUSPEND_RESUME cfg)) w =
                  (Some p, world_of (<[p := {| refs := 1; obj := caps s0 |}]> (heap w)) s0)).
  { unfold virCapabilitiesNew. destruct (pending w) as [|[] f] eqn:E; simpl in *;
      [|congruence|]; reflexivity. }
  unfold libxlMakeCapabilities. rewrite Hnew'.
  rewrite on_object_fresh, H1.
  repeat split.
  - intros ->. by rewrite unref_fresh.
  - intros -> ->. rewrite on_object_fresh, H2. by rewrite unref_fresh.
  - intros -> -> ->. rewrite on_object_fresh, H2, on_object_fresh, H3.
    by rewrite unref_fresh.
  - intros -> -> ->. by rewrite on_object_fresh, H2, on_object_fresh, H3.
Qed.

End Assembler.

(** The host probe and the NUMA builder succeed, then the parser finds no
    capabilities string: nothing of the object is left. *)
Lemma make_capabilities_all_or_nothing_witness :
  host_features (caps Examples.after_host) = ["pae"] /\
  length (host_numaCell (caps Examples.after_numa)) = 2 /\
  libxlMakeCapabilities Examples.cfg (Examples.ctx_with Examples.ver_no_capabilities)
    Examples.empty_world = (Fail, world_of ∅ Examples.after_guests).
Proof.
  split; [reflexivity|]. split; [reflexivity|].
  destruct (make_capabilities_all_or_nothing Examples.cfg
              (Examples.ctx_with Examples.ver_no_capabilities) Examples.empty_world
              (Ok tt) (Ok tt) Fail
              Examples.after_host Examples.after_numa Examples.after_guests)
    as (_ & _ & _ & H & _).
  - simpl. discriminate.
  - vm_compute. reflexivity.
  - vm_compute. reflexivity.
  - vm_compute. reflexivity.
  - apply H; reflexivity.
Defined.

Section Numa.
Context (cfg : build_config).

Lemma imap_insert_ext {A B} (f g : nat -> A -> B) (l : list A) (n : nat) (x y : A) :
  l !! n = Some y ->
  f n x = g n y ->
  (forall m z, m <> n -> l !! m = Some z -> f m z = g m z) ->
  imap f (<[n := x]> l) = imap g l.
Proof.
  intros Hn Hx Hother. apply list_eq. intros m.
  rewrite !list_lookup_imap.
  destruct (decide (m = n)) as [->|Hne].
  - rewrite list_lookup_insert_eq by (by eapply lookup_lt_Some).
    rewrite Hn. simpl. by rewrite Hx.
  - rewrite list_lookup_insert_ne by done.
    destruct (l !! m) as [z|] eqn:E; simpl; [|done]. f_equal. by apply Hother.
Qed.

(** **** The first loop *)
Lemma prepare_cpus_spec (topo : list libxl_cputopology) (i nr_cpus : nat)
    (cpus : list (list virCapsHostNUMACellCPU)) (nrs : list nat)
    (s s' : bstate) (arrs' : scratch) :
  prepare_cpus cfg topo i nr_cpus (cpus, nrs) s = (Ok arrs', s') ->
  arrs'.1 = imap (fun n row => row ++ row_of cfg topo i nr_cpus n) cpus /\
  arrs'.2 = imap (fun n k => k + length (row_of cfg topo i nr_cpus n)) nrs /\
  Forall (fun t => valid_core cfg t = true -> N.to_nat (node t) < length cpus) topo /\
  caps s' = caps s.
Proof.
  revert i cpus nrs s. induction topo as [|t rest IH]; intros i cpus nrs s; simpl.
  - intros [= <- <-]. simpl. repeat split; [| |constructor].
    + apply list_eq. intros m. rewrite list_lookup_imap.
      destruct (cpus !! m); simpl; [|done]. by rewrite app_nil_r.
    + apply list_eq. intros m. rewrite list_lookup_imap.
      destruct (nrs !! m); simpl; [|done]. f_equal. lia.
  - unfold on_node, valid_core.
    destruct (core t =? LIBXL_CPUTOPOLOGY_INVALID_ENTRY cfg)%N eqn:Ec; simpl.
    + intros H. destruct (IH _ _ _ _ H) as (H1 & H2 & H3 & H4).
      repeat split; [done|done| |done]. constructor; [|done].
      intros Hv. rewrite Ec in Hv. discriminate.
    + destruct (nrs !! N.to_nat (node t)) as [k|] eqn:Ek; [|discriminate].
      destruct (cpus !! N.to_nat (node t)) as [row|] eqn:Er; [|discriminate].
      intros H.
      apply bind_Ok in H as ([] & sa & Ha & H).
      apply bind_Ok in H as ([] & sb & Hb & H).
      apply alloc_or_report_Ok in Hb.
      destruct (alloc_Ok _ _ _ Ha) as (Hca & _).
      destruct (alloc_Ok _ _ _ Hb) as (Hcb & _).
      destruct (IH _ _ _ _ H) as (H1 & H2 & H3 & H4).
      rewrite length_insert in H3.
      split; [|split; [|split]].
      * rewrite H1. apply (imap_insert_ext _ _ _ _ _ row); [done| |].
        -- rewrite Nat.eqb_refl. simpl. by rewrite <- app_assoc.
        -- intros m z Hm _. apply Nat.eqb_neq in Hm.
           rewrite Nat.eqb_sym in Hm. by rewrite Hm.
      * rewrite H2. apply (imap_insert_ext _ _ _ _ _ k); [done| |].
        -- rewrite Nat.eqb_refl. simpl. lia.
        -- intros m z Hm _. apply Nat.eqb_neq in Hm.
           rewrite Nat.eqb_sym in Hm. by rewrite Hm.
      * constructor; [|done]. intros _. by eapply lookup_lt_Some.
      * congruence.
Qed.

(** **** The second loop *)
Lemma mark_row_spec (pre suf : list virCapsHostNUMACellCPU)
    (t : libxl_cputopology) (i : nat) :
  mark_row (pre ++ suf) t i (length pre) (length suf) =
    Ok (pre ++ map (mark t i) suf).
Proof.
  revert pre. induction suf as [|c suf IH]; intros pre; simpl.
  - reflexivity.
  - rewrite list_lookup_middle by reflexivity.
    replace (if (socket_id c =? socket t)%N && (core_id c =? core t)%N
             then <[length pre := set_sibling c i]> (pre ++ c :: suf)
             else pre ++ c :: suf)
      with ((pre ++ [mark t i c]) ++ suf).
    + specialize (IH (pre ++ [mark t i c])).
      rewrite length_app in IH. simpl in IH. rewrite Nat.add_1_r in IH.
      rewrite IH, <- app_assoc. reflexivity.
    + unfold mark. rewrite <- app_assoc. simpl.
      destruct ((socket_id c =? socket t)%N && (core_id c =? core t)%N); [|done].
      rewrite insert_app_r_alt, Nat.sub_diag by lia. reflexivity.
Qed.

Lemma populate_siblings_spec (topo : list libxl_cputopology) (i : nat)
    (cpus : list (list virCapsHostNUMACellCPU)) (nrs : list nat) :
  Forall2 (fun row k => length row = k) cpus nrs ->
  Forall (fun t => valid_core cfg t = true -> N.to_nat (node t) < length cpus) topo ->
  populate_siblings cfg topo i (cpus, nrs) =
    Ok (imap (fun n row => map (sib_fold cfg topo i n) row) cpus, nrs).
Proof.
  revert i cpus. induction topo as [|t rest IH]; intros i cpus Hlen Hnodes; simpl.
  - f_equal. f_equal. apply list_eq. intros m. rewrite list_lookup_imap.
    destruct (cpus !! m); simpl; [|done]. by rewrite map_id.
  - apply Forall_cons in Hnodes as [Hn Hnodes].
    unfold on_node, valid_core in *.
    destruct (core t =? LIBXL_CPUTOPOLOGY_INVALID_ENTRY cfg)%N eqn:Ec; simpl in *.
    + by apply IH.
    + specialize (Hn eq_refl).
      destruct (lookup_lt_is_Some_2 cpus (N.to_nat (node t)) Hn) as [row Er].
      destruct (Forall2_lookup_l _ _ _ _ _ Hlen Er) as (k & Ek & Hk).
      rewrite Ek, Er. subst k.
      pose proof (mark_row_spec [] row t i) as Hm. simpl in Hm. rewrite Hm.
      rewrite IH.
      * f_equal. f_equal. apply (imap_insert_ext _ _ _ _ _ row); [done| |].
        -- rewrite Nat.eqb_refl. simpl. by rewrite map_map.
        -- intros m z Hne _. apply Nat.eqb_neq in Hne.
           rewrite Nat.eqb_sym in Hne. by rewrite Hne.
      * rewrite <- (list_insert_id nrs (N.to_nat (node t)) (length row) Ek).
        apply Forall2_insert; [done|by rewrite length_map].
      * by rewrite length_insert.
Qed.

(** **** The third loop *)
Lemma add_cells_spec (numa : list libxl_numainfo) (i : nat)
    (cpus : list (list virCapsHostNUMACellCPU)) (nrs : list nat)
    (topo : list libxl_cputopology) (s s' : bstate) :
  Forall2 (fun row k => length row = k) cpus nrs ->
  (forall n row, cpus !! n = Some row -> row = node_cpus cfg topo n) ->
  add_cells cfg numa i (cpus, nrs) s = (Ok tt, s') ->
  host_numaCell (caps s') = host_numaCell (caps s) ++ emitted cfg numa i topo.
Proof.
  intros Hlen Hrows. revert i s. induction numa as [|n rest IH]; intros i s; simpl.
  - intros [= <-]. by rewrite app_nil_r.
  - destruct (size n =? LIBXL_NUMAINFO_INVALID_ENTRY cfg)%N; simpl; [apply IH|].
    destruct (nrs !! i) as [k|] eqn:Ek; [|discriminate].
    destruct (cpus !! i) as [row|] eqn:Er; [|discriminate].
    intros H. apply bind_Ok in H as ([] & s1 & Hadd & H).
    unfold virCapabilitiesAddHostNUMACell in Hadd.
    apply bind_Ok in Hadd as ([] & s0 & Ha & Hm).
    destruct (alloc_Ok _ _ _ Ha) as (Hc & _).
    unfold modify in Hm. injection Hm as <-.
    rewrite (IH _ _ H). simpl. rewrite Hc, <- app_assoc. simpl.
    pose proof (Forall2_lookup_lr _ _ _ _ _ _ Hlen Er Ek) as Hk. simpl in Hk. subst k.
    rewrite firstn_all. by rewrite (Hrows i row Er).
Qed.

(** **** The whole builder, when it succeeds *)
Lemma libxlCapsInitNuma_Ok (ctx : libxl_ctx) (s s' : bstate) :
  libxlCapsInitNuma cfg ctx s = (Ok tt, s') ->
  exists numa topo,
    libxl_get_numainfo ctx = Some numa /\
    libxl_get_cpu_topology ctx = Some topo /\
    Forall (fun t => valid_core cfg t = true -> N.to_nat (node t) < length numa) topo /\
    host_numaCell (caps s') = host_numaCell (caps s) ++ emitted cfg numa 0 topo.
Proof.
  unfold libxlCapsInitNuma. intros H.
  assert (Hb : libxlCapsInitNuma_body cfg ctx s = (Ok tt, s')).
  { destruct (libxlCapsInitNuma_body cfg ctx s) as [[[]| | |] s1]; congruence. }
  clear H. unfold libxlCapsInitNuma_body in Hb.
  destruct (libxl_get_numainfo ctx) as [numa|]; [|discriminate].
  destruct (libxl_get_cpu_topology ctx) as [topo|];
    [|destruct numa; discriminate].
  exists numa, topo. split; [done|]. split; [done|].
  assert (Hb' :
    (alloc ;; alloc ;;
     arrs ← prepare_cpus cfg topo 0 (length topo)
              (replicate (length numa) [], replicate (length numa) 0) ;
     arrs' ← lift (populate_siblings cfg topo 0 arrs) ;
     add_cells cfg numa 0 arrs') s = (Ok tt, s')).
  { destruct numa; [discriminate|]. destruct topo; [discriminate|]. exact Hb. }
  clear Hb.
  apply bind_Ok in Hb' as ([] & s1 & Ha1 & H).
  apply bind_Ok in H as ([] & s2 & Ha2 & H).
  apply bind_Ok in H as ([cpus nrs] & s3 & Hprep & H).
  apply bind_Ok in H as ([cpus' nrs'] & s4 & Hpop & Hadd).
  unfold lift in Hpop. injection Hpop as Hpop <-.
  destruct (alloc_Ok _ _ _ Ha1) as (Hc1 & _).
  destruct (alloc_Ok _ _ _ Ha2) as (Hc2 & _).
  destruct (prepare_cpus_spec _ _ _ _ _ _ _ _ Hprep) as (H1 & H2 & H3 & H4).
  simpl in H1, H2. rewrite length_replicate in H3.
  split; [done|].
  assert (Hlen : Forall2 (fun row k => length row = k) cpus nrs).
  { apply Forall2_same_length_lookup. split.
    - by rewrite H1, H2, !length_imap, !length_replicate.
    - intros n row k. rewrite H1, H2, !list_lookup_imap.
      destruct (decide (n < length numa)) as [Hn|Hn].
      + rewrite !lookup_replicate_2 by done. simpl. by intros [= <-] [= <-].
      + rewrite (proj1 (lookup_replicate_None _ _ _)) by lia. done. }
  rewrite populate_siblings_spec in Hpop; [|done|].
  2:{ by rewrite H1, length_imap, length_replicate. }
  injection Hpop as <- <-.
  assert (Hlen' : Forall2 (fun row k => length row = k)
            (imap (fun n row => map (sib_fold cfg topo 0 n) row) cpus) nrs).
  { apply Forall2_same_length_lookup. split.
    - rewrite length_imap. by eapply Forall2_length.
    - intros n row k. rewrite list_lookup_imap.
      destruct (cpus !! n) as [r|] eqn:Er; simpl; [|done].
      intros [= <-] Hk. rewrite length_map.
      by apply (Forall2_lookup_lr _ _ _ _ _ _ Hlen Er Hk). }
  assert (Hrows : forall n row,
            imap (fun n row => map (sib_fold cfg topo 0 n) row) cpus !! n = Some row ->
            row = node_cpus cfg topo n).
  { intros n row. rewrite list_lookup_imap, H1, list_lookup_imap.
    destruct (decide (n < length numa)) as [Hn|Hn].
    - rewrite lookup_replicate_2 by done. simpl. by intros [= <-].
    - rewrite (proj1 (lookup_replicate_None _ _ _)) by lia. done. }
  rewrite (add_cells_spec _ _ _ _ topo _ _ Hlen' Hrows Hadd).
  congruence.
Qed.

(** **** The builder succeeds when nothing fails

    With both queries answered, every placed CPU on a node that exists and
    no allocation failing, the builder adds the cells and changes nothing
    else. *)
Lemma alloc_or_report_no_faults (msg : string) (s : bstate) :
  faults s = [] -> alloc_or_report msg s = (Ok tt, s).
Proof. intros H. unfold alloc_or_report. by rewrite alloc_no_faults. Qed.

Lemma prepare_cpus_no_faults (topo : list libxl_cputopology) (i nr_cpus : nat)
    (cpus : list (list virCapsHostNUMACellCPU)) (nrs : list nat) (s : bstate) :
  faults s = [] ->
  length cpus = length nrs ->
  Forall (fun t => valid_core cfg t = true -> N.to_nat (node t) < length cpus) topo ->
  exists arrs, prepare_cpus cfg topo i nr_cpus (cpus, nrs) s = (Ok arrs, s).
Proof.
  intros Hf. revert i cpus nrs.
  induction topo as [|t rest IH]; intros i cpus nrs Hlen Hnodes; simpl.
  - by eexists.
  - apply Forall_cons in Hnodes as [Hn Hnodes]. unfold valid_core in Hn.
    destruct (core t =? LIBXL_CPUTOPOLOGY_INVALID_ENTRY cfg)%N; simpl in *.
    + by apply IH.
    + specialize (Hn eq_refl).
      destruct (lookup_lt_is_Some_2 cpus (N.to_nat (node t)) Hn) as [row ->].
      destruct (lookup_lt_is_Some_2 nrs (N.to_nat (node t))) as [k ->]; [lia|].
      rewrite (bind_run _ _ _ _ _ (alloc_no_faults s Hf)).
      rewrite (bind_run _ _ _ _ _ (alloc_or_report_no_faults _ s Hf)).
      apply IH.
      * by rewrite !length_insert.
      * by rewrite length_insert.
Qed.

Lemma add_cells_no_faults (numa : list libxl_numainfo) (i : nat)
    (cpus : list (list virCapsHostNUMACellCPU)) (nrs : list nat) (s : bstate) :
  faults s = [] ->
  length cpus = length nrs ->
  i + length numa <= length cpus ->
  exists c', add_cells cfg numa i (cpus, nrs) s =
               (Ok tt, {| caps := c'; faults := []; errors := errors s |}) /\
             forall l, set_host_numaCell l c' = set_host_numaCell l (caps s).
Proof.
  revert i s. induction numa as [|n rest IH]; intros i s Hf Hlen Hi; simpl.
  - exists (caps s). split; [|done]. rewrite <- Hf. by rewrite bstate_eta.
  - simpl in Hi.
    destruct (size n =? LIBXL_NUMAINFO_INVALID_ENTRY cfg)%N; [apply IH; (done || lia)|].
    simpl.
    destruct (lookup_lt_is_Some_2 nrs i) as [k ->]; [lia|].
    destruct (lookup_lt_is_Some_2 cpus i) as [row ->]; [lia|].
    unfold virCapabilitiesAddHostNUMACell.
    rewrite bind_unfold, (bind_run _ _ _ _ _ (alloc_no_faults s Hf)).
    unfold modify at 1.
    match goal with
    | |- context [add_cells cfg rest (S i) (cpus, nrs) ?s1] =>
        destruct (IH (S i) s1) as (c' & -> & Hc'); [done|done|lia|]
    end.
    exists c'. split; [done|]. intros l. by rewrite Hc'.
Qed.

Lemma libxlCapsInitNuma_no_faults (ctx : libxl_ctx) (numa : list libxl_numainfo)
    (topo : list libxl_cputopology) (s : bstate) :
  libxl_get_numainfo ctx = Some numa ->
  libxl_get_cpu_topology ctx = Some topo ->
  numa <> [] -> topo <> [] ->
  Forall (fun t => valid_core cfg t = true -> N.to_nat (node t) < length numa) topo ->
  faults s = [] ->
  libxlCapsInitNuma cfg ctx s =
    (Ok tt, {| caps := set_host_numaCell
                         (host_numaCell (caps s) ++ emitted cfg numa 0 topo) (caps s);
               faults := []; errors := errors s |}).
Proof.
  intros Hnuma Htopo Hn0 Ht0 Hnodes Hf.
  assert (Hrun : exists c',
    libxlCapsInitNuma_body cfg ctx s =
      (Ok tt, {| caps := c'; faults := []; errors := errors s |}) /\
    forall l, set_host_numaCell l c' = set_host_numaCell l (caps s)).
  { unfold libxlCapsInitNuma_body. rewrite Hnuma, Htopo.
    destruct numa as [|n0 numa0] eqn:En; [done|]. rewrite <- En in *.
    destruct topo as [|t0 topo0] eqn:Et; [done|]. rewrite <- Et in *.
    clear En Et n0 numa0 t0 topo0.
    rewrite (bind_run _ _ _ _ _ (alloc_no_faults s Hf)).
    rewrite (bind_run _ _ _ _ _ (alloc_no_faults s Hf)).
    destruct (prepare_cpus_no_faults topo 0 (length topo)
                (replicate (length numa) []) (replicate (length numa) 0) s Hf)
      as ([cpus nrs] & Hprep).
    { by rewrite !length_replicate. }
    { by rewrite length_replicate. }
    rewrite (bind_run _ _ _ _ _ Hprep).
    destruct (prepare_cpus_spec _ _ _ _ _ _ _ _ Hprep) as (H1 & H2 & _ & _).
    simpl in H1, H2.
    assert (Hlen : Forall2 (fun row k => length row = k) cpus nrs).
    { apply Forall2_same_length_lookup. split.
      - by rewrite H1, H2, !length_imap, !length_replicate.
      - intros m row k. rewrite H1, H2, !list_lookup_imap.
        destruct (decide (m < length numa)) as [Hm|Hm].
        + rewrite !lookup_replicate_2 by done. simpl. by intros [= <-] [= <-].
        + rewrite (proj1 (lookup_replicate_None _ _ _)) by lia. done. }
    assert (Hcl : length cpus = length numa)
      by (by rewrite H1, length_imap, length_replicate).
    rewrite bind_unfold. unfold lift.
    rewrite populate_siblings_spec; [|done|by rewrite Hcl].
    apply add_cells_no_faults; [done| |].
    - rewrite length_imap. by eapply Forall2_length.
    - rewrite length_imap. lia. }
  destruct Hrun as (c' & Hrun & Hc').
  pose proof (libxlCapsInitNuma_Ok ctx s _ ltac:(unfold libxlCapsInitNuma; rewrite Hrun; reflexivity))
    as (numa' & topo' & Hn' & Ht' & _ & Hcells).
  assert (numa' = numa) as -> by congruence.
  assert (topo' = topo) as -> by congruence.
  unfold libxlCapsInitNuma. rewrite Hrun. f_equal. f_equal.
  simpl in Hcells. rewrite <- Hcells, <- (Hc' (host_numaCell c')).
  by destruct c'.
Qed.

(** **** What the emitted cells hold *)
Lemma In_row_of (topo : list libxl_cputopology) (i0 nr n : nat)
    (c : virCapsHostNUMACellCPU) :
  In c (row_of cfg topo i0 nr n) ->
  exists j t, topo !! j = Some t /\ on_node cfg n t = true /\
              c = new_cpu (i0 + j) nr t.
Proof.
  revert i0. induction topo as [|t rest IH]; intros i0; simpl; [done|].
  intros Hin. apply in_app_or in Hin as [Hin|Hin].
  - destruct (on_node cfg n t) eqn:E; [|done].
    destruct Hin as [<-|[]]. exists 0, t. rewrite Nat.add_0_r. done.
  - destruct (IH _ Hin) as (j & t' & Hj & Hn & ->).
    exists (S j), t'. rewrite Nat.add_succ_r. done.
Qed.

Lemma set_bit_spec (bm : virBitmap) (i k : nat) :
  virBitmapIsSet (virBitmapSetBit bm i) k <->
  virBitmapIsSet bm k \/ (k = i /\ i < length bm).
Proof.
  unfold virBitmapIsSet, virBitmapSetBit. rewrite list_lookup_insert.
  case_decide as H.
  - destruct H as [-> Hlt]. split; [intros _; right; done|done].
  - split; [by left|]. intros [Hk|[-> Hlt]]; [done|]. tauto.
Qed.

Lemma mark_fields (t : libxl_cputopology) (i : nat) (c : virCapsHostNUMACellCPU) :
  cpu_id (mark t i c) = cpu_id c /\ socket_id (mark t i c) = socket_id c /\
  core_id (mark t i c) = core_id c /\
  length (siblings (mark t i c)) = length (siblings c).
Proof.
  unfold mark. destruct ((socket_id c =? socket t)%N && (core_id c =? core t)%N);
    simpl; [|done].
  unfold virBitmapSetBit. by rewrite length_insert.
Qed.

Lemma mark_bits (t : libxl_cputopology) (i k : nat) (c : virCapsHostNUMACellCPU) :
  virBitmapIsSet (siblings (mark t i c)) k <->
  virBitmapIsSet (siblings c) k \/
  (k = i /\ i < length (siblings c) /\ socket t = socket_id c /\ core t = core_id c).
Proof.
  unfold mark.
  destruct (N.eqb_spec (socket_id c) (socket t)) as [Hs|Hs]; simpl.
  - destruct (N.eqb_spec (core_id c) (core t)) as [Hc|Hc]; simpl.
    + rewrite set_bit_spec. intuition congruence.
    + intuition congruence.
  - intuition congruence.
Qed.

Lemma sib_fold_fields (topo : list libxl_cputopology) (i0 n : nat)
    (c : virCapsHostNUMACellCPU) :
  cpu_id (sib_fold cfg topo i0 n c) = cpu_id c /\
  socket_id (sib_fold cfg topo i0 n c) = socket_id c /\
  core_id (sib_fold cfg topo i0 n c) = core_id c /\
  length (siblings (sib_fold cfg topo i0 n c)) = length (siblings c).
Proof.
  revert i0 c. induction topo as [|t rest IH]; intros i0 c; simpl; [done|].
  destruct (IH (S i0) (if on_node cfg n t then mark t i0 c else c))
    as (H1 & H2 & H3 & H4).
  rewrite H1, H2, H3, H4.
  destruct (on_node cfg n t); [apply mark_fields|done].
Qed.

Lemma sib_fold_bits (topo : list libxl_cputopology) (i0 n k : nat)
    (c : virCapsHostNUMACellCPU) :
  virBitmapIsSet (siblings (sib_fold cfg topo i0 n c)) k <->
  virBitmapIsSet (siblings c) k \/
  (k < length (siblings c) /\
   exists j t, k = i0 + j /\ topo !! j = Some t /\ on_node cfg n t = true /\
               socket t = socket_id c /\ core t = core_id c).
Proof.
  revert i0 c. induction topo as [|t rest IH]; intros i0 c; simpl.
  - split; [by left|]. intros [H|(_ & j & t & _ & H & _)]; done.
  - rewrite IH. clear IH.
    destruct (on_node cfg n t) eqn:E.
    + destruct (mark_fields t i0 c) as (_ & Hs & Hc & Hl).
      rewrite Hs, Hc, Hl, mark_bits. split.
      * intros [[H|(-> & Hlt & Hso & Hco)]|(Hlt & j & t' & -> & Hj & Hn & Hso & Hco)].
        -- by left.
        -- right. split; [done|]. exists 0, t. rewrite Nat.add_0_r. done.
        -- right. split; [done|]. exists (S j), t'. rewrite Nat.add_succ_r. done.
      * intros [H|(Hlt & [|j] & t' & -> & Hj & Hn & Hso & Hco)].
        -- left. by left.
        -- simpl in Hj. injection Hj as <-. left. right.
           rewrite Nat.add_0_r in *. done.
        -- right. split; [done|]. exists j, t'. rewrite Nat.add_succ_r. done.
    + split.
      * intros [H|(Hlt & j & t' & -> & Hj & Hn & Hso & Hco)]; [by left|].
        right. split; [done|]. exists (S j), t'. rewrite Nat.add_succ_r. done.
      * intros [H|(Hlt & [|j] & t' & -> & Hj & Hn & Hso & Hco)]; [by left| |].
        -- simpl in Hj. injection Hj as <-. congruence.
        -- right. split; [done|]. exists j, t'. rewrite Nat.add_succ_r. done.
Qed.

(** A CPU of node [n]'s list is a CPU of the topology placed on [n], and
    its sibling bits are the CPUs of [n] with its socket and core. *)
Lemma node_cpus_char (topo : list libxl_cputopology) (n : nat)
    (c : virCapsHostNUMACellCPU) :
  In c (node_cpus cfg topo n) ->
  exists t, topo !! cpu_id c = Some t /\ on_node cfg n t = true /\
    socket_id c = socket t /\ core_id c = core t /\
    forall k, virBitmapIsSet (siblings c) k <->
      exists t', topo !! k = Some t' /\ on_node cfg n t' = true /\
                 socket t' = socket t /\ core t' = core t.
Proof.
  unfold node_cpus. intros Hin. apply in_map_iff in Hin as (c0 & <- & Hin).
  apply In_row_of in Hin as (j & t & Hj & Hn & ->). simpl in *.
  destruct (sib_fold_fields topo 0 n (new_cpu j (length topo) t)) as (H1 & H2 & H3 & _).
  exists t. rewrite H1, H2, H3. simpl.
  split; [done|]. split; [done|]. split; [done|]. split; [done|].
  intros k. rewrite sib_fold_bits. simpl.
  unfold virBitmapNew, virBitmapIsSet. rewrite length_replicate. split.
  - intros [H|(Hlt & j' & t' & -> & Hj' & ?)].
    + apply lookup_replicate in H as [? _]. done.
    + exists t'. done.
  - intros (t' & Hk & ?). right. split; [by eapply lookup_lt_Some|].
    exists k, t'. done.
Qed.

Lemma on_node_inv (n : nat) (t : libxl_cputopology) :
  on_node cfg n t = true -> valid_core cfg t = true /\ N.to_nat (node t) = n.
Proof.
  unfold on_node. intros H. apply andb_true_iff in H as [Hv Hn].
  by apply Nat.eqb_eq in Hn.
Qed.

Lemma In_emitted (numa : list libxl_numainfo) (i0 : nat)
    (topo : list libxl_cputopology) (c : virCapsHostNUMACell) :
  In c (emitted cfg numa i0 topo) <->
  exists j n, numa !! j = Some n /\
    size n <> LIBXL_NUMAINFO_INVALID_ENTRY cfg /\
    c = {| cell_num := i0 + j; cell_mem := (size n / 1024)%N;
           cell_cpus := node_cpus cfg topo (i0 + j) |}.
Proof.
  revert i0. induction numa as [|n rest IH]; intros i0; simpl.
  - split; [done|]. intros (j & n & H & _). done.
  - rewrite in_app_iff, IH. clear IH. split.
    + intros [Hin|(j & n' & Hj & Hv & ->)].
      * destruct (N.eqb_spec (size n) (LIBXL_NUMAINFO_INVALID_ENTRY cfg)); [done|].
        destruct Hin as [<-|[]]. exists 0, n. rewrite Nat.add_0_r. done.
      * exists (S j), n'. rewrite Nat.add_succ_r. done.
    + intros ([|j] & n' & Hj & Hv & ->).
      * simpl in Hj. injection Hj as <-. left.
        destruct (N.eqb_spec (size n) (LIBXL_NUMAINFO_INVALID_ENTRY cfg)); [done|].
        rewrite Nat.add_0_r. by left.
      * right. exists j, n'. rewrite Nat.add_succ_r. done.
Qed.

Lemma emitted_nums_NoDup (numa : list libxl_numainfo) (i0 : nat)
    (topo : list libxl_cputopology) :
  NoDup (map cell_num (emitted cfg numa i0 topo)).
Proof.
  revert i0. induction numa as [|n rest IH]; intros i0; simpl; [constructor|].
  destruct (size n =? LIBXL_NUMAINFO_INVALID_ENTRY cfg)%N; simpl; [apply IH|].
  constructor; [|apply IH].
  intros Hin. apply list_elem_of_In, in_map_iff in Hin as (c & Hc & Hin).
  apply In_emitted in Hin as (j & n' & _ & _ & ->). simpl in Hc. lia.
Qed.

(** C3: when the NUMA topology builder succeeds, the cells it adds have
    symmetric sibling sets: for CPUs A and B of these cells, A's id is in
    B's siblings exactly when B's id is in A's siblings, and that is
    exactly when A and B are in the same cell (node) with the same socket
    and the same core; and every CPU's siblings contain its own id. *)
Theorem siblings_symmetric (ctx : libxl_ctx) (s s' : bstate) :
  libxlCapsInitNuma cfg ctx s = (Ok tt, s') ->
  exists cells,
    host_numaCell (caps s') = host_numaCell (caps s) ++ cells /\
    forall cA cB A B,
      In cA cells -> In cB cells ->
      In A (cell_cpus cA) -> In B (cell_cpus cB) ->
      (virBitmapIsSet (siblings B) (cpu_id A) <->
       virBitmapIsSet (siblings A) (cpu_id B)) /\
      (virBitmapIsSet (siblings B) (cpu_id A) <->
       cell_num cA = cell_num cB /\ socket_id A = socket_id B /\
       core_id A = core_id B) /\
      virBitmapIsSet (siblings A) (cpu_id A).
Proof.
  intros H. destruct (libxlCapsInitNuma_Ok ctx s s' H)
    as (numa & topo & _ & _ & _ & Hcells).
  exists (emitted cfg numa 0 topo). split; [done|].
  intros cA cB A B HcA HcB HA HB.
  apply In_emitted in HcA as (a & na & _ & _ & ->).
  apply In_emitted in HcB as (b & nb & _ & _ & ->).
  simpl in *.
  apply node_cpus_char in HA as (tA & HtA & HnA & HsA & HcA & HbitsA).
  apply node_cpus_char in HB as (tB & HtB & HnB & HsB & HcB & HbitsB).
  destruct (on_node_inv a tA HnA) as (HvA & HnodeA).
  destruct (on_node_inv b tB HnB) as (HvB & HnodeB).
  assert (Hiff : virBitmapIsSet (siblings B) (cpu_id A) <->
                 a = b /\ socket_id A = socket_id B /\ core_id A = core_id B).
  { rewrite HbitsB. split.
    - intros (t' & Ht' & Hn' & Hs' & Hc'). rewrite HtA in Ht'. injection Ht' as <-.
      destruct (on_node_inv b tA Hn') as (_ & Hb). split; [congruence|].
      split; congruence.
    - intros (-> & Hs & Hc). exists tA. split; [done|]. split; [done|].
      split; congruence. }
  assert (Hiff' : virBitmapIsSet (siblings A) (cpu_id B) <->
                  a = b /\ socket_id A = socket_id B /\ core_id A = core_id B).
  { rewrite HbitsA. split.
    - intros (t' & Ht' & Hn' & Hs' & Hc'). rewrite HtB in Ht'. injection Ht' as <-.
      destruct (on_node_inv a tB Hn') as (_ & Ha). split; [congruence|].
      split; congruence.
    - intros (-> & Hs & Hc). exists tB. split; [done|]. split; [done|].
      split; congruence. }
  split; [by rewrite Hiff, Hiff'|]. split; [done|].
  rewrite HbitsA. exists tA. done.
Qed.

(** C4: when the NUMA topology builder succeeds, the cells it adds are,
    one each, those of the nodes whose reported size is not the sentinel,
    with the reported size divided by 1024 as memory; and no CPU whose
    node has the sentinel size is in any of these cells. *)
Theorem numa_cells_for_valid_nodes (ctx : libxl_ctx) (s s' : bstate)
    (numa : list libxl_numainfo) (topo : list libxl_cputopology) :
  libxl_get_numainfo ctx = Some numa ->
  libxl_get_cpu_topology ctx = Some topo ->
  libxlCapsInitNuma cfg ctx s = (Ok tt, s') ->
  exists cells,
    host_numaCell (caps s') = host_numaCell (caps s) ++ cells /\
    NoDup (map cell_num cells) /\
    (forall i mem,
       (exists c, In c cells /\ cell_num c = i /\ cell_mem c = mem) <->
       (exists n, numa !! i = Some n /\
                  size n <> LIBXL_NUMAINFO_INVALID_ENTRY cfg /\
                  mem = (size n / 1024)%N)) /\
    (forall i t n,
       topo !! i = Some t ->
       numa !! N.to_nat (node t) = Some n ->
       size n = LIBXL_NUMAINFO_INVALID_ENTRY cfg ->
       forall c cpu, In c cells -> In cpu (cell_cpus c) -> cpu_id cpu <> i).
Proof.
  intros Hnuma Htopo H. destruct (libxlCapsInitNuma_Ok ctx s s' H)
    as (numa' & topo' & Hnuma' & Htopo' & _ & Hcells).
  assert (numa' = numa) as -> by congruence.
  assert (topo' = topo) as -> by congruence.
  exists (emitted cfg numa 0 topo). split; [done|].
  split; [apply emitted_nums_NoDup|]. split.
  - intros i mem. split.
    + intros (c & Hin & <- & <-). apply In_emitted in Hin as (j & n & Hj & Hv & ->).
      simpl. exists n. done.
    + intros (n & Hi & Hv & ->). eexists. split.
      * apply In_emitted. exists i, n. done.
      * done.
  - intros i t n Hi Hn Hinv c cpu Hc Hcpu Heq.
    apply In_emitted in Hc as (j & n' & Hj & Hv & ->). simpl in *.
    apply node_cpus_char in Hcpu as (t' & Ht' & Hon & _).
    destruct (on_node_inv j t' Hon) as (_ & Hnode).
    rewrite Heq in Ht'.
    assert (t' = t) as -> by congruence.
    rewrite Hnode in Hn. congruence.
Qed.

End Numa.

Lemma siblings_symmetric_witness :
  exists cells,
    host_numaCell
      (caps (libxlCapsInitNuma Examples.cfg Examples.ctx Examples.start).2) =
      [] ++ cells /\
    forall cA cB A B,
      In cA cells -> In cB cells ->
      In A (cell_cpus cA) -> In B (cell_cpus cB) ->
      (virBitmapIsSet (siblings B) (cpu_id A) <->
       virBitmapIsSet (siblings A) (cpu_id B)) /\
      (virBitmapIsSet (siblings B) (cpu_id A) <->
       cell_num cA = cell_num cB /\ socket_id A = socket_id B /\
       core_id A = core_id B) /\
      virBitmapIsSet (siblings A) (cpu_id A).
Proof.
  apply (siblings_symmetric Examples.cfg Examples.ctx Examples.start).
  vm_compute. reflexivity.
Defined.

Lemma numa_cells_for_valid_nodes_witness :
  exists cells,
    host_numaCell
      (caps (libxlCapsInitNuma Examples.cfg Examples.ctx Examples.start).2) =
      [] ++ cells /\
    NoDup (map cell_num cells) /\
    (forall i mem,
       (exists c, In c cells /\ cell_num c = i /\ cell_mem c = mem) <->
       (exists n, Examples.numa !! i = Some n /\
                  size n <> 4294967295%N /\ mem = (size n / 1024)%N)) /\
    (forall i t n,
       Examples.topo !! i = Some t ->
       Examples.numa !! N.to_nat (node t) = Some n ->
       size n = 4294967295%N ->
       forall c cpu, In c cells -> In cpu (cell_cpus c) -> cpu_id cpu <> i).
Proof.
  apply (numa_cells_for_valid_nodes Examples.cfg Examples.ctx Examples.start).
  - reflexivity.
  - reflexivity.
  - vm_compute. reflexivity.
Defined.


Ltac emulator_cases :=
  repeat split; intros;
  repeat match goal with
         | H : _ /\ _ |- _ => destruct H
         | H : exists _, _ |- _ => destruct H
         | H : Some _ = Some _ |- _ => injection H as H; subst
         end;
  try congruence; eauto 10.



End LibxlFacts.

(** ** nodeinfo.c *)
Module NodeInfoFacts.
Import NodeInfo.

Lemma read_chunk_shorter (n : nat) (f chunk rest : list ascii) :
  read_chunk (S n) f = (chunk, rest) -> f <> [] -> length rest < length f.
Proof.
  assert (G : forall n f chunk rest,
            read_chunk n f = (chunk, rest) -> length rest <= length f).
  { clear. induction n as [|n IH]; intros f chunk rest; simpl.
    - intros [= <- <-]. lia.
    - destruct f as [|c r]; [intros [= <- <-]; simpl; lia|].
      destruct (Ascii.eqb c "010"); [intros [= <- <-]; simpl; lia|].
      destruct (read_chunk n r) as [l r'] eqn:E. intros [= <- <-].
      apply IH in E. simpl. lia. }
  destruct f as [|c r]; [done|]. simpl. intros H _.
  destruct (Ascii.eqb c "010"); [injection H as <- <-; lia|].
  destruct (read_chunk n r) as [l r'] eqn:E. injection H as <- <-.
  apply G in E. lia.
Qed.

(** The C string at the front of the array after [fgets] is the chunk,
    cut at its first terminator. *)
Lemma until_nul_app (chunk junk : list ascii) :
  until_nul (chunk ++ NUL :: junk) = until_nul (chunk ++ [NUL]) /\
  is_Some (until_nul (chunk ++ [NUL])).
Proof.
  induction chunk as [|c chunk [IH1 IH2]]; simpl.
  - split; [done|by eexists].
  - destruct (Ascii.eqb c NUL); [split; [done|by eexists]|].
    rewrite IH1. split; [done|]. destruct IH2 as [l ->]. by eexists.
Qed.

Lemma prefix_processor_not_cores (l : list ascii) :
  STRPREFIX l (chars "processor") = true ->
  STRPREFIX l (chars "cpu cores") = false.
Proof.
  destruct l as [|c l]; simpl; [done|].
  destruct (Ascii.eqb_spec c "p") as [->|]; [|done]. done.
Qed.

Lemma prefix_mhz_not_cores (l : list ascii) :
  STRPREFIX l (chars "cpu MHz") = true ->
  STRPREFIX l (chars "cpu cores") = false.
Proof.
  destruct l as [|c1 [|c2 [|c3 [|c4 [|c5 l]]]]]; simpl; try done;
    repeat (match goal with
            | |- context [Ascii.eqb ?c ?d] =>
                destruct (Ascii.eqb_spec c d) as [->|]; try done
            end).
Qed.

Section Populate.
Variable virStrToLong_ui : list ascii -> option (N * list ascii).

Local Abbreviation line_body := (line_body virStrToLong_ui).
Local Abbreviation read_loop := (read_loop virStrToLong_ui).
Local Abbreviation cpu_cores_value := (cpu_cores_value virStrToLong_ui).
Local Abbreviation max_cores := (max_cores virStrToLong_ui).

(** One round of the loop never runs out of fuel, and when it goes on it
    has counted the line and taken its "cpu cores" value. *)
Lemma line_body_spec (ni : virNodeInfo) (chunk junk : list ascii) :
  let l := default [] (until_nul (chunk ++ [NUL])) in
  match line_body ni (chunk ++ NUL :: junk) with
  | Ok ni' =>
      cpus ni' = (cpus ni + if is_processor_line l then 1 else 0)%N /\
      cores ni' = match cpu_cores_value l with
                  | Some id => N.max (cores ni) id
                  | None => cores ni
                  end /\
      nodes ni' = nodes ni /\ threads ni' = threads ni /\ sockets ni' = sockets ni
  | OutOfFuel => False
  | _ => True
  end.
Proof.
  intros l. unfold line_body, cstr. rewrite drop_0.
  destruct (until_nul_app chunk junk) as [-> [l' Hl']].
  subst l. rewrite Hl'. change (default [] (Some l')) with l'.
  unfold is_processor_line, NodeInfo.cpu_cores_value.
  destruct (STRPREFIX l' (chars "processor")) eqn:Ep.
  - rewrite (prefix_processor_not_cores l' Ep).
    destruct (negb _); [done|]. simpl. repeat split; reflexivity.
  - destruct (STRPREFIX l' (chars "cpu MHz")) eqn:Em.
    + rewrite (prefix_mhz_not_cores l' Em).
      destruct (until_nul (drop 9 _)) as [buf|]; [|done].
      destruct (_ || _); [done|].
      destruct (virStrToLong_ui _) as [[ui p]|]; [|simpl; rewrite N.add_0_r; done].
      destruct (_ || _); simpl; rewrite N.add_0_r; done.
    + destruct (STRPREFIX l' (chars "cpu cores")) eqn:Ec;
        [|simpl; rewrite N.add_0_r; done].
      destruct (_ || _); [done|].
      destruct (virStrToLong_ui _) as [[id p]|]; [|simpl; rewrite N.add_0_r; done].
      destruct (Ascii.eqb (deref p) NUL || c_isspace (deref p)); simpl;
        [|rewrite N.add_0_r; done].
      destruct (N.ltb_spec (cores ni) id); simpl; rewrite N.add_0_r;
        repeat split; lia.
Qed.

Lemma read_loop_spec (fuel : nat) (cpuinfo : list ascii) (st : pstate) :
  length cpuinfo < fuel ->
  match read_loop fuel cpuinfo st with
  | Ok ni =>
      cpus ni = (cpus (nodeinfo st) + processor_lines (chunks_upto fuel cpuinfo))%N /\
      cores ni = max_cores (cores (nodeinfo st)) (chunks_upto fuel cpuinfo) /\
      nodes ni = nodes (nodeinfo st) /\ threads ni = threads (nodeinfo st) /\
      sockets ni = sockets (nodeinfo st)
  | OutOfFuel => False
  | _ => True
  end.
Proof.
  revert cpuinfo st. induction fuel as [|fuel IH]; intros cpuinfo st Hf; [lia|].
  cbn [NodeInfo.read_loop chunks_upto]. unfold fgets.
  destruct cpuinfo as [|c0 r0] eqn:Ecpu.
  { unfold processor_lines. simpl. rewrite N.add_0_r. done. }
  rewrite <- Ecpu in *.
  destruct (read_chunk (sizeof_line - 1) cpuinfo) as [chunk rest] eqn:Er.
  assert (Hrest : length rest < length cpuinfo).
  { apply (read_chunk_shorter 1022 cpuinfo chunk rest); [exact Er|]. by subst. }
  subst cpuinfo.
  pose proof (line_body_spec (nodeinfo st) chunk (drop (S (length chunk)) (line st)))
    as Hbody. simpl in Hbody.
  destruct (line_body (nodeinfo st) (chunk ++ NUL :: drop (S (length chunk)) (line st)))
    as [ni1| | |]; try done.
  destruct Hbody as (Hc & Hco & Hn & Ht & Hs).
  specialize (IH rest {| nodeinfo := ni1; line := chunk ++ NUL :: drop (S (length chunk)) (line st) |}).
  destruct (read_loop fuel rest _) as [ni| | |]; try (apply IH; lia); try done.
  destruct IH as (Hc' & Hco' & Hn' & Ht' & Hs'); [lia|]. simpl in *.
  rewrite Hc', Hco', Hn', Ht', Hs', Hc, Hco, Hn, Ht, Hs.
  unfold processor_lines, NodeInfo.max_cores. simpl.
  destruct (is_processor_line _); simpl; repeat split; try done; lia.
Qed.

(** Only a "cpu MHz" line can make the function read past the array. *)
Lemma read_loop_defined (fuel : nat) (cpuinfo : list ascii) (st : pstate) :
  Forall (fun l => STRPREFIX l (chars "cpu MHz") = false) (chunks_upto fuel cpuinfo) ->
  read_loop fuel cpuinfo st <> Undefined.
Proof.
  revert cpuinfo st. induction fuel as [|fuel IH]; intros cpuinfo st; [done|].
  cbn [NodeInfo.read_loop chunks_upto]. unfold fgets.
  destruct cpuinfo as [|c0 r0] eqn:Ecpu; [done|]. rewrite <- Ecpu. clear Ecpu.
  destruct (read_chunk (sizeof_line - 1) cpuinfo) as [chunk rest].
  intros Hall. apply Forall_cons in Hall as [Hl Hall].
  set (junk := drop (S (length chunk)) (line st)).
  assert (Hb : NodeInfo.line_body virStrToLong_ui (nodeinfo st) (chunk ++ NUL :: junk)
               <> Undefined).
  { unfold NodeInfo.line_body, cstr. rewrite drop_0.
    destruct (until_nul_app chunk junk) as [-> [l' Hl']].
    rewrite Hl' in *. change (default [] (Some l')) with l' in Hl. rewrite Hl.
    destruct (STRPREFIX l' (chars "processor")); [by destruct (negb _)|].
    destruct (STRPREFIX l' (chars "cpu cores")); [|done].
    destruct (_ || _); [done|].
    destruct (virStrToLong_ui _) as [[id p]|]; [|done]. by destruct (_ && _). }
  destruct (NodeInfo.line_body virStrToLong_ui (nodeinfo st) (chunk ++ NUL :: junk))
    as [ni1| | |]; try done.
  by apply IH.
Qed.

Lemma max_cores_floor (floor : N) (ls : list (list ascii)) :
  (floor <= max_cores floor ls)%N.
Proof.
  revert floor. unfold NodeInfo.max_cores.
  induction ls as [|l ls IH]; intros floor; simpl; [lia|].
  etransitivity; [|apply IH]. destruct (cpu_cores_value l); lia.
Qed.


End Populate.


End NodeInfoFacts.

(** ** More on the token loop *)
Module ParserFacts.
Import CStr Regex GuestArchs GuestArchsFacts ParserNotions.

(** *** The matcher *)
Lemma offset_offset (a b : nat) (s : string) :
  offset a (offset b s) = offset (b + a) s.
Proof.
  revert s. induction b as [|b IH]; intros s; simpl; [done|].
  destruct s as [|c r]; [by destruct a|]. apply IH.
Qed.

(** A match moves the cursor forward in the token and only adds groups. *)
Lemma matches_cursor (token : string) (Q : nat -> regmatch_t -> Prop)
    (P : nat -> string -> Prop) (r : regex) :
  (forall n p, P n (offset p token) ->
     forall e, Q n {| rm_so := Z.of_nat p; rm_eo := e |}) ->
  groups_match P r ->
  forall cur c, In c (matches r cur) ->
    cur.1.1 = offset cur.1.2 token ->
    Forall (fun g => Q g.1 g.2) cur.2 ->
    c.1.1 = offset c.1.2 token /\ Forall (fun g => Q g.1 g.2) c.2.
Proof.
  intros HQ. induction r as [l| |a IHa b IHb|a IHa b IHb|a IHa|n a IHa];
    intros Hg [[s pos] gs] c Hin Hs Hgs; simpl in *.
  - destruct (STRPREFIX s l); [|done]. destruct Hin as [<-|[]]. simpl.
    split; [|done]. by rewrite Hs, offset_offset.
  - clear Hg. revert pos Hs Hin. induction s as [|ch s IH]; intros pos Hs Hin; simpl in *; [done|].
    destruct (is_digit ch); [|done].
    assert (Hs' : s = offset (S pos) token).
    { replace (S pos) with (pos + 1) by lia. rewrite <- offset_offset, <- Hs. done. }
    destruct Hin as [<-|Hin]; [done|]. by apply (IH (S pos)).
  - destruct Hg as [Hga Hgb]. apply in_flat_map in Hin as (c1 & Hc1 & Hc).
    destruct (IHa Hga _ _ Hc1 Hs Hgs) as [H1 H2].
    by apply (IHb Hgb c1 c).
  - destruct Hg as [Hga Hgb]. apply in_app_or in Hin as [Hin|Hin].
    + by apply (IHa Hga _ _ Hin).
    + by apply (IHb Hgb _ _ Hin).
  - apply in_app_or in Hin as [Hin|[<-|[]]].
    + by apply (IHa Hg _ _ Hin).
    + done.
  - destruct Hg as [Hn Hga]. apply in_map_iff in Hin as ([[s' pos'] gs'] & <- & Hin).
    destruct (IHa Hga _ _ Hin Hs Hgs) as [H1 H2]. simpl in *.
    split; [done|]. constructor; [|done]. simpl.
    apply HQ. rewrite <- Hs. apply (Hn _ _ Hin).
Qed.

Lemma matches_has_group (n : nat) (r : regex) :
  has_group n r = true ->
  forall cur c, In c (matches r cur) -> exists m, In (n, m) c.2.
Proof.
  assert (Hmono : forall r cur c, In c (matches r cur) ->
            forall g, In g cur.2 -> In g c.2).
  { clear. induction r as [l| |a IHa b IHb|a IHa b IHb|a IHa|m a IHa];
      intros [[s pos] gs] c Hin g Hg; simpl in *.
    - destruct (STRPREFIX s l); [|done]. by destruct Hin as [<-|[]].
    - revert pos Hin. induction s as [|ch s IH]; intros pos Hin; simpl in *; [done|].
      destruct (is_digit ch); [|done]. destruct Hin as [<-|Hin]; [done|]. by apply (IH (S pos)).
    - apply in_flat_map in Hin as (c1 & Hc1 & Hc).
      apply (IHb _ _ Hc). by apply (IHa _ _ Hc1).
    - apply in_app_or in Hin as [Hin|Hin]; [by apply (IHa _ _ Hin)|by apply (IHb _ _ Hin)].
    - apply in_app_or in Hin as [Hin|[<-|[]]]; [by apply (IHa _ _ Hin)|done].
    - apply in_map_iff in Hin as ([[s' pos'] gs'] & <- & Hin). simpl.
      right. by apply (IHa _ _ Hin g). }
  induction r as [l| |a IHa b IHb|a IHa b IHb|a IHa|m a IHa];
    intros Hh [[s pos] gs] c Hin; simpl in *; try done.
  - apply in_flat_map in Hin as (c1 & Hc1 & Hc).
    apply orb_true_iff in Hh as [Hh|Hh].
    + destruct (IHa Hh _ _ Hc1) as [mm Hm]. exists mm. by apply (Hmono _ _ _ Hc).
    + by apply (IHb Hh _ _ Hc).
  - apply andb_true_iff in Hh as [Hha Hhb].
    apply in_app_or in Hin as [Hin|Hin]; [by apply (IHa Hha _ _ Hin)|by apply (IHb Hhb _ _ Hin)].
  - apply in_map_iff in Hin as ([[s' pos'] gs'] & <- & Hin). simpl.
    destruct (Nat.eqb_spec m n) as [->|Hne]; simpl in Hh.
    + eexists. by left.
    + destruct (IHa Hh _ _ Hin) as [mm Hm]. exists mm. by right.
Qed.

Lemma longest_In (l : list cursor) (best : option cursor) (c : cursor) :
  longest best l = Some c -> best = Some c \/ In c l.
Proof.
  revert best. induction l as [|x l IH]; intros best; simpl; [by left|].
  destruct best as [b|].
  - destruct (b.1.2 <? x.1.2)%nat; intros H; apply IH in H as [H|H]; auto.
    injection H as <-. auto.
  - intros H. apply IH in H as [H|H]; auto. injection H as <-. auto.
Qed.

Lemma search_In (r : regex) (token s : string) (pos start : nat) (c : cursor) :
  s = offset pos token ->
  search r s pos = Some (start, c) ->
  In c (matches r (offset start token, start, [])).
Proof.
  revert pos. induction s as [|ch s IH]; intros pos Hs; simpl.
  - destruct (longest None _) as [c'|] eqn:E; [|done].
    intros [= <- <-]. apply longest_In in E as [E|E]; [done|]. by rewrite <- Hs.
  - destruct (longest None _) as [c'|] eqn:E.
    + intros [= <- <-]. apply longest_In in E as [E|E]; [done|]. by rewrite <- Hs.
    + apply IH. replace (S pos) with (pos + 1) by lia.
      by rewrite <- offset_offset, <- Hs.
Qed.

Lemma group_lookup_In (n : nat) (gs : list (nat * regmatch_t)) (m : regmatch_t) :
  In (n, m) gs -> In (n, group_lookup n gs) gs.
Proof.
  induction gs as [|[k g] gs IH]; simpl; [done|].
  destruct (Nat.eqb_spec k n) as [->|Hne]; [by left|].
  intros [[= ? ?]|Hin]; [done|]. right. by apply IH.
Qed.

Lemma xen_cap_groups_match : groups_match xen_cap_group XEN_CAP_REGEX.
Proof.
  unfold XEN_CAP_REGEX. simpl. repeat split; try done;
    intros [[s pos] gs] c Hin; simpl in *;
    repeat match goal with
           | H : In _ (_ ++ _) |- _ => apply in_app_or in H as [H|H]
           | H : In _ (if ?b then _ else _) |- _ => destruct b eqn:?; [|done]
           end; tauto.
Qed.

(** When the pattern matches, [subs[k].rm_so] of a group that took part is
    an offset into the token at which that group's text starts. *)
Lemma regexec_groups (token : string) (subs : list regmatch_t) :
  regexec XEN_CAP_REGEX token 4 = Some subs ->
  xen_cap_group 1 (sub_at token subs 1) /\
  xen_cap_group 2 (sub_at token subs 2) /\
  (rm_so (nth 3 subs no_match) <> (-1)%Z -> xen_cap_group 3 (sub_at token subs 3)).
Proof.
  unfold regexec. destruct (search XEN_CAP_REGEX token 0) as [[start [[s' stop] gs]]|] eqn:E;
    [|done].
  intros [= <-]. apply (search_In _ token) in E; [|done].
  set (Q := fun n (m : regmatch_t) =>
              exists p, rm_so m = Z.of_nat p /\ xen_cap_group n (offset p token)).
  destruct (matches_cursor token Q xen_cap_group XEN_CAP_REGEX) with
    (cur := (offset start token, start, @nil (nat * regmatch_t))) (c := (s', stop, gs))
    as [_ Hgs]; [|apply xen_cap_groups_match|done|done|constructor|].
  { intros n p HP e. exists p. done. }
  simpl in Hgs. rewrite Forall_forall in Hgs.
  assert (Hpresent : forall n, has_group n XEN_CAP_REGEX = true ->
            xen_cap_group n (offset (Z.to_nat (rm_so (group_lookup n gs))) token)).
  { intros n Hn. destruct (matches_has_group n _ Hn _ _ E) as [m Hm]. simpl in Hm.
    apply group_lookup_In in Hm. apply list_elem_of_In, Hgs in Hm as (p & Hp & HP).
    simpl in Hp. rewrite Hp, Nat2Z.id. done. }
  split; [exact (Hpresent 1 eq_refl)|]. split; [exact (Hpresent 2 eq_refl)|].
  clear Hpresent E.
  change (rm_so (group_lookup 3 gs) <> (-1)%Z ->
          xen_cap_group 3 (offset (Z.to_nat (rm_so (group_lookup 3 gs))) token)).
  intros H3.
  induction gs as [|[k g] gs IH]; simpl in *; [done|].
  destruct (Nat.eqb_spec k 3) as [->|Hne].
  - destruct (Hgs (3, g)) as (p & Hp & HP); [by left|]. simpl in *.
    rewrite Hp, Nat2Z.id. done.
  - apply IH; [|done]. intros x Hx. apply Hgs. by right.
Qed.

(** X1: the final [else continue] of the decoder (lines 290-292) is never
    reached: a token is ignored exactly when [regexec] finds no match. *)
Theorem decode_token_None (token : string) :
  decode_token token = None <-> regexec XEN_CAP_REGEX token 4 = None.
Proof.
  unfold decode_token.
  destruct (regexec XEN_CAP_REGEX token 4) as [subs|] eqn:E; [|done].
  split; [|done]. destruct (regexec_groups token subs E) as (_ & H2 & _).
  simpl in H2.
  repeat match goal with
         | |- context [if ?b then _ else _] => destruct b eqn:?; try done
         end.
  intuition congruence.
Qed.

End ParserFacts.

(** ** The tokens of a string *)
Module TokenFacts.
Import CStr Regex GuestArchs GuestArchsFacts ParserNotions.

Lemma skip_delim_head (s : string) :
  skip_delim s = "" \/
  exists c r, skip_delim s = String c r /\ Ascii.eqb c " " = false.
Proof.
  induction s as [|c r IH]; simpl; [by left|].
  destruct (Ascii.eqb c " ") eqn:E; [done|]. right. eauto.
Qed.

Lemma cut_token_no_space (s : string) : has_space (cut_token s).1 = false.
Proof.
  induction s as [|c r IH]; simpl; [done|].
  destruct (Ascii.eqb c " ") eqn:E; [done|].
  destruct (cut_token r) as [t rest]. simpl in *. by rewrite E.
Qed.

Lemma strtok_r_is_token (s token saveptr : string) :
  strtok_r s = Some (token, saveptr) -> is_token token.
Proof.
  unfold strtok_r. destruct (skip_delim_head s) as [->|(c & r & -> & Hc)]; [done|].
  intros H0. assert (H : cut_token (String c r) = (token, saveptr)) by congruence.
  clear H0. pose proof (cut_token_no_space (String c r)) as Hn.
  rewrite H in Hn. split; [|done].
  simpl in H. rewrite Hc in H. destruct (cut_token r). by injection H as <- _.
Qed.

Lemma tokens_upto_are_tokens (fuel : nat) (s : string) :
  Forall is_token (tokens_upto fuel s).
Proof.
  revert s. induction fuel as [|fuel IH]; intros s; simpl; [constructor|].
  destruct (strtok_r s) as [[t r]|] eqn:E; [|constructor].
  constructor; [by eapply strtok_r_is_token|apply IH].
Qed.

Lemma append_length (a b : string) :
  String.length (a +:+ b) = String.length a + String.length b.
Proof. induction a as [|c a IH]; simpl; [done|]. by rewrite IH. Qed.

Lemma cut_token_space (t rest : string) :
  has_space t = false -> cut_token (t +:+ " " +:+ rest) = (t, rest).
Proof.
  induction t as [|d t IH]; simpl; [done|].
  intros H. apply orb_false_iff in H as [Hd Ht]. by rewrite Hd, (IH Ht).
Qed.

Lemma strtok_r_token_space (t rest : string) :
  is_token t -> strtok_r (t +:+ " " +:+ rest) = Some (t, rest).
Proof.
  intros [Hne Hns]. pose proof (cut_token_space t rest Hns) as Hcut.
  destruct t as [|c t]; [done|]. simpl in Hns.
  apply orb_false_iff in Hns as [Hc Hns].
  unfold strtok_r. simpl skip_delim. rewrite Hc. by rewrite <- Hcut.
Qed.

Lemma tokens_step (s token saveptr : string) :
  strtok_r s = Some (token, saveptr) -> tokens s = token :: tokens saveptr.
Proof.
  intros H. unfold tokens at 1. simpl. rewrite H. f_equal.
  apply tokens_upto_enough. by eapply strtok_r_shorter.
Qed.

Lemma tokens_end (s : string) : strtok_r s = None -> tokens s = [].
Proof. intros H. unfold tokens. simpl. by rewrite H. Qed.

Lemma tokens_join (toks : list string) :
  Forall is_token toks -> tokens (join_tokens toks) = toks.
Proof.
  induction 1 as [|t toks Ht _ IH]; simpl; [done|].
  rewrite (tokens_step _ t (join_tokens toks)); [by rewrite IH|].
  by apply strtok_r_token_space.
Qed.

(** X2: the loop of [strtok_r] calls yields tokens that are not empty and
    hold no space, and every list of such tokens is what the loop yields
    for their concatenation with spaces: the tokens are a normal form of
    the string. *)
Theorem tokens_round_trip (capabilities : string) (toks : list string) :
  Forall is_token (tokens capabilities) /\
  (Forall is_token toks -> tokens (join_tokens toks) = toks) /\
  tokens (join_tokens (tokens capabilities)) = tokens capabilities.
Proof.
  split; [apply tokens_upto_are_tokens|]. split; [apply tokens_join|].
  apply tokens_join, tokens_upto_are_tokens.
Qed.

(** *** Strings put together *)
Lemma skip_delim_app (a b : string) :
  skip_delim (a +:+ " " +:+ b) =
    match skip_delim a with
    | "" => skip_delim b
    | a' => a' +:+ " " +:+ b
    end.
Proof.
  induction a as [|c a IH]; simpl; [done|].
  destruct (Ascii.eqb c " "); [apply IH|done].
Qed.

Lemma cut_token_app (x b : string) :
  exists r', cut_token (x +:+ " " +:+ b) = ((cut_token x).1, r') /\
    (r' = (cut_token x).2 +:+ " " +:+ b \/ ((cut_token x).2 = "" /\ r' = b)).
Proof.
  induction x as [|c x (r' & IH & Hr')]; simpl.
  - exists b. split; [done|]. by right.
  - destruct (Ascii.eqb c " "); simpl.
    + eexists. split; [done|]. by left.
    + rewrite IH. destruct (cut_token x) as [t r]. simpl in *. by exists r'.
Qed.

Lemma tokens_space (b : string) : tokens (" " +:+ b) = tokens b.
Proof.
  destruct (strtok_r b) as [[t r]|] eqn:E.
  - rewrite (tokens_step b t r E). by apply tokens_step.
  - rewrite (tokens_end b E). by apply tokens_end.
Qed.

Lemma tokens_app_aux (n : nat) (a b : string) :
  String.length a < n -> tokens (a +:+ " " +:+ b) = tokens a ++ tokens b.
Proof.
  revert a. induction n as [|n IH]; intros a Hn; [lia|].
  destruct (strtok_r a) as [[t r]|] eqn:E.
  - rewrite (tokens_step a t r E). simpl.
    pose proof (strtok_r_shorter _ _ _ E) as Hr.
    unfold strtok_r in E.
    destruct (skip_delim a) as [|c a'] eqn:Ea; [done|].
    assert (E' : cut_token (String c a') = (t, r)) by congruence. clear E.
    destruct (cut_token_app (String c a') b) as (r' & Hcut & Hr').
    rewrite E' in Hcut, Hr'. cbn [fst snd] in Hcut, Hr'.
    assert (Hs : strtok_r (a +:+ " " +:+ b) = Some (t, r')).
    { unfold strtok_r. rewrite skip_delim_app, Ea. by rewrite <- Hcut. }
    rewrite (tokens_step _ _ _ Hs). f_equal.
    destruct Hr' as [->|[-> ->]].
    + apply IH. lia.
    + by rewrite (tokens_end ""). 
  - rewrite (tokens_end a E). simpl.
    unfold strtok_r in E. destruct (skip_delim a) as [|c a'] eqn:Ea; [|done].
    destruct (strtok_r b) as [[t r]|] eqn:Eb.
    + rewrite (tokens_step b t r Eb). apply tokens_step.
      unfold strtok_r in *. by rewrite skip_delim_app, Ea.
    + rewrite (tokens_end b Eb). apply tokens_end.
      unfold strtok_r in *. by rewrite skip_delim_app, Ea.
Qed.

Lemma tokens_app (a b : string) :
  tokens (a +:+ " " +:+ b) = tokens a ++ tokens b.
Proof. apply (tokens_app_aux (S (String.length a))). lia. Qed.

End TokenFacts.

(** ** More on the retained profiles *)
Module ProfileFacts.
Import CStr Regex GuestArchs GuestArchsFacts ParserNotions ProfileNotions.
Import TokenFacts.

Lemma represents_unique (st st' : parse_state) (ps : list guest_arch) :
  represents st ps -> represents st' ps -> too_many st = too_many st' -> st = st'.
Proof.
  intros (H1 & H2 & _) (H1' & H2' & _) H3. destruct st, st'; simpl in *. congruence.
Qed.

Lemma spec_profiles_NoDup (capabilities : string) :
  NoDup (map tuple (spec_profiles capabilities)).
Proof.
  destruct (token_loop_refines (S (String.length capabilities)) capabilities
              init_state []) as (st & _ & _ & Hnd & _);
    [lia|apply init_state_represents|constructor|]. exact Hnd.
Qed.

(** X3: parsing two strings put together with a space is parsing the
    first and then letting the token loop run on over the second, from
    the state reached. *)
Theorem parse_capabilities_app (a b : string) :
  exists st_a, parse_capabilities a = Ok st_a /\
    parse_capabilities (a +:+ " " +:+ b) = token_loop (S (String.length b)) b st_a.
Proof.
  destruct (parse_capabilities_refines a) as (st_a & Ha & Hrep_a & Hta).
  exists st_a. split; [done|].
  destruct (token_loop_refines (S (String.length b)) b st_a (spec_profiles a))
    as (st2 & -> & Hrep2 & _ & Ht2); [lia|done|apply spec_profiles_NoDup|].
  destruct (parse_capabilities_refines (a +:+ " " +:+ b)) as (st3 & -> & Hrep3 & Ht3).
  f_equal. apply (represents_unique _ _ (spec_profiles (a +:+ " " +:+ b))); [done| |congruence].
  unfold spec_profiles at 1. rewrite tokens_app, fold_left_app.
  exact Hrep2.
Qed.

(** *** Tokens that say nothing new *)
Lemma or_flags_covered (g : guest_arch) (d : decoded) :
  covers g d -> or_flags g d = g.
Proof.
  intros (_ & Hp & Hn & Hb). unfold or_flags. destruct g as [a bi h p n b]; simpl in *.
  f_equal.
  - destruct (d_pae d); [by rewrite Hp|apply orb_false_r].
  - destruct (d_nonpae d); [by rewrite Hn|apply orb_false_r].
  - destruct (d_ia64_be d); [by rewrite Hb|apply orb_false_r].
Qed.

Lemma merge_existing_covered (ps : list guest_arch) (d : decoded) (g : guest_arch) :
  NoDup (map tuple ps) -> In g ps -> covers g d -> merge_existing ps d = Some ps.
Proof.
  induction ps as [|h ps IH]; simpl; [done|].
  intros Hnd Hin Hc. apply NoDup_cons in Hnd as [Hh Hnd].
  case_bool_decide as Ht.
  - destruct Hin as [->|Hin]; [by rewrite or_flags_covered|].
    exfalso. apply Hh. apply list_elem_of_In, in_map_iff. exists g. split; [|done].
    destruct Hc as [Hc _]. congruence.
  - destruct Hin as [->|Hin]; [by destruct Hc|]. by rewrite (IH Hnd Hin Hc).
Qed.

Lemma fold_spec_step_covered (toks : list string) (ps : list guest_arch) :
  NoDup (map tuple ps) ->
  (forall token d, In token toks -> decode_token token = Some d ->
     exists g, In g ps /\ covers g d) ->
  fold_left spec_step toks ps = ps.
Proof.
  intros Hnd. induction toks as [|t toks IH]; intros Hcov; simpl; [done|].
  assert (Hstep : spec_step ps t = ps).
  { unfold spec_step. destruct (decode_token t) as [d|] eqn:E; [|done].
    destruct (Hcov t d) as (g & Hin & Hc); [by left|done|].
    unfold spec_merge. by rewrite (merge_existing_covered ps d g). }
  rewrite Hstep. apply IH. intros token d Hin. apply Hcov. by right.
Qed.

(** X4: tokens seen before change nothing: when every token of [b] is a
    token of [a], parsing [a] followed by [b] gives the state of parsing
    [a] alone (so does parsing a string twice over). *)
Theorem parse_capabilities_repeated (a b : string) :
  (forall token, In token (tokens b) -> In token (tokens a)) ->
  parse_capabilities (a +:+ " " +:+ b) = parse_capabilities a.
Proof.
  intros Hsub.
  destruct (parse_capabilities_refines a) as (st_a & -> & Hrep_a & Hta).
  destruct (parse_capabilities_refines (a +:+ " " +:+ b)) as (st & -> & Hrep & Ht).
  f_equal. apply (represents_unique _ _ (spec_profiles a)); [|done|congruence].
  replace (spec_profiles a) with (spec_profiles (a +:+ " " +:+ b)); [done|].
  unfold spec_profiles at 1. rewrite tokens_app, fold_left_app.
  apply fold_spec_step_covered; [apply spec_profiles_NoDup|].
  intros token d Hin Hd.
  apply (fold_spec_step_takes (tokens a) [] token d); [constructor|by apply Hsub|done].
Qed.

Lemma parse_capabilities_repeated_witness :
  parse_capabilities ("xen-3.0-x86_32p hvm-3.0-x86_64" +:+ " " +:+ "hvm-3.0-x86_64") =
  parse_capabilities "xen-3.0-x86_32p hvm-3.0-x86_64".
Proof.
  apply parse_capabilities_repeated. simpl. intros token [<-|[]]. right. by left.
Defined.

(** *** What the flags of a profile say *)
Lemma decode_token_ok (token : string) (d : decoded) :
  decode_token token = Some d ->
  d_arch d <> VIR_ARCH_NONE /\
  (d_arch d = VIR_ARCH_I686 -> d_pae d = negb (d_nonpae d)) /\
  (d_arch d <> VIR_ARCH_I686 -> d_pae d = false /\ d_nonpae d = false) /\
  (d_ia64_be d = true -> d_arch d = VIR_ARCH_ITANIUM).
Proof.
  unfold decode_token. destruct (regexec XEN_CAP_REGEX token 4) as [subs|]; [|done].
  repeat match goal with
         | |- context [if ?b then _ else _] => destruct b
         end; intros [= <-]; simpl; repeat split; congruence.
Qed.

Lemma merge_existing_Forall (P : guest_arch -> Prop) (ps merged : list guest_arch)
    (d : decoded) :
  (forall g, P g -> tuple g = (d_arch d, d_hvm d) -> P (or_flags g d)) ->
  Forall P ps -> merge_existing ps d = Some merged -> Forall P merged.
Proof.
  intros Hor. revert merged. induction ps as [|h ps IH]; intros merged Hall; simpl; [done|].
  apply Forall_cons in Hall as [Hh Hall]. case_bool_decide as Ht.
  - intros [= <-]. constructor; [by apply Hor|done].
  - destruct (merge_existing ps d) as [m|]; simpl; [|done].
    intros [= <-]. constructor; [done|by apply IH].
Qed.

Lemma spec_step_Forall (P : guest_arch -> Prop) (ps : list guest_arch) (token : string) :
  (forall d, decode_token token = Some d ->
     P (new_profile d) /\
     forall g, P g -> tuple g = (d_arch d, d_hvm d) -> P (or_flags g d)) ->
  Forall P ps -> Forall P (spec_step ps token).
Proof.
  intros HP Hall. unfold spec_step. destruct (decode_token token) as [d|]; [|done].
  destruct (HP d eq_refl) as [Hnew Hor]. unfold spec_merge.
  destruct (merge_existing ps d) as [merged|] eqn:E.
  - by apply (merge_existing_Forall P ps merged d).
  - destruct (length ps <? spec_bound)%nat; [|done].
    apply Forall_app. split; [done|]. by constructor.
Qed.

Lemma spec_step_profile_ok (ps : list guest_arch) (token : string) :
  Forall profile_ok ps -> Forall profile_ok (spec_step ps token).
Proof.
  apply spec_step_Forall. intros d Hd.
  destruct (decode_token_ok token d Hd) as (Hn & Hi & Ho & Hb). split.
  - unfold profile_ok, new_profile. simpl. repeat split; try done.
    + intros Ha. specialize (Hi Ha). destruct (d_pae d), (d_nonpae d); simpl in *; auto.
    + intros Hf. destruct (decide (d_arch d = VIR_ARCH_I686)) as [|Hne]; [done|].
      destruct (Ho Hne) as [? ?]. destruct Hf; congruence.
  - intros g (Gn & Gb & Gi & Go & Gbe) Ht. unfold tuple in Ht. injection Ht as Ha Hh.
    unfold profile_ok, or_flags. simpl. repeat split; try done.
    + intros Hg. destruct (Gi Hg) as [->| ->]; [by left|right; done].
    + intros Hf. destruct (decide (ga_arch g = VIR_ARCH_I686)) as [|Hne]; [done|].
      rewrite Ha in Hne. destruct (Ho Hne) as [Hp Hnp]. rewrite Hp, Hnp, !orb_false_r in Hf.
      by apply Go.
    + intros Hf. apply orb_true_iff in Hf as [Hf|Hf]; [by apply Gbe|].
      rewrite Ha. by apply Hb.
Qed.

(** X5: in every retained profile the architecture is one the pattern
    names, [bits] is still the zero of [memset], "pae" or "nonpae" is set
    exactly for x86_32 profiles (at least one of the two), and "ia64_be"
    only for ia64 ones. *)
Theorem retained_profiles_ok (capabilities : string) :
  exists st, parse_capabilities capabilities = Ok st /\
    Forall profile_ok (retained st).
Proof.
  destruct (parse_capabilities_refines capabilities) as (st & Hst & Hrep & _).
  exists st. split; [done|]. rewrite (represents_retained st _ Hrep).
  unfold spec_profiles. generalize (tokens capabilities). intros toks.
  assert (G : forall ps, Forall profile_ok ps ->
                Forall profile_ok (fold_left spec_step toks ps)).
  { induction toks as [|t toks IH]; intros ps Hps; simpl; [done|].
    apply IH. by apply spec_step_profile_ok. }
  apply G. constructor.
Qed.

(** *** Nothing is set that no token said *)
Lemma some_token_mono (toks toks' : list string) (g : guest_arch)
    (sets : decoded -> Prop) :
  (forall t, In t toks -> In t toks') ->
  some_token toks g sets -> some_token toks' g sets.
Proof. intros Hsub (t & d & Hin & ?). exists t, d. split; [by apply Hsub|done]. Qed.

Lemma from_tokens_mono (toks toks' : list string) (g : guest_arch) :
  (forall t, In t toks -> In t toks') -> from_tokens toks g -> from_tokens toks' g.
Proof.
  intros Hsub (H0 & Hp & Hn & Hb).
  repeat split; intros; eapply some_token_mono; eauto.
Qed.

Lemma fold_spec_step_from_tokens (toks pre : list string) (ps : list guest_arch) :
  Forall (from_tokens pre) ps ->
  Forall (from_tokens (pre ++ toks)) (fold_left spec_step toks ps).
Proof.
  revert pre ps. induction toks as [|t toks IH]; intros pre ps Hps; simpl.
  - by rewrite app_nil_r.
  - replace (pre ++ t :: toks) with ((pre ++ [t]) ++ toks) by (by rewrite <- app_assoc).
    apply IH. apply spec_step_Forall.
    + intros d Hd.
      assert (Hin : In t (pre ++ [t])) by (apply in_or_app; right; by left).
      split.
      * unfold from_tokens, new_profile. simpl.
        repeat split; intros; exists t, d; done.
      * intros g (H0 & Hp & Hn & Hb) Ht. unfold from_tokens, or_flags. simpl.
        assert (Hme : forall sets : decoded -> Prop, sets d ->
                  some_token (pre ++ [t]) (or_flags g d) sets)
          by (intros sets Hs; exists t, d; done).
        split; [by apply Hme|].
        repeat split; intros Hf; apply orb_true_iff in Hf as [Hf|Hf];
          solve [by apply Hme
                |destruct (Hp Hf) as (t' & d' & ? & ? & ? & ?); exists t', d'; done
                |destruct (Hn Hf) as (t' & d' & ? & ? & ? & ?); exists t', d'; done
                |destruct (Hb Hf) as (t' & d' & ? & ? & ? & ?); exists t', d'; done].
    + eapply Forall_impl; [exact Hps|]. intros g. apply from_tokens_mono.
      intros x Hx. apply in_or_app. by left.
Qed.

(** X6: the loop sets nothing that no token said: every retained profile
    has the tuple of some token of the string, and each of its flags is
    set by some token with that tuple. *)
Theorem retained_from_tokens (capabilities : string) :
  exists st, parse_capabilities capabilities = Ok st /\
    Forall (from_tokens (tokens capabilities)) (retained st).
Proof.
  destruct (parse_capabilities_refines capabilities) as (st & Hst & Hrep & _).
  exists st. split; [done|]. rewrite (represents_retained st _ Hrep).
  apply (fold_spec_step_from_tokens (tokens capabilities) [] []). constructor.
Qed.

End ProfileFacts.

(** ** The order of the tokens *)
Module OrderFacts.
Import CStr Regex GuestArchs GuestArchsFacts ParserNotions ProfileNotions ProfileFacts.

Lemma tuple_unique (ps : list guest_arch) (g g' : guest_arch) :
  NoDup (map tuple ps) -> In g ps -> In g' ps -> tuple g = tuple g' -> g = g'.
Proof.
  induction ps as [|h ps IH]; simpl; [done|].
  intros Hnd. apply NoDup_cons in Hnd as [Hh Hnd].
  assert (Hno : forall x, In x ps -> tuple h <> tuple x).
  { intros x Hx E. apply Hh. rewrite E. apply list_elem_of_In, in_map. done. }
  intros [<-|Hg] [<-|Hg'] E; [done| | |by apply IH].
  - by destruct (Hno g' Hg').
  - by destruct (Hno g Hg).
Qed.

Lemma fold_spec_step_profile_ok (toks : list string) (ps : list guest_arch) :
  Forall profile_ok ps -> Forall profile_ok (fold_left spec_step toks ps).
Proof.
  revert ps. induction toks as [|t toks IH]; intros ps Hps; simpl; [done|].
  apply IH. by apply spec_step_profile_ok.
Qed.

Lemma fold_spec_step_all_NoDup (toks : list string) (ps : list guest_arch) :
  NoDup (map tuple ps) -> NoDup (map tuple (fold_left spec_step toks ps)).
Proof.
  revert ps. induction toks as [|t toks IH]; intros ps Hps; simpl; [done|].
  apply IH. by apply spec_step_NoDup.
Qed.

Lemma flags_below (toks : list string) (g g' : guest_arch) :
  says toks g -> says toks g' -> tuple g = tuple g' ->
  (ga_pae g = true -> ga_pae g' = true) /\
  (ga_nonpae g = true -> ga_nonpae g' = true) /\
  (ga_ia64_be g = true -> ga_ia64_be g' = true).
Proof.
  intros ((_ & Hp & Hn & Hb) & Hbits & _) (_ & Hbits' & Hcov) Ht.
  repeat split; intros Hf.
  - destruct (Hp Hf) as (t & d & Hin & Hd & Htd & Hs).
    destruct (Hcov t d Hin Hd) as (_ & H & _); [congruence|by apply H].
  - destruct (Hn Hf) as (t & d & Hin & Hd & Htd & Hs).
    destruct (Hcov t d Hin Hd) as (_ & _ & H & _); [congruence|by apply H].
  - destruct (Hb Hf) as (t & d & Hin & Hd & Htd & Hs).
    destruct (Hcov t d Hin Hd) as (_ & _ & _ & H); [congruence|by apply H].
Qed.

Lemma says_unique (toks : list string) (g g' : guest_arch) :
  says toks g -> says toks g' -> tuple g = tuple g' -> g = g'.
Proof.
  intros Hg Hg' Ht.
  destruct (flags_below toks g g' Hg Hg' Ht) as (Hp & Hn & Hb).
  destruct (flags_below toks g' g Hg' Hg (eq_sym Ht)) as (Hp' & Hn' & Hb').
  destruct Hg as (_ & Hbits & _), Hg' as (_ & Hbits' & _).
  unfold tuple in Ht. injection Ht as Ha Hh.
  destruct g as [a bi h p n b], g' as [a' bi' h' p' n' b']; simpl in *. subst.
  f_equal.
  - destruct p, p'; auto; solve [discriminate (Hp eq_refl)|discriminate (Hp' eq_refl)].
  - destruct n, n'; auto; solve [discriminate (Hn eq_refl)|discriminate (Hn' eq_refl)].
  - destruct b, b'; auto; solve [discriminate (Hb eq_refl)|discriminate (Hb' eq_refl)].
Qed.

Lemma says_same_tokens (toks toks' : list string) (g : guest_arch) :
  (forall token, In token toks <-> In token toks') -> says toks g -> says toks' g.
Proof.
  intros Hsame (Hfrom & Hbits & Hcov). split; [|split; [done|]].
  - eapply from_tokens_mono; [|exact Hfrom]. intros t. apply Hsame.
  - intros token d Hin. apply Hcov. by apply Hsame.
Qed.

Lemma In_profiles_says (toks : list string) (g : guest_arch) :
  In g (fold_left spec_step toks []) <-> says toks g.
Proof.
  assert (Hnd : NoDup (map tuple (fold_left spec_step toks [])))
    by (apply fold_spec_step_all_NoDup; constructor).
  assert (Hforward : forall x, In x (fold_left spec_step toks []) -> says toks x).
  { intros x Hx. split; [|split].
    - pose proof (fold_spec_step_from_tokens toks [] [] ltac:(constructor)) as H.
      rewrite Forall_forall in H. by apply H, list_elem_of_In.
    - pose proof (fold_spec_step_profile_ok toks [] ltac:(constructor)) as H.
      rewrite Forall_forall in H. by apply H, list_elem_of_In.
    - intros token d Hin Hd Ht.
      destruct (fold_spec_step_takes toks [] token d ltac:(constructor) Hin Hd)
        as (x' & Hx' & Hc).
      assert (x' = x) as ->; [|done].
      apply (tuple_unique _ _ _ Hnd Hx' Hx). destruct Hc as [Hc _]. congruence. }
  split; [apply Hforward|].
  intros Hg. pose proof Hg as (((token & d & Hin & Hd & Ht & _) & _) & _).
  destruct (fold_spec_step_takes toks [] token d ltac:(constructor) Hin Hd)
    as (g' & Hg' & Hc).
  assert (g' = g) as ->; [|done].
  apply (says_unique toks); [by apply Hforward|done|].
  destruct Hc as [Hc _]. congruence.
Qed.

(** X7: the order of the tokens, and how often each stands in the
    string, decides only the order of the profiles: two capability
    strings with the same tokens retain the same profiles, up to their
    order. *)
Theorem retained_up_to_order (a b : string) :
  (forall token, In token (tokens a) <-> In token (tokens b)) ->
  exists st_a st_b,
    parse_capabilities a = Ok st_a /\ parse_capabilities b = Ok st_b /\
    Permutation (retained st_a) (retained st_b).
Proof.
  intros Hsame.
  destruct (parse_capabilities_refines a) as (st_a & Ha & Hrep_a & _).
  destruct (parse_capabilities_refines b) as (st_b & Hb & Hrep_b & _).
  exists st_a, st_b. split; [done|]. split; [done|].
  rewrite (represents_retained _ _ Hrep_a), (represents_retained _ _ Hrep_b).
  unfold spec_profiles.
  apply NoDup_Permutation.
  - apply (NoDup_fmap_1 tuple), fold_spec_step_all_NoDup. constructor.
  - apply (NoDup_fmap_1 tuple), fold_spec_step_all_NoDup. constructor.
  - intros g. rewrite !list_elem_of_In, !In_profiles_says. split; apply says_same_tokens; [done|].
    intros t. symmetry. apply Hsame.
Qed.

Lemma retained_up_to_order_witness :
  exists st_a st_b,
    parse_capabilities "xen-3.0-x86_32p hvm-3.0-x86_64" = Ok st_a /\
    parse_capabilities "hvm-3.0-x86_64 xen-3.0-x86_32p hvm-3.0-x86_64" = Ok st_b /\
    Permutation (retained st_a) (retained st_b).
Proof.
  apply retained_up_to_order. simpl. intros token. split.
  - intros [<-|[<-|[]]]; auto.
  - intros [<-|[<-|[<-|[]]]]; auto.
Defined.

End OrderFacts.

(** ** The guests under any allocation failure *)
Module GuestsOutcome.
Import CStr Regex GuestArchs Caps Libxl CapsFacts GuestArchsFacts LibxlFacts.
Import BuilderNotions ProfileFacts.

Lemma set_guests_id (c : virCaps) : set_guests (guests c) c = c.
Proof. by destruct c. Qed.

Lemma set_guests_twice (l l' : list virCapsGuest) (c : virCaps) :
  set_guests l (set_guests l' c) = set_guests l c.
Proof. done. Qed.

Lemma updates_last_ret (pre : list virCapsGuest) :
  updates_last pre (fun g => g) (mret tt).
Proof.
  intros s g r s' Hg [= <- <-]. left. split; [done|].
  by rewrite <- Hg, set_guests_id.
Qed.

Lemma updates_last_bind (pre : list virCapsGuest) (f1 f2 : virCapsGuest -> virCapsGuest)
    (m1 m2 : M unit) :
  updates_last pre f1 m1 -> updates_last pre f2 m2 ->
  updates_last pre (fun g => f2 (f1 g)) (m1 ;; m2).
Proof.
  intros H1 H2 s g r s' Hg. rewrite bind_unfold.
  destruct (m1 s) as [r1 s1] eqn:E1.
  destruct (H1 s g r1 s1 Hg E1) as [[-> Hc]|[-> [g' Hc]]].
  - intros E2.
    destruct (H2 s1 (f1 g) r s') as [[-> Hc2]|[-> [g' Hc2]]]; [by rewrite Hc|done| |].
    + left. split; [done|]. by rewrite Hc2, Hc.
    + right. split; [done|]. exists g'. by rewrite Hc2, Hc.
  - intros [= <- <-]. right. split; [done|]. by exists g'.
Qed.

Lemma updates_last_call (pre : list virCapsGuest) (f : virCapsGuest -> virCapsGuest) :
  updates_last pre f (alloc ;; update_guest (length pre) f).
Proof.
  intros s g r s' Hg. rewrite bind_unfold. unfold alloc.
  assert (Hl : forall c, guests c = pre ++ [g] -> guests c !! length pre = Some g).
  { intros c ->. by rewrite list_lookup_middle. }
  assert (Hi : <[length pre := f g]> (pre ++ [g]) = pre ++ [f g]).
  { rewrite insert_app_r_alt by lia. by rewrite Nat.sub_diag. }
  unfold update_guest, mbind, M_bind, bind, get, modify.
  destruct (faults s) as [|[] fs]; simpl; rewrite ?(Hl _ Hg); intros [= <- <-]; simpl.
  - left. by rewrite Hg, Hi.
  - right. split; [done|]. exists g. by rewrite <- Hg, set_guests_id.
  - left. by rewrite Hg, Hi.
Qed.

Section Outcome.
Context (cfg : build_config).

Lemma updates_last_feature_if (pre : list virCapsGuest) (b : bool) (name : string)
    (defaultOn toggle : bool) :
  updates_last pre
    (if b then guest_add_feature
                 {| feat_name := name; feat_defaultOn := defaultOn;
                    feat_toggle := toggle |}
     else fun g => g)
    (feature_if b (length pre) name defaultOn toggle).
Proof. destruct b; [apply updates_last_call|apply updates_last_ret]. Qed.

(** One round of the second loop: the guest is there in full, or the
    round failed and left at most a guest in the making. *)
Lemma add_guest_outcome (ga : guest_arch) (s : bstate) :
  let '(r, s') := add_guest cfg ga s in
  (r = Ok tt /\
   caps s' = set_guests (guests (caps s) ++ [spec_guest cfg ga]) (caps s)) \/
  (r = Fail /\ exists partial, length partial <= 1 /\
     caps s' = set_guests (guests (caps s) ++ partial) (caps s)).
Proof.
  unfold add_guest, virCapabilitiesAllocMachines, virCapabilitiesAddGuest.
  set (tl := fun guest : nat => (_ ;; _ : M unit)).
  assert (Htl : exists f,
    updates_last (guests (caps s)) f (tl (length (guests (caps s)))) /\
    forall e l,
      f {| g_ostype := if ga_hvm ga then VIR_DOMAIN_OSTYPE_HVM else VIR_DOMAIN_OSTYPE_XEN;
           g_arch := ga_arch ga; g_emulator := e; g_loader := l;
           g_machines := [if ga_hvm ga then "xenfv" else "xenpv"];
           g_domains := []; g_features := [] |} =
      {| g_ostype := if ga_hvm ga then VIR_DOMAIN_OSTYPE_HVM else VIR_DOMAIN_OSTYPE_XEN;
         g_arch := ga_arch ga; g_emulator := e; g_loader := l;
         g_machines := [if ga_hvm ga then "xenfv" else "xenpv"];
         g_domains := [VIR_DOMAIN_VIRT_XEN]; g_features := spec_features ga |}).
  { subst tl. eexists. split.
    - apply updates_last_bind; [apply updates_last_call|].
      apply updates_last_bind; [apply updates_last_feature_if|].
      apply updates_last_bind; [apply updates_last_feature_if|].
      apply updates_last_bind; [apply updates_last_feature_if|].
      instantiate (1 := if ga_hvm ga then _ else _).
      destruct (ga_hvm ga).
      + apply updates_last_bind; [apply updates_last_call|].
        apply updates_last_bind; apply updates_last_call.
      + apply updates_last_ret.
    - intros e l. unfold spec_features.
      destruct (ga_hvm ga), (ga_pae ga), (ga_nonpae ga), (ga_ia64_be ga); reflexivity. }
  destruct Htl as (f & Hf & Hfinal).
  assert (Hnone : caps s = set_guests (guests (caps s) ++ []) (caps s))
    by (by rewrite app_nil_r, set_guests_id).
  unfold mbind, M_bind, bind, mret, M_ret, ret, alloc, get, modify at 1.
  destruct (faults s) as [|[] fs] eqn:Ef; simpl.
  - rewrite Ef. simpl.
    match goal with
    | |- context [tl _ ?s1] => destruct (tl (length (guests (caps s))) s1) as [r s'] eqn:E;
        destruct (Hf s1 _ r s' eq_refl E) as [[-> Hc]|[-> [g' Hc]]]
    end.
    + left. split; [done|]. rewrite Hc. simpl. by rewrite Hfinal.
    + right. split; [done|]. exists [g']. split; [simpl; lia|]. by rewrite Hc.
  - right. split; [done|]. exists []. split; [simpl; lia|done].
  - destruct fs as [|[] fs']; simpl.
    + match goal with
      | |- context [tl _ ?s1] => destruct (tl (length (guests (caps s))) s1) as [r s'] eqn:E;
          destruct (Hf s1 _ r s' eq_refl E) as [[-> Hc]|[-> [g' Hc]]]
      end.
      * left. split; [done|]. rewrite Hc. simpl. by rewrite Hfinal.
      * right. split; [done|]. exists [g']. split; [simpl; lia|]. by rewrite Hc.
    + right. split; [done|]. exists []. split; [simpl; lia|done].
    + match goal with
      | |- context [tl _ ?s1] => destruct (tl (length (guests (caps s))) s1) as [r s'] eqn:E;
          destruct (Hf s1 _ r s' eq_refl E) as [[-> Hc]|[-> [g' Hc]]]
      end.
      * left. split; [done|]. rewrite Hc. simpl. by rewrite Hfinal.
      * right. split; [done|]. exists [g']. split; [simpl; lia|]. by rewrite Hc.
Qed.

Lemma add_guests_outcome (archs : list guest_arch) (steps : nat) :
  forall i s, i + steps <= length archs ->
  let '(r, s') := add_guests cfg archs i steps s in
  (r = Ok tt /\
   caps s' = set_guests (guests (caps s) ++
                         map (spec_guest cfg) (take steps (drop i archs))) (caps s)) \/
  (r = Fail /\ exists k partial, k < steps /\ length partial <= 1 /\
     caps s' = set_guests (guests (caps s) ++
                           map (spec_guest cfg) (take k (drop i archs)) ++ partial)
                 (caps s)).
Proof.
  induction steps as [|steps IH]; intros i s Hlen; simpl.
  - left. split; [done|]. by rewrite app_nil_r, set_guests_id.
  - destruct (lookup_lt_is_Some_2 archs i) as [ga Hga]; [lia|]. rewrite Hga.
    rewrite bind_unfold. rewrite (drop_S _ _ _ Hga).
    pose proof (add_guest_outcome ga s) as H1.
    destruct (add_guest cfg ga s) as [r1 s1].
    destruct H1 as [[-> Hc]|[-> (partial & Hp & Hc)]].
    + specialize (IH (S i) s1 ltac:(lia)).
      destruct (add_guests cfg archs (S i) steps s1) as [r s'].
      destruct IH as [[-> Hc']|[-> (k & partial & Hk & Hp & Hc')]].
      * left. split; [done|]. rewrite Hc', Hc. simpl. by rewrite <- app_assoc.
      * right. split; [done|]. exists (S k), partial. split; [lia|]. split; [done|].
        rewrite Hc', Hc. simpl. by rewrite <- app_assoc.
    + right. split; [done|]. exists 0, partial. split; [lia|]. by split.
Qed.

Lemma guest_key_NoDup (ps : list guest_arch) :
  NoDup (map tuple ps) -> NoDup (map guest_key (map (spec_guest cfg) ps)).
Proof.
  intros Hnd. rewrite map_map.
  set (h := fun t : virArch * bool =>
              (if t.2 then VIR_DOMAIN_OSTYPE_HVM else VIR_DOMAIN_OSTYPE_XEN, t.1)).
  replace (map (fun x => guest_key (spec_guest cfg x)) ps) with (map h (map tuple ps))
    by (by rewrite map_map).
  assert (Hinj : Inj eq eq h).
  { intros [a b] [a' b']. unfold h. simpl. destruct b, b'; congruence. }
  by apply (NoDup_fmap_2 h).
Qed.


End Outcome.
End GuestsOutcome.

(** ** The host probe under any allocation failure *)
Module HostOutcome.
Import CStr Regex GuestArchs Caps Libxl CapsFacts LibxlFacts.

Section Probe.
Context (cfg : build_config).

(** X9: [libxlCapsInitHost] touches the feature set and the network
    prefix only. On success the features have grown by "pae" exactly when
    bit 6 of [hw_cap[0]] is set (also when "pae" was there before), and the
    prefix is the configured one. On failure the prefix is the old one and
    the features have grown by at most "pae": the probe takes nothing
    back. A failed [libxl_get_physinfo] changes nothing and reports. *)
Theorem host_probe_effect (ctx : libxl_ctx) (s : bstate) :
  let '(r, s') := libxlCapsInitHost cfg ctx s in
  r <> OutOfFuel /\
  exists feats prefix,
    caps s' = set_host_netprefix prefix (set_host_features feats (caps s)) /\
    (r = Ok tt ->
     exists phy w rest,
       libxl_get_physinfo ctx = Some phy /\ hw_cap phy = w :: rest /\
       feats = host_features (caps s) ++ (if N.testbit w 6 then ["pae"] else []) /\
       prefix = Some (LIBXL_GENERATED_PREFIX_XEN cfg)) /\
    (r = Fail ->
     prefix = host_netprefix (caps s) /\
     (feats = host_features (caps s) \/ feats = host_features (caps s) ++ ["pae"])) /\
    (libxl_get_physinfo ctx = None ->
     r = Fail /\
     s' = {| caps := caps s; faults := faults s;
             errors := errors s ++ ["Failed to get node physical info from libxenlight"] |}).
Proof.
  unfold libxlCapsInitHost. destruct s as [c fl er]. simpl.
  assert (Hid : c = set_host_netprefix (host_netprefix c)
                      (set_host_features (host_features c) c))
    by (by destruct c).
  destruct (libxl_get_physinfo ctx) as [phy|].
  - destruct (hw_cap phy) as [|w rest] eqn:Ehw; simpl.
    + split; [done|]. exists (host_features c), (host_netprefix c).
      split; [done|]. by repeat split.
    + rewrite pae_mask_testbit.
      unfold virCapabilitiesAddHostFeature, virCapabilitiesSetNetPrefix,
        mbind, M_bind, bind, mret, M_ret, ret, alloc, modify.
      destruct (N.testbit w 6) eqn:Eb; destruct fl as [|[] [|[] fs]]; simpl;
        (split; [done|]);
        first [ exists (host_features c ++ ["pae"]), (Some (LIBXL_GENERATED_PREFIX_XEN cfg));
                split; [done|];
                split; [intros _; exists phy, w, rest; by rewrite Eb|];
                split; [done|done]
              | exists (host_features c), (Some (LIBXL_GENERATED_PREFIX_XEN cfg));
                split; [by destruct c|];
                split; [intros _; exists phy, w, rest; by rewrite Eb, app_nil_r|];
                split; [done|done]
              | exists (host_features c ++ ["pae"]), (host_netprefix c);
                split; [by destruct c|]; split; [done|];
                split; [intros _; split; [done|by right]|done]
              | exists (host_features c), (host_netprefix c);
                split; [by destruct c|]; split; [done|];
                split; [intros _; split; [done|by left]|done] ].
  - simpl. split; [done|]. exists (host_features c), (host_netprefix c).
    split; [done|]. split; [done|]. split; [intros _; split; [done|by left]|done].
Qed.

End Probe.
End HostOutcome.

(** ** The NUMA builder under any allocation failure *)
Module NumaOutcome.
Import CStr Regex GuestArchs Caps Libxl CapsFacts LibxlFacts NumaNotions.

Lemma keeps_ret {A} (a : A) : keeps_but_cells (mret a : M A).
Proof. intros s. by split. Qed.

Lemma keeps_bind {A B} (m : M A) (k : A -> M B) :
  keeps_but_cells m -> (forall a, keeps_but_cells (k a)) -> keeps_but_cells (m ≫= k).
Proof.
  intros Hm Hk s. rewrite bind_unfold. destruct (Hm s) as [H1 H2].
  destruct (m s) as [[a| | |] s1]; simpl in *; [|done..].
  destruct (Hk a s1) as [H3 H4]. split; [|done]. intros l. by rewrite H3.
Qed.

Lemma keeps_alloc : keeps_but_cells alloc.
Proof. intros s. unfold alloc. by destruct (faults s) as [|[] f]. Qed.

Lemma keeps_alloc_or_report (msg : string) : keeps_but_cells (alloc_or_report msg).
Proof. intros s. unfold alloc_or_report, alloc. by destruct (faults s) as [|[] f]. Qed.

Lemma keeps_report_fail {A} (msg : string) :
  keeps_but_cells (virReportError msg ;; fail : M A).
Proof. intros s. by split. Qed.

Lemma keeps_undefined {A} : keeps_but_cells (undefined : M A).
Proof. intros s. by split. Qed.

Lemma keeps_lift {A} (r : res A) : r <> OutOfFuel -> keeps_but_cells (lift r).
Proof. intros Hr s. by split. Qed.

Lemma keeps_add_cell (num : nat) (mem : N) (ncpus : nat)
    (cpus : list virCapsHostNUMACellCPU) :
  keeps_but_cells (virCapabilitiesAddHostNUMACell num mem ncpus cpus).
Proof.
  apply keeps_bind; [apply keeps_alloc|]. intros _ s. by split.
Qed.

Lemma mark_row_ends (row : list virCapsHostNUMACellCPU) (t : libxl_cputopology)
    (i j steps : nat) :
  mark_row row t i j steps <> OutOfFuel /\ mark_row row t i j steps <> Fail.
Proof.
  revert row j. induction steps as [|steps IH]; intros row j; simpl; [done|].
  destruct (row !! j); [apply IH|done].
Qed.

Section Outcome.
Context (cfg : build_config).

Lemma populate_siblings_ends (topo : list libxl_cputopology) (i : nat) (arrs : scratch) :
  populate_siblings cfg topo i arrs <> OutOfFuel /\
  populate_siblings cfg topo i arrs <> Fail.
Proof.
  revert i arrs. induction topo as [|t rest IH]; intros i arrs; simpl; [done|].
  destruct (core t =? LIBXL_CPUTOPOLOGY_INVALID_ENTRY cfg)%N; [apply IH|].
  destruct (arrs.2 !! N.to_nat (node t)); [|done].
  destruct (arrs.1 !! N.to_nat (node t)); [|done].
  pose proof (mark_row_ends l t i 0 n) as [? ?].
  destruct (mark_row l t i 0 n); done.
Qed.

Lemma keeps_prepare_cpus (topo : list libxl_cputopology) (i nr_cpus : nat)
    (arrs : scratch) :
  keeps_but_cells (prepare_cpus cfg topo i nr_cpus arrs).
Proof.
  revert i arrs. induction topo as [|t rest IH]; intros i arrs; simpl.
  - apply keeps_ret.
  - destruct (core t =? LIBXL_CPUTOPOLOGY_INVALID_ENTRY cfg)%N; [apply IH|].
    destruct (arrs.2 !! N.to_nat (node t)); [|apply keeps_undefined].
    destruct (arrs.1 !! N.to_nat (node t)); [|apply keeps_undefined].
    apply keeps_bind; [apply keeps_alloc|]. intros _.
    apply keeps_bind; [apply keeps_alloc_or_report|]. intros _. apply IH.
Qed.

Lemma keeps_add_cells (numa : list libxl_numainfo) (i : nat) (arrs : scratch) :
  keeps_but_cells (add_cells cfg numa i arrs).
Proof.
  revert i. induction numa as [|n rest IH]; intros i; simpl.
  - apply keeps_ret.
  - destruct (size n =? LIBXL_NUMAINFO_INVALID_ENTRY cfg)%N; [apply IH|].
    destruct (arrs.2 !! i); [|apply keeps_undefined].
    destruct (arrs.1 !! i); [|apply keeps_undefined].
    apply keeps_bind; [apply keeps_add_cell|]. intros _. apply IH.
Qed.

Lemma keeps_body (ctx : libxl_ctx) : keeps_but_cells (libxlCapsInitNuma_body cfg ctx).
Proof.
  unfold libxlCapsInitNuma_body.
  destruct (libxl_get_numainfo ctx) as [[|n numa]|]; try apply keeps_report_fail.
  destruct (libxl_get_cpu_topology ctx) as [[|t topo]|]; try apply keeps_report_fail.
  apply keeps_bind; [apply keeps_alloc|]. intros _.
  apply keeps_bind; [apply keeps_alloc|]. intros _.
  apply keeps_bind; [apply keeps_prepare_cpus|]. intros arrs.
  apply keeps_bind; [apply keeps_lift, populate_siblings_ends|]. intros arrs'.
  apply keeps_add_cells.
Qed.

(** X10: [libxlCapsInitNuma] under any allocation failures: its loops
    end, it changes nothing of the object but the NUMA cells, and when it
    fails the object is left without any cell: [cleanup] frees the cells
    of this call and also those the object had before. *)
Theorem numa_failure_frees_all_cells (ctx : libxl_ctx) (s : bstate) :
  let '(r, s') := libxlCapsInitNuma cfg ctx s in
  r <> OutOfFuel /\
  (forall l, set_host_numaCell l (caps s') = set_host_numaCell l (caps s)) /\
  (r = Fail -> host_numaCell (caps s') = []).
Proof.
  unfold libxlCapsInitNuma. destruct (keeps_body ctx s) as [H1 H2].
  destruct (libxlCapsInitNuma_body cfg ctx s) as [[[]| | |] s1]; simpl in *;
    repeat split; done.
Qed.

(** **** Without allocation failures *)
Lemma prepare_cpus_outside (topo : list libxl_cputopology) (i nr_cpus : nat)
    (cpus : list (list virCapsHostNUMACellCPU)) (nrs : list nat) (s : bstate) :
  faults s = [] ->
  length cpus = length nrs ->
  Exists (fun t => valid_core cfg t = true /\ length cpus <= N.to_nat (node t)) topo ->
  prepare_cpus cfg topo i nr_cpus (cpus, nrs) s = (Undefined, s).
Proof.
  intros Hf. revert i cpus nrs.
  induction topo as [|t rest IH]; intros i cpus nrs Hlen Hex; simpl.
  - by apply Exists_nil in Hex.
  - apply Exists_cons in Hex. unfold valid_core in Hex.
    destruct (core t =? LIBXL_CPUTOPOLOGY_INVALID_ENTRY cfg)%N; simpl in *.
    + destruct Hex as [[? _]|Hex]; [done|]. by apply IH.
    + destruct (decide (N.to_nat (node t) < length cpus)) as [Hin|Hout].
      * destruct Hex as [[_ ?]|Hex]; [lia|].
        destruct (lookup_lt_is_Some_2 cpus (N.to_nat (node t)) Hin) as [row ->].
        destruct (lookup_lt_is_Some_2 nrs (N.to_nat (node t))) as [k ->]; [lia|].
        rewrite (bind_run _ _ _ _ _ (alloc_no_faults s Hf)).
        rewrite (bind_run _ _ _ _ _ (alloc_or_report_no_faults _ s Hf)).
        apply IH; [by rewrite !length_insert|by rewrite length_insert].
      * rewrite (proj2 (lookup_ge_None nrs (N.to_nat (node t)))) by lia. done.
Qed.

(** X11: what [libxlCapsInitNuma] answers when no allocation fails. A
    NUMA query that fails or reports no node gives failure with the
    message of lines 101-102, whatever the topology query would say; then
    a topology query that fails or reports no CPU gives failure with the
    message of lines 107-108. Otherwise the call succeeds when every CPU
    with a valid core is on a node below [nr_nodes]; a CPU that is not
    makes line 126 index [nr_cpus_node] outside its bounds. *)
Theorem numa_answers (ctx : libxl_ctx) (s : bstate) :
  faults s = [] ->
  let failed msg :=
    (Fail, {| caps := virCapabilitiesFreeNUMAInfo (caps s); faults := [];
              errors := errors s ++ [msg] |}) in
  (libxl_get_numainfo ctx = None \/ libxl_get_numainfo ctx = Some [] ->
   libxlCapsInitNuma cfg ctx s = failed "libxl_get_numainfo failed") /\
  (forall numa, libxl_get_numainfo ctx = Some numa -> numa <> [] ->
   (libxl_get_cpu_topology ctx = None \/ libxl_get_cpu_topology ctx = Some [] ->
    libxlCapsInitNuma cfg ctx s = failed "libxl_get_cpu_topology failed") /\
   (forall topo, libxl_get_cpu_topology ctx = Some topo -> topo <> [] ->
    (Forall (fun t => valid_core cfg t = true -> N.to_nat (node t) < length numa) topo ->
     libxlCapsInitNuma cfg ctx s =
       (Ok tt, {| caps := set_host_numaCell
                            (host_numaCell (caps s) ++ emitted cfg numa 0 topo) (caps s);
                  faults := []; errors := errors s |})) /\
    (Exists (fun t => valid_core cfg t = true /\ length numa <= N.to_nat (node t)) topo ->
     libxlCapsInitNuma cfg ctx s = (Undefined, s)))).
Proof.
  intros Hf. simpl. split; [|intros numa Hnuma Hn0; split; [|intros topo Htopo Ht0; split]].
  - unfold libxlCapsInitNuma, libxlCapsInitNuma_body.
    intros [-> | ->]; simpl; by rewrite Hf.
  - unfold libxlCapsInitNuma, libxlCapsInitNuma_body. rewrite Hnuma.
    destruct numa as [|n numa]; [done|].
    intros [-> | ->]; simpl; by rewrite Hf.
  - intros Hall. by apply libxlCapsInitNuma_no_faults.
  - intros Hex. unfold libxlCapsInitNuma, libxlCapsInitNuma_body. rewrite Hnuma, Htopo.
    destruct numa as [|n0 numa0] eqn:En; [done|]. rewrite <- En in *.
    destruct topo as [|t0 topo0] eqn:Et; [done|]. rewrite <- Et in *.
    clear En Et n0 numa0 t0 topo0.
    rewrite (bind_run _ _ _ _ _ (alloc_no_faults s Hf)).
    rewrite (bind_run _ _ _ _ _ (alloc_no_faults s Hf)).
    rewrite bind_unfold.
    rewrite (prepare_cpus_outside topo 0 (length topo) _ _ s Hf);
      [done|by rewrite !length_replicate|by rewrite length_replicate].
Qed.

End Outcome.

Lemma numa_answers_witness :
  libxlCapsInitNuma Examples.cfg MoreExamples.ctx_outside Examples.start =
    (Undefined, Examples.start).
Proof.
  refine (proj2 (proj2 (proj2 (numa_answers Examples.cfg MoreExamples.ctx_outside
                                 Examples.start eq_refl)
                          Examples.numa eq_refl _)
                   MoreExamples.topo_outside eq_refl _) _).
  - discriminate.
  - discriminate.
  - right. left. split; [reflexivity|]. simpl. lia.
Defined.

End NumaOutcome.

(** ** What the cells hold *)
Module CellFacts.
Import CStr Regex GuestArchs Caps Libxl CapsFacts LibxlFacts NumaNotions.

Section Cells.
Context (cfg : build_config).

Lemma row_of_ids (topo : list libxl_cputopology) (i0 nr n : nat) :
  map cpu_id (row_of cfg topo i0 nr n) =
  List.filter
    (fun i => match topo !! (i - i0) with
              | Some t => on_node cfg n t
              | None => false
              end)
    (seq i0 (length topo)).
Proof.
  revert i0. induction topo as [|t rest IH]; intros i0; simpl; [done|].
  rewrite Nat.sub_diag. simpl. rewrite map_app, IH.
  assert (Hext :
    List.filter (fun i => match rest !! (i - S i0) with
                          | Some t => on_node cfg n t
                          | None => false
                          end) (seq (S i0) (length rest)) =
    List.filter (fun i => match (t :: rest) !! (i - i0) with
                          | Some t => on_node cfg n t
                          | None => false
                          end) (seq (S i0) (length rest))).
  { apply filter_ext_in. intros i Hi. apply in_seq in Hi.
    replace (i - i0) with (S (i - S i0)) by lia. done. }
  rewrite Hext. by destruct (on_node cfg n t).
Qed.

Lemma node_cpus_ids (topo : list libxl_cputopology) (n : nat) :
  map cpu_id (node_cpus cfg topo n) = cpus_on_node cfg topo n.
Proof.
  unfold node_cpus, cpus_on_node. rewrite map_map.
  rewrite (map_ext _ cpu_id) by (intros c; apply sib_fold_fields).
  rewrite row_of_ids. apply filter_ext. intros i. by rewrite Nat.sub_0_r.
Qed.

Lemma node_cpus_bitmap (topo : list libxl_cputopology) (n : nat)
    (c : virCapsHostNUMACellCPU) :
  In c (node_cpus cfg topo n) -> length (siblings c) = length topo.
Proof.
  unfold node_cpus. intros Hin. apply in_map_iff in Hin as (c0 & <- & Hin).
  destruct (sib_fold_fields cfg topo 0 n c0) as (_ & _ & _ & ->).
  apply In_row_of in Hin as (j & t & _ & _ & ->). simpl.
  unfold virBitmapNew. by rewrite length_replicate.
Qed.

Lemma cpus_on_node_In (topo : list libxl_cputopology) (n k : nat) :
  In k (cpus_on_node cfg topo n) <->
  exists t, topo !! k = Some t /\ on_node cfg n t = true.
Proof.
  unfold cpus_on_node. rewrite filter_In, in_seq. split.
  - intros [_ H]. destruct (topo !! k) as [t|]; [|done]. by exists t.
  - intros (t & Ht & Hon). rewrite Ht. split; [|done].
    apply lookup_lt_Some in Ht. lia.
Qed.

(** X12: the CPUs of a cell that a successful [libxlCapsInitNuma] adds
    are exactly the CPUs that the topology places, with a valid core, on
    the node of the cell's number, in the order of their indices; each has
    the socket and the core of its topology entry and a sibling map of
    [nr_cpus] bits. *)
Theorem cell_cpus_are_node_cpus (ctx : libxl_ctx) (s s' : bstate)
    (topo : list libxl_cputopology) :
  libxl_get_cpu_topology ctx = Some topo ->
  libxlCapsInitNuma cfg ctx s = (Ok tt, s') ->
  exists cells,
    host_numaCell (caps s') = host_numaCell (caps s) ++ cells /\
    forall c, In c cells ->
      map cpu_id (cell_cpus c) = cpus_on_node cfg topo (cell_num c) /\
      forall cpu, In cpu (cell_cpus c) ->
        exists t, topo !! cpu_id cpu = Some t /\
          socket_id cpu = socket t /\ core_id cpu = core t /\
          length (siblings cpu) = length topo.
Proof.
  intros Htopo Hrun.
  destruct (libxlCapsInitNuma_Ok cfg ctx s s' Hrun) as (numa & topo' & _ & Ht' & _ & Hcells).
  assert (topo' = topo) as -> by congruence.
  exists (emitted cfg numa 0 topo). split; [done|].
  intros c Hc. apply In_emitted in Hc as (j & n & _ & _ & ->). simpl.
  split; [apply node_cpus_ids|].
  intros cpu Hcpu.
  destruct (node_cpus_char cfg topo j cpu Hcpu) as (t & Ht & _ & Hs & Hco & _).
  exists t. repeat split; try done. by apply (node_cpus_bitmap topo j).
Qed.

(** X13: in a cell that a successful [libxlCapsInitNuma] adds, every bit
    set in a sibling map is the index of a CPU of the same cell. *)
Theorem sibling_bits_stay_in_cell (ctx : libxl_ctx) (s s' : bstate) :
  libxlCapsInitNuma cfg ctx s = (Ok tt, s') ->
  exists cells,
    host_numaCell (caps s') = host_numaCell (caps s) ++ cells /\
    forall c A k, In c cells -> In A (cell_cpus c) ->
      virBitmapIsSet (siblings A) k ->
      exists B, In B (cell_cpus c) /\ cpu_id B = k.
Proof.
  intros Hrun.
  destruct (libxlCapsInitNuma_Ok cfg ctx s s' Hrun) as (numa & topo & _ & _ & _ & Hcells).
  exists (emitted cfg numa 0 topo). split; [done|].
  intros c A k Hc HA Hbit. apply In_emitted in Hc as (j & n & _ & _ & ->). simpl in *.
  destruct (node_cpus_char cfg topo j A HA) as (t & _ & _ & _ & _ & Hbits).
  destruct (proj1 (Hbits k) Hbit) as (t' & Ht' & Hon & _).
  assert (Hk : In k (map cpu_id (node_cpus cfg topo j))).
  { rewrite node_cpus_ids. apply cpus_on_node_In. by exists t'. }
  apply in_map_iff in Hk as (B & HB & HinB). by exists B.
Qed.

(** X14: after a successful [libxlCapsInitNuma] no cell lists a CPU
    twice, and every CPU with a valid core on a node of valid size is
    listed in the cell of that node and in no other. *)
Theorem each_cpu_in_one_cell (ctx : libxl_ctx) (s s' : bstate)
    (numa : list libxl_numainfo) (topo : list libxl_cputopology) :
  libxl_get_numainfo ctx = Some numa ->
  libxl_get_cpu_topology ctx = Some topo ->
  libxlCapsInitNuma cfg ctx s = (Ok tt, s') ->
  exists cells,
    host_numaCell (caps s') = host_numaCell (caps s) ++ cells /\
    (forall c, In c cells -> NoDup (map cpu_id (cell_cpus c))) /\
    forall i t n,
      topo !! i = Some t -> valid_core cfg t = true ->
      numa !! N.to_nat (node t) = Some n ->
      size n <> LIBXL_NUMAINFO_INVALID_ENTRY cfg ->
      exists c, In c cells /\ cell_num c = N.to_nat (node t) /\
        In i (map cpu_id (cell_cpus c)) /\
        forall c', In c' cells -> In i (map cpu_id (cell_cpus c')) -> c' = c.
Proof.
  intros Hnuma Htopo Hrun.
  destruct (libxlCapsInitNuma_Ok cfg ctx s s' Hrun)
    as (numa' & topo' & Hn' & Ht' & _ & Hcells).
  assert (numa' = numa) as -> by congruence.
  assert (topo' = topo) as -> by congruence.
  exists (emitted cfg numa 0 topo). split; [done|]. split.
  - intros c Hc. apply In_emitted in Hc as (j & n & _ & _ & ->). simpl.
    rewrite node_cpus_ids. apply NoDup_ListNoDup, List.NoDup_filter, seq_NoDup.
  - intros i t n Hi Hv Hn Hsize.
    exists {| cell_num := 0 + N.to_nat (node t); cell_mem := (size n / 1024)%N;
              cell_cpus := node_cpus cfg topo (0 + N.to_nat (node t)) |}.
    split; [apply In_emitted; by exists (N.to_nat (node t)), n|].
    split; [done|]. simpl. split.
    + rewrite node_cpus_ids. apply cpus_on_node_In. exists t. split; [done|].
      unfold on_node. by rewrite Hv, Nat.eqb_refl.
    + intros c' Hc' Hin. apply In_emitted in Hc' as (j & n' & Hj & _ & ->).
      simpl in Hin. rewrite node_cpus_ids in Hin.
      apply cpus_on_node_In in Hin as (t' & Ht'' & Hon).
      assert (t' = t) as -> by congruence.
      apply on_node_inv in Hon as [_ Hnode]. simpl in Hnode. subst j.
      assert (n' = n) as -> by congruence. done.
Qed.

End Cells.

Lemma cell_cpus_are_node_cpus_witness :
  exists cells,
    host_numaCell
      (caps (libxlCapsInitNuma Examples.cfg Examples.ctx Examples.start).2) =
      [] ++ cells /\
    forall c, In c cells ->
      map cpu_id (cell_cpus c) =
        cpus_on_node Examples.cfg Examples.topo (cell_num c) /\
      forall cpu, In cpu (cell_cpus c) ->
        exists t, Examples.topo !! cpu_id cpu = Some t /\
          socket_id cpu = socket t /\ core_id cpu = core t /\
          length (siblings cpu) = 6.
Proof.
  apply (cell_cpus_are_node_cpus Examples.cfg Examples.ctx Examples.start).
  - reflexivity.
  - vm_compute. reflexivity.
Defined.

Lemma sibling_bits_stay_in_cell_witness :
  exists cells,
    host_numaCell
      (caps (libxlCapsInitNuma Examples.cfg Examples.ctx Examples.start).2) =
      [] ++ cells /\
    forall c A k, In c cells -> In A (cell_cpus c) ->
      virBitmapIsSet (siblings A) k ->
      exists B, In B (cell_cpus c) /\ cpu_id B = k.
Proof.
  apply (sibling_bits_stay_in_cell Examples.cfg Examples.ctx Examples.start).
  vm_compute. reflexivity.
Defined.

Lemma each_cpu_in_one_cell_witness :
  exists cells,
    host_numaCell
      (caps (libxlCapsInitNuma Examples.cfg Examples.ctx Examples.start).2) =
      [] ++ cells /\
    (forall c, In c cells -> NoDup (map cpu_id (cell_cpus c))) /\
    forall i t n,
      Examples.topo !! i = Some t -> valid_core Examples.cfg t = true ->
      Examples.numa !! N.to_nat (node t) = Some n ->
      size n <> 4294967295%N ->
      exists c, In c cells /\ cell_num c = N.to_nat (node t) /\
        In i (map cpu_id (cell_cpus c)) /\
        forall c', In c' cells -> In i (map cpu_id (cell_cpus c')) -> c' = c.
Proof.
  apply (each_cpu_in_one_cell Examples.cfg Examples.ctx Examples.start).
  - reflexivity.
  - reflexivity.
  - vm_compute. reflexivity.
Defined.

End CellFacts.

(** ** The assembler when no allocation fails *)
Module AssemblerFacts.
Import CStr Regex GuestArchs Caps Libxl CapsFacts GuestArchsFacts LibxlFacts.

Section Assembled.
Context (cfg : build_config).

Lemma new_object (w : world) :
  pending w = [] ->
  virCapabilitiesNew (virArchFromHost cfg)
    (negb (LIBXL_HAVE_NO_SUSPEND_RESUME cfg))
    (negb (LIBXL_HAVE_NO_SUSPEND_RESUME cfg)) w =
  (Some (fresh (dom (heap w))),
   world_of (<[fresh (dom (heap w)) :=
                 {| refs := 1;
                    obj := caps {| caps := new_caps cfg; faults := [];
                                   errors := errlog w |} |}]> (heap w))
     {| caps := new_caps cfg; faults := []; errors := errlog w |}).
Proof. intros Hp. unfold virCapabilitiesNew. by rewrite Hp. Qed.

Lemma fresh_not_there (w : world) : heap w !! fresh (dom (heap w)) = None.
Proof. apply not_elem_of_dom, is_fresh. Qed.

Lemma host_no_faults (ctx : libxl_ctx) (phy : libxl_physinfo) (hw : N)
    (rest : list N) (s : bstate) :
  libxl_get_physinfo ctx = Some phy -> hw_cap phy = hw :: rest ->
  faults s = [] ->
  libxlCapsInitHost cfg ctx s =
    (Ok tt,
     {| caps := set_host_netprefix (Some (LIBXL_GENERATED_PREFIX_XEN cfg))
                  (set_host_features
                     (host_features (caps s) ++ (if N.testbit hw 6 then ["pae"] else []))
                     (caps s));
        faults := []; errors := errors s |}).
Proof.
  intros Hphy Hhw Hf. unfold libxlCapsInitHost. rewrite Hphy, Hhw. simpl.
  rewrite pae_mask_testbit.
  unfold virCapabilitiesAddHostFeature, virCapabilitiesSetNetPrefix,
    mbind, M_bind, bind, mret, M_ret, ret, alloc, modify.
  destruct s as [c fl er]. simpl in *. subst fl.
  destruct (N.testbit hw 6); simpl; [done|].
  rewrite app_nil_r. by destruct c.
Qed.

(** X15: with every query answered, every valid-core CPU on a node
    below [nr_nodes] and no allocation failing, [libxlMakeCapabilities]
    returns a fresh object with one reference that holds: the host
    architecture and the two booleans of the build, "pae" when bit 6 of
    [hw_cap[0]] is set, the configured network prefix, the cells of the
    nodes with a valid size, and the guests of the retained profiles. *)
Theorem make_capabilities_success (ctx : libxl_ctx) (w : world)
    (phy : libxl_physinfo) (hw : N) (rest : list N)
    (numa : list libxl_numainfo) (topo : list libxl_cputopology)
    (ver : libxl_version_info) (str : string) (st : parse_state) :
  pending w = [] ->
  libxl_get_physinfo ctx = Some phy -> hw_cap phy = hw :: rest ->
  libxl_get_numainfo ctx = Some numa -> numa <> [] ->
  libxl_get_cpu_topology ctx = Some topo -> topo <> [] ->
  Forall (fun t => valid_core cfg t = true -> N.to_nat (node t) < length numa) topo ->
  libxl_get_version_info ctx = Some ver -> capabilities ver = Some str ->
  parse_capabilities str = Ok st ->
  let p := fresh (dom (heap w)) in
  heap w !! p = None /\
  libxlMakeCapabilities cfg ctx w =
    (Ok p,
     {| heap :=
          <[p := {| refs := 1;
                    obj := {| host_arch := virArchFromHost cfg;
                              suspend_supported := negb (LIBXL_HAVE_NO_SUSPEND_RESUME cfg);
                              resume_supported := negb (LIBXL_HAVE_NO_SUSPEND_RESUME cfg);
                              host_features := if N.testbit hw 6 then ["pae"] else [];
                              host_netprefix := Some (LIBXL_GENERATED_PREFIX_XEN cfg);
                              host_numaCell := emitted cfg numa 0 topo;
                              guests := map (spec_guest cfg) (retained st) |} |}]>
            (heap w);
        pending := [];
        errlog := errlog w |}).
Proof.
  intros Hp Hphy Hhw Hnuma Hn0 Htopo Ht0 Hnodes Hver Hcap Hst p.
  split; [apply fresh_not_there|].
  destruct (parse_capabilities_refines str) as (st' & Hst' & Hrep & _).
  assert (st' = st) as -> by congruence.
  unfold libxlMakeCapabilities. rewrite (new_object w Hp). fold p.
  rewrite (on_object_fresh (heap w) p (libxlCapsInitHost cfg ctx)
             {| caps := new_caps cfg; faults := []; errors := errlog w |}).
  rewrite (host_no_faults ctx phy hw rest
             {| caps := new_caps cfg; faults := []; errors := errlog w |}
             Hphy Hhw eq_refl).
  cbv beta iota zeta.
  match goal with
  | |- context [on_object p (libxlCapsInitNuma cfg ctx) (world_of _ ?s1)] =>
      rewrite (on_object_fresh (heap w) p (libxlCapsInitNuma cfg ctx) s1);
      rewrite (libxlCapsInitNuma_no_faults cfg ctx numa topo s1 Hnuma Htopo Hn0 Ht0
                 Hnodes eq_refl)
  end.
  cbv beta iota zeta.
  match goal with
  | |- context [on_object p (libxlCapsInitGuests cfg ctx) (world_of _ ?s2)] =>
      rewrite (on_object_fresh (heap w) p (libxlCapsInitGuests cfg ctx) s2);
      rewrite (libxlCapsInitGuests_no_faults cfg ctx ver str s2 Hver Hcap eq_refl)
  end.
  rewrite (represents_retained st _ Hrep). reflexivity.
Qed.

(** X16: with no allocation failing, a query that fails makes
    [libxlMakeCapabilities] return NULL, with the heap as before the call
    and one message in the log, that of the first query to fail in the
    order: physical info, NUMA info, CPU topology, version info,
    capabilities string. *)
Theorem make_capabilities_first_failure (ctx : libxl_ctx) (w : world) :
  pending w = [] ->
  let failed msg :=
    (Fail, {| heap := heap w; pending := []; errlog := errlog w ++ [msg] |}) in
  (libxl_get_physinfo ctx = None ->
   libxlMakeCapabilities cfg ctx w =
     failed "Failed to get node physical info from libxenlight") /\
  (forall phy hw rest,
   libxl_get_physinfo ctx = Some phy -> hw_cap phy = hw :: rest ->
   (libxl_get_numainfo ctx = None \/ libxl_get_numainfo ctx = Some [] ->
    libxlMakeCapabilities cfg ctx w = failed "libxl_get_numainfo failed") /\
   (forall numa, libxl_get_numainfo ctx = Some numa -> numa <> [] ->
    (libxl_get_cpu_topology ctx = None \/ libxl_get_cpu_topology ctx = Some [] ->
     libxlMakeCapabilities cfg ctx w = failed "libxl_get_cpu_topology failed") /\
    (forall topo, libxl_get_cpu_topology ctx = Some topo -> topo <> [] ->
     Forall (fun t => valid_core cfg t = true -> N.to_nat (node t) < length numa) topo ->
     (libxl_get_version_info ctx = None ->
      libxlMakeCapabilities cfg ctx w =
        failed "Failed to get version info from libxenlight") /\
     (forall ver, libxl_get_version_info ctx = Some ver -> capabilities ver = None ->
      libxlMakeCapabilities cfg ctx w =
        failed "Failed to get capabilities from libxenlight")))).
Proof.
  intros Hp. simpl. set (p := fresh (dom (heap w))).
  pose proof (fresh_not_there w) as Hfresh. fold p in Hfresh.
  assert (Hhost0 : libxlMakeCapabilities cfg ctx w =
    match on_object p (libxlCapsInitHost cfg ctx)
            (world_of (<[p := {| refs := 1;
                                 obj := caps {| caps := new_caps cfg; faults := [];
                                                errors := errlog w |} |}]> (heap w))
               {| caps := new_caps cfg; faults := []; errors := errlog w |}) with
    | (Ok _, w1) =>
        match on_object p (libxlCapsInitNuma cfg ctx) w1 with
        | (Ok _, w2) =>
            match on_object p (libxlCapsInitGuests cfg ctx) w2 with
            | (Ok _, w3) => (Ok p, w3)
            | (Fail, w3) => (Fail, virObjectUnref p w3)
            | (Undefined, w3) => (Undefined, w3)
            | (OutOfFuel, w3) => (OutOfFuel, w3)
            end
        | (Fail, w2) => (Fail, virObjectUnref p w2)
        | (Undefined, w2) => (Undefined, w2)
        | (OutOfFuel, w2) => (OutOfFuel, w2)
        end
    | (Fail, w1) => (Fail, virObjectUnref p w1)
    | (Undefined, w1) => (Undefined, w1)
    | (OutOfFuel, w1) => (OutOfFuel, w1)
    end).
  { unfold libxlMakeCapabilities. rewrite (new_object w Hp). fold p.
    repeat match goal with
           | |- context [match ?x with (_, _) => _ end] => destruct x as [[[]| | |] ?]
           end; reflexivity. }
  rewrite Hhost0. clear Hhost0.
  rewrite (on_object_fresh (heap w) p (libxlCapsInitHost cfg ctx)
             {| caps := new_caps cfg; faults := []; errors := errlog w |}).
  split.
  { intros Hphy. unfold libxlCapsInitHost. rewrite Hphy. simpl.
    f_equal.
    exact (unref_fresh _ _ {| caps := new_caps cfg; faults := [];
                              errors := errlog w ++ [_] |} Hfresh). }
  intros phy hw rest Hphy Hhw.
  rewrite (host_no_faults ctx phy hw rest
             {| caps := new_caps cfg; faults := []; errors := errlog w |}
             Hphy Hhw eq_refl).
  cbv beta iota zeta.
  match goal with
  | |- context [on_object p (libxlCapsInitNuma cfg ctx) (world_of _ ?s1)] =>
      rewrite (on_object_fresh (heap w) p (libxlCapsInitNuma cfg ctx) s1);
      set (s1' := s1)
  end.
  assert (Hfail : forall c msg,
    (Fail, virObjectUnref p
             (world_of (<[p := {| refs := 1; obj := c |}]> (heap w))
                {| caps := c; faults := []; errors := errlog w ++ [msg] |})) =
    ((Fail, {| heap := heap w; pending := []; errlog := errlog w ++ [msg] |})
       : res nat * world)).
  { intros c msg. f_equal.
    exact (unref_fresh _ _ {| caps := c; faults := [];
                              errors := errlog w ++ [msg] |} Hfresh). }
  split.
  { unfold libxlCapsInitNuma, libxlCapsInitNuma_body.
    intros [-> | ->]; simpl; apply Hfail. }
  intros numa Hnuma Hn0. split.
  { unfold libxlCapsInitNuma, libxlCapsInitNuma_body. rewrite Hnuma.
    destruct numa as [|n numa]; [done|].
    intros [-> | ->]; simpl; apply Hfail. }
  intros topo Htopo Ht0 Hnodes.
  rewrite (libxlCapsInitNuma_no_faults cfg ctx numa topo s1' Hnuma Htopo Hn0 Ht0
             Hnodes eq_refl).
  cbv beta iota zeta.
  match goal with
  | |- context [on_object p (libxlCapsInitGuests cfg ctx) (world_of _ ?s2)] =>
      rewrite (on_object_fresh (heap w) p (libxlCapsInitGuests cfg ctx) s2)
  end.
  split.
  { intros Hver. unfold libxlCapsInitGuests. rewrite Hver. simpl. apply Hfail. }
  intros ver Hver Hcap. unfold libxlCapsInitGuests. rewrite Hver, Hcap. simpl.
  apply Hfail.
Qed.

End Assembled.

Lemma make_capabilities_success_witness :
  exists o,
    libxlMakeCapabilities Examples.cfg Examples.ctx Examples.empty_world =
      (Ok (fresh (dom (∅ : gmap nat virObject))),
       {| heap := <[fresh (dom (∅ : gmap nat virObject)) := {| refs := 1; obj := o |}]> ∅;
          pending := []; errlog := [] |}) /\
    host_features o = ["pae"] /\
    length (host_numaCell o) = 2 /\
    length (guests o) = 2.
Proof.
  eexists. split.
  - refine (proj2 (make_capabilities_success Examples.cfg Examples.ctx
                     Examples.empty_world Examples.phy 0x40 [0%N] Examples.numa
                     Examples.topo Examples.ver _ _
                     eq_refl eq_refl eq_refl eq_refl _ eq_refl _ _ eq_refl eq_refl _)).
    + discriminate.
    + discriminate.
    + repeat constructor; simpl; lia.
    + vm_compute. reflexivity.
  - vm_compute. repeat split.
Defined.

Lemma make_capabilities_first_failure_witness :
  libxlMakeCapabilities Examples.cfg (Examples.ctx_with Examples.ver_no_capabilities)
    Examples.empty_world =
    (Fail, {| heap := ∅; pending := [];
              errlog := ["Failed to get capabilities from libxenlight"] |}).
Proof.
  refine (proj2 (proj2 (proj2 (proj2
            (make_capabilities_first_failure Examples.cfg
               (Examples.ctx_with Examples.ver_no_capabilities)
               Examples.empty_world eq_refl)
            Examples.phy 0x40%N [0%N] eq_refl eq_refl)
            Examples.numa eq_refl _)
            Examples.topo eq_refl _ _)
            Examples.ver_no_capabilities eq_refl eq_refl).
  - discriminate.
  - discriminate.
  - repeat constructor; simpl; lia.
Defined.

End AssemblerFacts.

(** ** The device model marker *)
Module EmulatorFacts.
Import CStr Caps Libxl.

Lemma append_cons (c : ascii) (a b : string) :
  String c a +:+ b = String c (a +:+ b).
Proof. reflexivity. Qed.

Lemma STRPREFIX_spec (a b : string) :
  STRPREFIX a b = true <-> exists post, a = b +:+ post.
Proof.
  revert a. induction b as [|cb rb IH]; intros a.
  - destruct a; simpl; (split; [by eexists|done]).
  - destruct a as [|ca ra]; simpl; [split; [done|by intros [? ?]]|].
    destruct (Ascii.eqb_spec ca cb) as [->|Hne].
    + rewrite IH. split; intros [post H]; exists post; rewrite append_cons in *; congruence.
    + split; [done|]. intros [post H]. rewrite append_cons in H. congruence.
Qed.

Lemma strstr_spec (hay needle : string) :
  strstr hay needle = true <-> exists pre post, hay = pre +:+ needle +:+ post.
Proof.
  induction hay as [|c r IH].
  - change (strstr "" needle) with (STRPREFIX "" needle || false).
    rewrite orb_false_r, STRPREFIX_spec. split.
    + intros [post H]. by exists "", post.
    + intros ([|? ?] & post & H); [by exists post|done].
  - change (strstr (String c r) needle)
      with (STRPREFIX (String c r) needle || strstr r needle).
    rewrite orb_true_iff, STRPREFIX_spec, IH. split.
    + intros [[post H]|(pre & post & H)].
      * by exists "", post.
      * exists (String c pre), post. by rewrite append_cons, H.
    + intros ([|c' pre] & post & H).
      * left. by exists post.
      * right. exists pre, post. rewrite append_cons in H. congruence.
Qed.


End EmulatorFacts.

(** ** /proc/cpuinfo in closed form *)
Module CpuinfoFacts.
Import NodeInfo NodeInfoFacts CpuinfoNotions.

Lemma until_nul_drop (k : nat) (x l : list ascii) :
  until_nul x = Some l -> k <= length l -> until_nul (drop k x) = Some (drop k l).
Proof.
  revert x l. induction k as [|k IH]; intros x l; [by rewrite !drop_0|].
  destruct x as [|c x]; simpl; [done|].
  destruct (Ascii.eqb c NUL); [intros [= <-]; simpl; lia|].
  destruct (until_nul x) as [l'|] eqn:E; simpl; [|done].
  intros [= <-] Hk. simpl in *. apply IH; [done|lia].
Qed.

Lemma prefix_processor_not_mhz (l : list ascii) :
  STRPREFIX l (chars "processor") = true ->
  STRPREFIX l (chars "cpu MHz") = false.
Proof. destruct l as [|c l]; simpl; [done|]. by destruct (Ascii.eqb_spec c "p") as [->|]. Qed.

Lemma prefix_cores_not_mhz (l : list ascii) :
  STRPREFIX l (chars "cpu cores") = true ->
  STRPREFIX l (chars "cpu MHz") = false.
Proof.
  intros H. destruct (STRPREFIX l (chars "cpu MHz")) eqn:E; [|done].
  by rewrite (prefix_mhz_not_cores l E) in H.
Qed.

Section Populate.
Variable virStrToLong_ui : list ascii -> option (N * list ascii).

Local Abbreviation line_body := (line_body virStrToLong_ui).
Local Abbreviation read_loop := (read_loop virStrToLong_ui).
Local Abbreviation cpu_cores_value := (cpu_cores_value virStrToLong_ui).
Local Abbreviation max_cores := (max_cores virStrToLong_ui).
Local Abbreviation mhz_value := (mhz_value virStrToLong_ui).
Local Abbreviation last_mhz := (last_mhz virStrToLong_ui).
Local Abbreviation line_step := (line_step virStrToLong_ui).
Local Abbreviation mhz_after := (mhz_after virStrToLong_ui).

Lemma virNodeInfo_eq (a b : virNodeInfo) :
  cpus a = cpus b -> mhz a = mhz b -> nodes a = nodes b -> sockets a = sockets b ->
  cores a = cores b -> threads a = threads b -> a = b.
Proof. destruct a, b; simpl; congruence. Qed.

(** One round of the loop on a line whose key is followed by the text
    that the code takes it to be followed by. *)
Lemma line_body_closed (ni : virNodeInfo) (chunk junk l : list ascii) :
  until_nul (chunk ++ [NUL]) = Some l ->
  (STRPREFIX l (chars "cpu MHz") = true -> 9 <= length l) ->
  line_body ni (chunk ++ NUL :: junk) =
    if line_ok l then Ok (line_step ni l) else Fail.
Proof.
  intros Hl Hlong. unfold NodeInfo.line_body, cstr. rewrite drop_0.
  assert (Hfull : until_nul (chunk ++ NUL :: junk) = Some l)
    by (by rewrite (proj1 (until_nul_app chunk junk))).
  rewrite Hfull.
  unfold line_ok, colon_after_key, value_after_colon.
  assert (Hstep : forall (p : bool) (m c : option N),
    is_processor_line l = p -> mhz_value l = m -> cpu_cores_value l = c ->
    line_step ni l =
      {| cpus := cpus ni + (if p then 1 else 0);
         mhz := match m with Some v => v | None => mhz ni end;
         nodes := nodes ni; sockets := sockets ni;
         cores := match c with Some id => N.max (cores ni) id | None => cores ni end;
         threads := threads ni |}).
  { by intros p m c <- <- <-. }
  unfold is_processor_line, CpuinfoNotions.mhz_value, NodeInfo.cpu_cores_value in Hstep.
  destruct (STRPREFIX l (chars "processor")) eqn:Ep.
  - rewrite (prefix_processor_not_mhz l Ep), (prefix_processor_not_cores l Ep) in Hstep.
    rewrite (Hstep _ _ _ eq_refl eq_refl eq_refl).
    destruct (Ascii.eqb (deref (skip_space (drop 9 l))) ":"); [|done].
    cbn [negb]. f_equal.
  - destruct (STRPREFIX l (chars "cpu MHz")) eqn:Em.
    + rewrite (prefix_mhz_not_cores l Em) in Hstep.
      rewrite (Hstep _ _ _ eq_refl eq_refl eq_refl).
      rewrite (until_nul_drop 9 _ l Hfull (Hlong eq_refl)). cbn [orb].
      destruct (Ascii.eqb (deref (skip_space (drop 9 l))) ":"); [|done].
      destruct (Ascii.eqb (deref (tail (skip_space (drop 9 l)))) NUL); [done|].
      cbn [negb orb andb].
      destruct (virStrToLong_ui (tail (skip_space (drop 9 l)))) as [[ui p]|].
      * destruct (Ascii.eqb (deref p) NUL || Ascii.eqb (deref p) "."
                  || c_isspace (deref p));
          f_equal; apply virNodeInfo_eq; cbn; (done || lia).
      * f_equal; apply virNodeInfo_eq; cbn; (done || lia).
    + destruct (STRPREFIX l (chars "cpu cores")) eqn:Ec; cbn [orb].
      * rewrite (Hstep _ _ _ eq_refl eq_refl eq_refl).
        destruct (Ascii.eqb (deref (skip_space (drop 9 l))) ":"); [|done].
        destruct (Ascii.eqb (deref (tail (skip_space (drop 9 l)))) NUL); [done|].
        cbn [negb orb andb].
        destruct (virStrToLong_ui (tail (skip_space (drop 9 l)))) as [[id p]|].
        -- destruct (Ascii.eqb (deref p) NUL || c_isspace (deref p)); cbn [andb].
           ++ destruct (N.ltb_spec (cores ni) id);
                f_equal; apply virNodeInfo_eq; cbn; (done || lia).
           ++ f_equal; apply virNodeInfo_eq; cbn; (done || lia).
        -- f_equal; apply virNodeInfo_eq; cbn; (done || lia).
      * rewrite (Hstep _ _ _ eq_refl eq_refl eq_refl).
        f_equal; apply virNodeInfo_eq; cbn; (done || lia).
Qed.

Lemma read_loop_closed (fuel : nat) (cpuinfo : list ascii) (st : pstate) :
  length cpuinfo < fuel ->
  Forall (fun l => STRPREFIX l (chars "cpu MHz") = true -> 9 <= length l)
    (chunks_upto fuel cpuinfo) ->
  read_loop fuel cpuinfo st =
    if forallb line_ok (chunks_upto fuel cpuinfo)
    then Ok (fold_left line_step (chunks_upto fuel cpuinfo) (nodeinfo st))
    else Fail.
Proof.
  revert cpuinfo st. induction fuel as [|fuel IH]; intros cpuinfo st Hf; [lia|].
  cbn [NodeInfo.read_loop chunks_upto]. unfold fgets.
  destruct cpuinfo as [|c0 r0] eqn:Ecpu; [done|].
  rewrite <- Ecpu in *.
  destruct (read_chunk (sizeof_line - 1) cpuinfo) as [chunk rest] eqn:Er.
  assert (Hrest : length rest < length cpuinfo).
  { apply (read_chunk_shorter 1022 cpuinfo chunk rest); [exact Er|]. by subst. }
  clear Ecpu. intros Hall. apply Forall_cons in Hall as [Hl Hall].
  destruct (until_nul_app chunk []) as [_ [l Hcs]].
  rewrite Hcs in *. change (default [] (Some l)) with l in *.
  rewrite (line_body_closed _ chunk _ l Hcs Hl).
  cbn [forallb fold_left]. destruct (line_ok l); [|done]. simpl andb.
  apply IH; [lia|done].
Qed.

Lemma fold_line_step (ls : list (list ascii)) (ni : virNodeInfo) :
  fold_left line_step ls ni =
    {| cpus := cpus ni + processor_lines ls;
       mhz := last_mhz (mhz ni) ls;
       nodes := nodes ni;
       sockets := sockets ni;
       cores := max_cores (cores ni) ls;
       threads := threads ni |}.
Proof.
  revert ni. induction ls as [|l ls IH]; intros ni.
  - simpl. apply virNodeInfo_eq; simpl; try done. unfold processor_lines. simpl. lia.
  - cbn [fold_left]. rewrite IH. apply virNodeInfo_eq; simpl; try done.
    unfold processor_lines. simpl. destruct (is_processor_line l); simpl; lia.
Qed.


(** X19: a "cpu MHz" line that [fgets] delivers with fewer than nine
    characters: [buf += 9] steps over the terminator, and the text that
    is examined and converted is what the [line] array held at offset 9
    before this [fgets] (an earlier line, or nothing initialised). *)
Theorem mhz_short_line_reads_old_array (ni : virNodeInfo)
    (line f chunk rest l : list ascii) :
  f <> [] ->
  read_chunk (sizeof_line - 1) f = (chunk, rest) ->
  until_nul (chunk ++ [NUL]) = Some l ->
  STRPREFIX l (chars "cpu MHz") = true ->
  length chunk < 9 ->
  exists line',
    fgets line sizeof_line f = Some (line', rest) /\
    drop 9 line' = drop 9 line /\
    line_body ni line' =
      match cstr line 9 with
      | Ok buf => mhz_after ni buf
      | Fail => Fail
      | Undefined => Undefined
      | OutOfFuel => OutOfFuel
      end.
Proof.
  intros Hf Hr Hl Hm Hshort.
  exists (chunk ++ NUL :: drop (S (length chunk)) line).
  assert (Hdrop : drop 9 (chunk ++ NUL :: drop (S (length chunk)) line) = drop 9 line).
  { rewrite drop_app_ge by lia.
    replace (9 - length chunk) with (S (8 - length chunk)) by lia.
    simpl. rewrite drop_drop. f_equal. lia. }
  split; [|split; [done|]].
  - unfold fgets. destruct f; [done|]. by rewrite Hr.
  - unfold NodeInfo.line_body, cstr at 1. rewrite drop_0.
    rewrite (proj1 (until_nul_app chunk _)), Hl.
    destruct (STRPREFIX l (chars "processor")) eqn:Ep.
    { by rewrite (prefix_processor_not_mhz l Ep) in Hm. }
    rewrite Hm. unfold cstr. rewrite Hdrop.
    by destruct (until_nul (drop 9 line)).
Qed.

End Populate.


Lemma mhz_short_line_reads_old_array_witness :
  exists line',
    fgets (replicate 9 "x"%char ++ chars ":7" ++ [NUL]) sizeof_line (chars "cpu MHz
") = Some (line', []) /\
    drop 9 line' = chars ":7" ++ [NUL] /\
    line_body Examples.one_digit
      {| cpus := 0; mhz := 0; nodes := 1; sockets := 1; cores := 1; threads := 1 |}
      line' =
    Ok {| cpus := 0; mhz := 7; nodes := 1; sockets := 1; cores := 1; threads := 1 |}.
Proof.
  apply (mhz_short_line_reads_old_array Examples.one_digit
           {| cpus := 0; mhz := 0; nodes := 1; sockets := 1; cores := 1; threads := 1 |}
           (replicate 9 "x"%char ++ chars ":7" ++ [NUL]) (chars "cpu MHz
") (chars "cpu MHz
") [] (chars "cpu MHz
")).
  - discriminate.
  - reflexivity.
  - reflexivity.
  - reflexivity.
  - simpl. lia.
Defined.

End CpuinfoFacts.

(** ** virCapsInitNUMA *)
Module NodeNumaFacts.
Import NodeNuma.

Lemma MASK_CPU_ISSET_inside (mask : list N) (cpu : nat) :
  cpu / n_bits < length mask -> MASK_CPU_ISSET mask cpu = Ok (mask_bit mask cpu).
Proof.
  intros Hin. unfold MASK_CPU_ISSET, mask_bit.
  destruct (lookup_lt_is_Some_2 mask (cpu / n_bits) Hin) as [w Hw].
  rewrite Hw, (list_lookup_total_correct _ _ _ Hw). f_equal.
  set (k := N.of_nat (cpu mod n_bits)).
  change 1%N with (N.ones 1) at 1. rewrite N.land_ones. change (2 ^ 1)%N with 2%N.
  rewrite <- N.bit0_mod, N.shiftr_spec by lia. rewrite N.add_0_l.
  by destruct (N.testbit w k).
Qed.

Lemma count_cpus_spec (mask : list N) (steps : nat) :
  forall i c,
  (forall j, i <= j < i + steps -> j / n_bits < length mask) ->
  count_cpus mask i steps c =
    Ok (c + length (List.filter (mask_bit mask) (seq i steps))).
Proof.
  induction steps as [|steps IH]; intros i c Hin; simpl.
  - f_equal. lia.
  - rewrite MASK_CPU_ISSET_inside by (apply Hin; lia).
    rewrite IH by (intros j Hj; apply Hin; lia).
    destruct (mask_bit mask i); simpl; f_equal; lia.
Qed.

Lemma fill_cpus_spec (mask : list N) (steps : nat) :
  forall i pre suf,
  (forall j, i <= j < i + steps -> j / n_bits < length mask) ->
  length suf = length (List.filter (mask_bit mask) (seq i steps)) ->
  fill_cpus mask i steps (pre ++ suf) (length pre) =
    Ok (pre ++ List.filter (mask_bit mask) (seq i steps),
        length pre + length (List.filter (mask_bit mask) (seq i steps))).
Proof.
  induction steps as [|steps IH]; intros i pre suf Hin Hlen; simpl in *.
  - destruct suf; [|done]. f_equal. f_equal. lia.
  - rewrite MASK_CPU_ISSET_inside by (apply Hin; lia).
    destruct (mask_bit mask i); simpl in *.
    + destruct suf as [|x suf]; [done|].
      rewrite length_app. simpl.
      destruct (Nat.ltb_spec (length pre) (length pre + S (length suf))); [|lia].
      rewrite insert_app_r_alt, Nat.sub_diag by lia. simpl.
      replace (pre ++ i :: suf) with ((pre ++ [i]) ++ suf) by (by rewrite <- app_assoc).
      replace (S (length pre)) with (length (pre ++ [i]))
        by (rewrite length_app; simpl; lia).
      rewrite IH; [|intros j Hj; apply Hin; lia|by injection Hlen].
      rewrite <- app_assoc, length_app. simpl. f_equal. f_equal. lia.
    + apply IH; [intros j Hj; apply Hin; lia|done].
Qed.

Lemma count_cpus_outside (mask : list N) (steps : nat) :
  forall i c,
  (exists j, i <= j < i + steps /\ length mask <= j / n_bits) ->
  count_cpus mask i steps c = Undefined.
Proof.
  induction steps as [|steps IH]; intros i c (j & Hj & Hout); simpl; [lia|].
  unfold MASK_CPU_ISSET.
  destruct (mask !! (i / n_bits)) as [w|] eqn:E; [|done].
  apply IH. exists j. split; [|done].
  destruct (decide (j = i)) as [->|]; [|lia].
  apply lookup_lt_Some in E. lia.
Qed.

Lemma words_of_mask (max : nat) : max / 8 / 8 = max / n_bits.
Proof. by rewrite Nat.Div0.div_div. Qed.

Section Cells.
Context (lib : libnuma).
Hypothesis Hfills : fills_buffer lib.

Lemma node_loop_cells (steps : nat) :
  NUMA_MAX_N_CPUS lib mod n_bits = 0 ->
  forall n s,
  let '(r, s') := node_loop lib (NUMA_MAX_N_CPUS lib / 8) n steps s in
  (r = Ok tt \/ r = Fail) /\
  exists k, k <= steps /\
    cells s' = cells s ++ map (cell_call lib) (seq n k) /\
    (r = Ok tt -> k = steps).
Proof.
  intros Hmax. induction steps as [|steps IH]; intros n s; cbn [node_loop].
  - split; [by left|]. exists 0. simpl. by rewrite app_nil_r.
  - destruct s as [cs fl]. cbn [cells].
    assert (Hstop :
      (Fail = Ok tt \/ (Fail : res unit) = Fail) /\
      exists k, k <= S steps /\
        cs = cs ++ map (cell_call lib) (seq n k) /\
        ((Fail : res unit) = Ok tt -> k = S steps)).
    { split; [by right|]. exists 0. simpl. rewrite app_nil_r. split; [lia|done]. }
    destruct (numa_node_to_cpus lib n (NUMA_MAX_N_CPUS lib / 8)) as [mask|] eqn:Emask;
      [|exact Hstop].
    assert (Hin : forall j, 0 <= j < 0 + NUMA_MAX_N_CPUS lib -> j / n_bits < length mask).
    { intros j Hj. rewrite (Hfills _ _ _ Emask), words_of_mask.
      apply Nat.Div0.div_lt_upper_bound.
      pose proof (Nat.Div0.div_mod (NUMA_MAX_N_CPUS lib) n_bits). lia. }
    rewrite count_cpus_spec by done. cbn [Nat.add].
    fold (mask_cpus mask (NUMA_MAX_N_CPUS lib)).
    assert (Hcall : cell_call lib n =
              (n, length (mask_cpus mask (NUMA_MAX_N_CPUS lib)),
               mask_cpus mask (NUMA_MAX_N_CPUS lib))).
    { unfold cell_call. by rewrite Emask. }
    pose proof (fill_cpus_spec mask (NUMA_MAX_N_CPUS lib) 0 []
                  (replicate (length (mask_cpus mask (NUMA_MAX_N_CPUS lib))) 0)
                  Hin ltac:(by rewrite length_replicate)) as Hfill.
    simpl in Hfill. fold (mask_cpus mask (NUMA_MAX_N_CPUS lib)) in *.
    assert (Hgo : forall f,
      let '(r, s') :=
        node_loop lib (NUMA_MAX_N_CPUS lib / 8) (S n) steps
          {| cells := cs ++
                        [(n, length (mask_cpus mask (NUMA_MAX_N_CPUS lib)),
                          mask_cpus mask (NUMA_MAX_N_CPUS lib))];
             nfaults := f |} in
      (r = Ok tt \/ r = Fail) /\
      exists k, k <= S steps /\
        cells s' = cs ++ map (cell_call lib) (seq n k) /\
        (r = Ok tt -> k = S steps)).
    { intros f.
      match goal with
      | |- context [node_loop _ _ _ _ ?s3] => specialize (IH (S n) s3)
      end.
      destruct (node_loop _ _ _ _ _) as [r s'].
      destruct IH as [Hr (k & Hk & Hcells & Hok)]. split; [done|].
      exists (S k). split; [lia|]. split; [|intros H; by rewrite (Hok H)].
      rewrite Hcells. simpl. rewrite Hcall, <- app_assoc. done. }
    unfold nalloc.
    destruct fl as [|[] [|[] fs]]; cbn [nfaults cells negb];
      rewrite ?Hfill; cbn [nfaults cells negb];
      first [exact Hstop | apply Hgo].
Qed.

(** X20: when the CPU limit is a multiple of 64 and the library fills
    the buffer it is given, [virCapsInitNUMA] ends with 0 or -1: every
    read of the mask and every store into [cpus] is in bounds. The cell
    calls that succeeded are those of the nodes 0, 1, ... in order, each
    with the CPUs that its mask names below the limit, in increasing
    order, and their number; on success there is one for every node up to
    [numa_max_node()]; on failure those made for the lower nodes stand.
    Without libnuma support in the build or on the host, nothing is done
    and the answer is 0. *)
Theorem numa_cells_of_masks (s : nstate) :
  NUMA_MAX_N_CPUS lib mod 64 = 0 ->
  let '(r, s') := virCapsInitNUMA lib s in
  (r = Ok tt \/ r = Fail) /\
  exists k,
    (Z.of_nat k <= Z.max 0 (numa_max_node lib + 1))%Z /\
    cells s' = cells s ++ map (cell_call lib) (seq 0 k) /\
    (r = Ok tt -> HAVE_NUMACTL lib = true -> numa_available lib = true ->
     Z.of_nat k = Z.max 0 (numa_max_node lib + 1)) /\
    (HAVE_NUMACTL lib = false \/ numa_available lib = false -> r = Ok tt /\ s' = s).
Proof.
  intros Hmax. unfold virCapsInitNUMA.
  assert (Hnone : forall (r : res unit) (s0 : nstate),
    r = Ok tt \/ r = Fail -> cells s0 = cells s ->
    (r = Ok tt -> HAVE_NUMACTL lib = true -> numa_available lib = true -> False) ->
    (HAVE_NUMACTL lib = false \/ numa_available lib = false -> r = Ok tt /\ s0 = s) ->
    (r = Ok tt \/ r = Fail) /\
    exists k,
      (Z.of_nat k <= Z.max 0 (numa_max_node lib + 1))%Z /\
      cells s0 = cells s ++ map (cell_call lib) (seq 0 k) /\
      (r = Ok tt -> HAVE_NUMACTL lib = true -> numa_available lib = true ->
       Z.of_nat k = Z.max 0 (numa_max_node lib + 1)) /\
      (HAVE_NUMACTL lib = false \/ numa_available lib = false -> r = Ok tt /\ s0 = s)).
  { intros r s0 Hr Hc Hno Hoff. split; [done|]. exists 0. simpl. rewrite app_nil_r.
    split; [lia|]. split; [done|]. split; [|done]. intros. exfalso. by apply Hno. }
  destruct (HAVE_NUMACTL lib) eqn:Eh; simpl;
    [|apply Hnone; [by left|done|done|done]].
  destruct (numa_available lib) eqn:Ea; simpl;
    [|apply Hnone; [by left|done|done|done]].
  assert (Hrun : forall s1 : nstate, cells s1 = cells s ->
    let '(r, s') := node_loop lib (NUMA_MAX_N_CPUS lib / 8) 0
                      (Z.to_nat (numa_max_node lib + 1)) s1 in
    (r = Ok tt \/ r = Fail) /\
    exists k,
      (Z.of_nat k <= Z.max 0 (numa_max_node lib + 1))%Z /\
      cells s' = cells s ++ map (cell_call lib) (seq 0 k) /\
      (r = Ok tt -> true = true -> true = true ->
       Z.of_nat k = Z.max 0 (numa_max_node lib + 1)) /\
      (true = false \/ true = false -> r = Ok tt /\ s' = s)).
  { intros s1 Hs1.
    pose proof (node_loop_cells (Z.to_nat (numa_max_node lib + 1)) Hmax 0 s1) as H.
    destruct (node_loop _ _ _ _ _) as [r s'].
    destruct H as [Hr (k & Hk & Hcells & Hok)]. split; [done|].
    exists k. split; [lia|]. split; [by rewrite Hcells, Hs1|].
    split; [|by intros [|]]. intros H _ _. rewrite (Hok H). lia. }
  unfold nalloc. destruct s as [cs [|[] fs]]; cbn [nfaults cells negb].
  - exact (Hrun _ eq_refl).
  - apply (Hnone Fail {| cells := cs; nfaults := fs |});
      [by right|done|done|by intros [|]].
  - exact (Hrun {| cells := cs; nfaults := fs |} eq_refl).
Qed.

(** X21: when the CPU limit is no multiple of 64, the mask has
    [limit / 64] words and the counting loop reads the word behind them:
    with libnuma there, at least one node, and the first two calls
    succeeding, the function reads outside the mask. *)
Theorem numa_mask_read_outside (s : nstate) (mask : list N) :
  HAVE_NUMACTL lib = true -> numa_available lib = true ->
  NUMA_MAX_N_CPUS lib mod 64 <> 0 ->
  (0 <= numa_max_node lib)%Z ->
  numa_node_to_cpus lib 0 (NUMA_MAX_N_CPUS lib / 8) = Some mask ->
  head (nfaults s) <> Some true ->
  (virCapsInitNUMA lib s).1 = Undefined.
Proof.
  intros Hh Ha Hmax Hnodes Hmask Hf. unfold virCapsInitNUMA. rewrite Hh, Ha.
  cbn [negb].
  destruct (Z.to_nat (numa_max_node lib + 1)) as [|steps] eqn:Esteps; [lia|].
  assert (Hcount : count_cpus mask 0 (NUMA_MAX_N_CPUS lib) 0 = Undefined).
  { apply count_cpus_outside. exists (n_bits * (NUMA_MAX_N_CPUS lib / n_bits)).
    pose proof (Nat.Div0.div_mod (NUMA_MAX_N_CPUS lib) n_bits) as Hdm.
    change n_bits with 64 in *. split; [lia|].
    rewrite (Hfills _ _ _ Hmask), words_of_mask. change n_bits with 64.
    rewrite Nat.mul_comm, Nat.div_mul by lia. done. }
  unfold nalloc. destruct s as [cs [|[] fs]]; cbn [nfaults cells negb head] in *;
    try done; cbn [node_loop]; by rewrite Hmask, Hcount.
Qed.

End Cells.

Lemma numa_cells_of_masks_witness :
  let '(r, s') := virCapsInitNUMA NumaExamples.lib NumaExamples.no_cells in
  (r = Ok tt \/ r = Fail) /\
  exists k,
    (Z.of_nat k <= 2)%Z /\
    cells s' = [] ++ map (cell_call NumaExamples.lib) (seq 0 k) /\
    (r = Ok tt -> true = true -> true = true -> Z.of_nat k = 2%Z) /\
    (true = false \/ true = false -> r = Ok tt /\ s' = NumaExamples.no_cells).
Proof.
  apply (numa_cells_of_masks NumaExamples.lib).
  - intros n bytes mask [= <-]. apply length_resize.
  - reflexivity.
Defined.

Lemma numa_mask_read_outside_witness :
  (virCapsInitNUMA NumaExamples.lib_100 NumaExamples.no_cells).1 = Undefined.
Proof.
  apply (numa_mask_read_outside NumaExamples.lib_100) with (mask := [3%N]).
  - intros n bytes mask [= <-]. apply length_resize.
  - reflexivity.
  - reflexivity.
  - simpl. lia.
  - simpl. lia.
  - reflexivity.
  - discriminate.
Defined.

End NodeNumaFacts.

(** ** virNodeInfoPopulate *)
Module NodePopulateFacts.
Import NodeInfo NodePopulate.

Lemma strncpy_terminated (n : nat) :
  forall dst src,
  n < length dst -> Forall (fun c => c <> NUL) src ->
  until_nul (<[n := NUL]> (strncpy dst src n)) = Some (take n src) /\
  length (<[n := NUL]> (strncpy dst src n)) = length dst.
Proof.
  induction n as [|n IH]; intros dst src Hn Hsrc.
  - destruct dst as [|d dst]; simpl in *; [lia|]. by rewrite take_0.
  - destruct dst as [|d dst]; simpl in *; [lia|].
    destruct src as [|c src]; simpl.
    + split; [done|]. rewrite length_insert.
      destruct (IH dst [] ltac:(lia) ltac:(constructor)) as [_ Hl].
      rewrite length_insert in Hl. by rewrite Hl.
    + apply Forall_cons in Hsrc as [Hc Hsrc].
      destruct (IH dst src ltac:(lia) Hsrc) as [Hu Hl].
      destruct (Ascii.eqb_spec c NUL) as [->|_]; [done|].
      rewrite Hu. simpl. by rewrite Hl.
Qed.

Section Populate.
Variable virStrToLong_ui : list ascii -> option (N * list ascii).
Variable env : node_env.

(** X22: [virNodeInfoPopulate] succeeds exactly when the build is for
    Linux, [uname] (where the build has it) and [fopen] succeed, and
    [linuxNodeInfoCPUPopulate] succeeds on the stream; then the counters
    are those of that call, [memory] is the value from [physmem_total],
    and with [uname] the model is the machine name cut to
    [sizeof(model) - 1] characters and terminated, in an array of the same
    size. *)
Theorem node_info_populate (ni ni' : node_info) :
  0 < sizeof_model env -> length (model ni) = sizeof_model env ->
  (forall machine, uname env = Some machine -> Forall (fun c => c <> NUL) machine) ->
  (virNodeInfoPopulate virStrToLong_ui env ni = Ok ni' <->
   linux env = true /\
   (HAVE_UNAME env = true -> is_Some (uname env)) /\
   exists cpuinfo,
     fopen_cpuinfo env = Some cpuinfo /\
     linuxNodeInfoCPUPopulate virStrToLong_ui (stack env) cpuinfo = Ok (counts ni') /\
     memory ni' = physmem_kb env /\
     length (model ni') = sizeof_model env /\
     cstr (model ni') 0 =
       Ok (if HAVE_UNAME env
           then take (sizeof_model env - 1) (default [] (uname env))
           else []) /\
     (HAVE_UNAME env = true ->
      model ni' = <[sizeof_model env - 1 := NUL]>
                    (strncpy (model ni) (default [] (uname env)) (sizeof_model env - 1))) /\
     (HAVE_UNAME env = false -> model ni' = <[0 := NUL]> (model ni))).
Proof.
  intros Hsize Hlen Hmachine.
  unfold virNodeInfoPopulate, set_model, cstr. rewrite drop_0.
  destruct (HAVE_UNAME env) eqn:Eu.
  - destruct (uname env) as [machine|] eqn:Em.
    + destruct (strncpy_terminated (sizeof_model env - 1) (model ni) machine
                  ltac:(lia) (Hmachine machine eq_refl)) as [Hcs Hl].
      destruct (linux env); [|split; [done|by intros [? _]]].
      destruct (fopen_cpuinfo env) as [cpuinfo|];
        [|split; [done|by intros (_ & _ & ? & ? & _)]].
      destruct (linuxNodeInfoCPUPopulate _ _ cpuinfo) as [c| | |] eqn:Ec.
      * split.
        -- intros [= <-]. split; [done|]. split; [by eexists|]. exists cpuinfo.
           simpl. rewrite Hcs, Hl. repeat split; done.
        -- intros (_ & _ & ci & [= <-] & Hc & Hmem & _ & _ & Hmod & _).
           f_equal. destruct ni' as [m me co]; simpl in *.
           rewrite (Hmod eq_refl), Hmem. congruence.
      * split; [done|]. intros (_ & _ & ci & [= <-] & Hc & _). congruence.
      * split; [done|]. intros (_ & _ & ci & [= <-] & Hc & _). congruence.
      * split; [done|]. intros (_ & _ & ci & [= <-] & Hc & _). congruence.
    + split; [done|]. intros (_ & Hu & _). by destruct (Hu eq_refl).
  - assert (Hcs : until_nul (<[0 := NUL]> (model ni)) = Some []).
    { destruct (model ni); simpl in *; [lia|done]. }
    destruct (linux env); [|split; [done|by intros [? _]]].
    destruct (fopen_cpuinfo env) as [cpuinfo|];
      [|split; [done|by intros (_ & _ & ? & ? & _)]].
    destruct (linuxNodeInfoCPUPopulate _ _ cpuinfo) as [c| | |] eqn:Ec.
    + split.
      * intros [= <-]. split; [done|]. split; [done|]. exists cpuinfo.
        simpl. rewrite Hcs, length_insert. repeat split; done.
      * intros (_ & _ & ci & [= <-] & Hc & Hmem & _ & _ & _ & Hmod).
        f_equal. destruct ni' as [m me co]; simpl in *.
        rewrite (Hmod eq_refl), Hmem. congruence.
    + split; [done|]. intros (_ & _ & ci & [= <-] & Hc & _). congruence.
    + split; [done|]. intros (_ & _ & ci & [= <-] & Hc & _). congruence.
    + split; [done|]. intros (_ & _ & ci & [= <-] & Hc & _). congruence.
Qed.

End Populate.

Lemma node_info_populate_witness :
  exists ni',
    virNodeInfoPopulate Examples.one_digit sample_env blank_info = Ok ni' /\
    cstr (model ni') 0 = Ok (chars "x86_64") /\
    memory ni' = 8388608%N /\ cpus (counts ni') = 2%N.
Proof.
  eexists. split; [|split; [|split]].
  - apply (node_info_populate Examples.one_digit sample_env blank_info).
    + simpl. lia.
    + reflexivity.
    + intros machine [= <-]. repeat constructor; discriminate.
    + split; [reflexivity|]. split; [by eexists|]. eexists. split; [reflexivity|].
      instantiate (1 := {| model := _; memory := _; counts := _ |}).
      cbn [counts memory model].
      split; [vm_compute; reflexivity|]. split; [reflexivity|].
      split; [|split; [|split; [intros _; reflexivity|discriminate]]].
      * vm_compute. reflexivity.
      * vm_compute. reflexivity.
  - vm_compute. reflexivity.
  - reflexivity.
  - reflexivity.
Defined.

End NodePopulateFacts.
